(** * fine-auth: credential hashing, session tokens and the session lifecycle

    A shallow embedding of [src/crypto.ts], [src/auth.ts], [src/errors.ts]
    and the in-memory adapter [src/adapters/memory.ts], followed by the
    properties of the specification that were checked against them.

    Conventions of the embedding.
    - A JavaScript string is a [string] holding the bytes of its UTF-8
      encoding, which is what [Buffer.from(s)], [scrypt] and the HMAC read.
      Emptiness, [split] on an ASCII separator and the digits of a duration
      are read off those bytes as they are off the string.  [trim] and
      [toLowerCase] follow the Unicode tables, which are not reproduced
      here: they are the two methods of [Js.StringPrototype], and the code
      is embedded over any implementation of them.  [Js.trim_ascii] and
      [Js.toLowerCase_ascii] are what the two methods do on strings of
      ASCII characters.
    - A [Buffer] is a [list byte].
    - A number is an IEEE 754 double, [Js.Number]: [NaN], an infinity, or a
      finite value kept as an integer count of 2^-1074, with addition and
      multiplication rounded to nearest, ties to even.
    - A [Date] is [option Z]: [Some t] is the instant [t] milliseconds after
      the epoch, [None] is the Invalid Date produced by [new Date(x)] when
      [x] is not finite or outside the range of [TimeClip].
    - [async] functions are sequential here: every [await] is a bind. *)

From stdpp Require Import gmap strings list.
From Stdlib Require Import ZArith NArith Lia.
From Stdlib.Strings Require Import Ascii String Byte.

Local Open Scope string_scope.
Local Open Scope list_scope.

(** ** JavaScript strings *)

Module Js.

(** [!s] for a string: only the empty string is falsy. *)
Definition falsy (s : string) : bool :=
  match s with EmptyString => true | String _ _ => false end.

(** [s.split(sep)] for a one-character separator. *)
Fixpoint split (sep : ascii) (s : string) : list string :=
  match s with
  | EmptyString => [EmptyString]
  | String c s' =>
      if Ascii.eqb c sep then EmptyString :: split sep s'
      else match split sep s' with
           | p :: ps => String c p :: ps
           | [] => [String c EmptyString]
           end
  end.

(** Does character [c] occur in [s]? *)
Fixpoint occurs (c : ascii) (s : string) : bool :=
  match s with
  | EmptyString => false
  | String d s' => Ascii.eqb d c || occurs c s'
  end.

(** [String.prototype.trim] and [String.prototype.toLowerCase].  What they
    do to a character outside the ASCII range is fixed by the Unicode
    tables of the runtime (an accented capital is lower-cased, a no-break
    space is trimmed); the code is embedded over the two methods. *)
Class StringPrototype := {
  trim : string -> string;
  toLowerCase : string -> string
}.

(** A string of ASCII characters: every byte is below 128. *)
Fixpoint is_ascii (s : string) : bool :=
  match s with
  | EmptyString => true
  | String c s' => (N_of_ascii c <? 128)%N && is_ascii s'
  end.

(** The white space and line terminators of the ASCII range, which [trim]
    removes: TAB, LF, VT, FF, CR and SPACE. *)
Definition is_space (c : ascii) : bool :=
  let n := N_of_ascii c in
  ((9 <=? n) && (n <=? 13) || (n =? 32))%N.

Fixpoint trimStart (s : string) : string :=
  match s with
  | EmptyString => EmptyString
  | String c s' => if is_space c then trimStart s' else s
  end.

Fixpoint trimEnd (s : string) : string :=
  match s with
  | EmptyString => EmptyString
  | String c s' =>
      match trimEnd s' with
      | EmptyString => if is_space c then EmptyString else String c EmptyString
      | t => String c t
      end
  end.

(** [s.trim()] for a string of ASCII characters. *)
Definition trim_ascii (s : string) : string := trimEnd (trimStart s).

Definition lower (c : ascii) : ascii :=
  let n := N_of_ascii c in
  if ((65 <=? n) && (n <=? 90))%N then ascii_of_N (n + 32) else c.

(** [s.toLowerCase()] for a string of ASCII characters. *)
Fixpoint toLowerCase_ascii (s : string) : string :=
  match s with
  | EmptyString => EmptyString
  | String c s' => String (lower c) (toLowerCase_ascii s')
  end.

(** What is known of the two methods without the Unicode tables: on a
    string of ASCII characters they are [trim_ascii] and
    [toLowerCase_ascii]. *)
Definition ascii_conforming (P : StringPrototype) : Prop :=
  forall s, is_ascii s = true ->
    trim s = trim_ascii s /\ toLowerCase s = toLowerCase_ascii s.

(** The two methods restricted to ASCII, to run the code on ASCII inputs. *)
Definition ascii_prototype : StringPrototype :=
  {| trim := trim_ascii; toLowerCase := toLowerCase_ascii |}.

Definition is_digit (c : ascii) : bool :=
  let n := N_of_ascii c in ((48 <=? n) && (n <=? 57))%N.

(** ** Numbers

    A number is an IEEE 754 double: [NaN], an infinity, or a finite value.
    Every finite double is an integer multiple of 2^-1074, the least
    positive double, and is kept as that integer: [Finite u] is the number
    u * 2^-1074, so that [Finite (z * 2^1074)] is the integer [z].  The two
    zeros are the one value [Finite 0]: both are falsy, and the code never
    divides by a number nor prints one, which alone would tell them
    apart. *)
Inductive Number :=
| NaN
| Infinity (negative : bool)
| Finite (u : Z).

(** The number one, as a count of 2^-1074. *)
Definition scale : Z := 2 ^ 1074.

(** [m / 2^s] rounded to the nearest integer, ties to even, for
    [0 <= m]. *)
Definition div_nearest_even (m s : Z) : Z :=
  let q := (m / 2 ^ s)%Z in
  let r := (m mod 2 ^ s)%Z in
  if (2 * r <? 2 ^ s)%Z then q
  else if (2 ^ s <? 2 * r)%Z then (q + 1)%Z
  else if Z.even q then q else (q + 1)%Z.

(** The double nearest to m * 2^-(1074 + f), for [0 <= m] and [0 <= f], as
    a count of 2^-1074: the 53 leading bits of [m] are kept, and no bit
    below 2^-1074. *)
Definition round_magnitude (m f : Z) : Z :=
  let s := Z.max f (Z.log2 m - 52) in
  (div_nearest_even m s * 2 ^ (s - f))%Z.

(** Rounding of m * 2^-(1074 + f) to a double, to nearest and ties to
    even; a magnitude of 2^1024 or more after rounding is an infinity. *)
Definition round (m f : Z) : Number :=
  let u := round_magnitude (Z.abs m) f in
  if (2 ^ 2098 <=? u)%Z then Infinity (m <? 0)%Z
  else Finite (Z.sgn m * u).

(** [a + b] *)
Definition add (a b : Number) : Number :=
  match a, b with
  | NaN, _ | _, NaN => NaN
  | Infinity s, Infinity t => if Bool.eqb s t then Infinity s else NaN
  | Infinity s, Finite _ | Finite _, Infinity s => Infinity s
  | Finite x, Finite y => round (x + y) 0
  end.

(** [a * b] *)
Definition mul (a b : Number) : Number :=
  match a, b with
  | NaN, _ | _, NaN => NaN
  | Infinity s, Infinity t => Infinity (xorb s t)
  | Infinity s, Finite x | Finite x, Infinity s =>
      if (x =? 0)%Z then NaN else Infinity (xorb s (x <? 0)%Z)
  | Finite x, Finite y => round (x * y) 1074
  end.

(** The number value of an integer: the double nearest to it.  An integer
    literal of the code, such as [1000], is [of_int 1000]. *)
Definition of_int (z : Z) : Number := round (z * scale) 0.

(** [a < b] and [a <= b]: false when either side is [NaN]. *)
Definition ltb (a b : Number) : bool :=
  match a, b with
  | NaN, _ | _, NaN => false
  | Infinity s, Infinity t => s && negb t
  | Infinity s, Finite _ => s
  | Finite _, Infinity t => negb t
  | Finite x, Finite y => (x <? y)%Z
  end.

Definition leb (a b : Number) : bool :=
  match a, b with
  | NaN, _ | _, NaN => false
  | Infinity s, Infinity t => s || negb t
  | Infinity s, Finite _ => s
  | Finite _, Infinity t => negb t
  | Finite x, Finite y => (x <=? y)%Z
  end.

(** [!n] for a number: [0] and [NaN] are falsy. *)
Definition falsy_number (n : Number) : bool :=
  match n with
  | NaN => true
  | Finite u => (u =? 0)%Z
  | Infinity _ => false
  end.

(** The integer written by a string of decimal digits. *)
Fixpoint decimal_acc (acc : Z) (s : string) : Z :=
  match s with
  | EmptyString => acc
  | String c s' => decimal_acc (10 * acc + Z.of_N (N_of_ascii c - 48)) s'
  end.

Definition decimal (s : string) : Z := decimal_acc 0 s.

(** [parseInt(s, 10)] on a string of decimal digits: the number value of
    the integer written. *)
Definition parseInt (s : string) : Number := of_int (decimal s).

(** ** Dates *)

Definition Date := option Z.

(** [TimeClip] of ECMA-262: a time value that is not finite or is beyond
    8.64e15 in absolute value gives [NaN], the time value of an Invalid
    Date; any other is truncated to an integer. *)
Definition TimeClip (t : Number) : Date :=
  match t with
  | Finite u =>
      if (Z.abs u >? 8640000000000000 * scale)%Z then None
      else Some (Z.quot u scale)
  | _ => None
  end.

(** [new Date(t)] for a number [t]. *)
Definition new_Date (t : Number) : Date := TimeClip t.

#[global] Arguments scale : simpl never.
#[global] Arguments round : simpl never.
#[global] Arguments of_int : simpl never.
#[global] Arguments add : simpl never.
#[global] Arguments mul : simpl never.

(** [a > b] on two dates: both are converted to numbers, and a comparison
    with the [NaN] of an Invalid Date is false. *)
Definition Date_gt (a b : Date) : bool :=
  match a, b with
  | Some x, Some y => (y <? x)%Z
  | _, _ => false
  end.

(** ** Buffers *)

Abbreviation Buffer := (list byte).

#[global] Instance byte_eq_dec : EqDecision byte := Byte.byte_eq_dec.

(** [Buffer.from(s)]: the bytes of the string. *)
Definition Buffer_from (s : string) : Buffer := list_byte_of_string s.

Definition hex_digit (n : N) : ascii :=
  ascii_of_N (if (n <? 10)%N then 48 + n else 87 + n).

Definition hex_of_byte (b : byte) : string :=
  let n := Byte.to_N b in
  String (hex_digit (n / 16)) (String (hex_digit (n mod 16)) EmptyString).

(** [buf.toString("hex")] *)
Fixpoint toString_hex (buf : Buffer) : string :=
  match buf with
  | [] => EmptyString
  | b :: bs => hex_of_byte b +:+ toString_hex bs
  end.

Definition unhex (c : ascii) : option N :=
  let n := N_of_ascii c in
  if ((48 <=? n) && (n <=? 57))%N then Some (n - 48)%N
  else if ((97 <=? n) && (n <=? 102))%N then Some (n - 87)%N
  else if ((65 <=? n) && (n <=? 70))%N then Some (n - 55)%N
  else None.

(** [Buffer.from(s, "hex")]: pairs of hexadecimal digits are decoded until
    the first pair that is not one; a trailing single character is
    dropped. *)
Fixpoint Buffer_from_hex (s : string) : Buffer :=
  match s with
  | String a (String b rest) =>
      match unhex a, unhex b with
      | Some x, Some y =>
          match Byte.of_N (16 * x + y) with
          | Some v => v :: Buffer_from_hex rest
          | None => []
          end
      | _, _ => []
      end
  | _ => []
  end.

(** The alphabet of base64url. *)
Definition b64url_char (n : N) : ascii :=
  if (n <? 26)%N then ascii_of_N (65 + n)
  else if (n <? 52)%N then ascii_of_N (97 + (n - 26))
  else if (n <? 62)%N then ascii_of_N (48 + (n - 52))
  else if (n =? 62)%N then "-"%char
  else "_"%char.

(** [buf.toString("base64url")]: three bytes give four characters, and the
    last one or two bytes give two or three characters, without padding. *)
Fixpoint toString_base64url (buf : Buffer) : string :=
  match buf with
  | [] => EmptyString
  | [a] =>
      let x := Byte.to_N a in
      String (b64url_char (x / 4))
        (String (b64url_char ((x mod 4) * 16)) EmptyString)
  | [a; b] =>
      let x := Byte.to_N a in
      let y := Byte.to_N b in
      String (b64url_char (x / 4))
        (String (b64url_char ((x mod 4) * 16 + y / 16))
           (String (b64url_char ((y mod 16) * 4)) EmptyString))
  | a :: b :: c :: rest =>
      let x := Byte.to_N a in
      let y := Byte.to_N b in
      let z := Byte.to_N c in
      String (b64url_char (x / 4))
        (String (b64url_char ((x mod 4) * 16 + y / 16))
           (String (b64url_char ((y mod 16) * 4 + z / 64))
              (String (b64url_char (z mod 64))
                 (toString_base64url rest))))
  end.

End Js.

(** [a + b] and [a * b] on numbers, and the integer literals of the code. *)
Declare Scope num_scope.
Delimit Scope num_scope with num.
Bind Scope num_scope with Js.Number.
Infix "+" := Js.add : num_scope.
Infix "*" := Js.mul : num_scope.
Notation "60" := (Js.of_int 60) : num_scope.
Notation "24" := (Js.of_int 24) : num_scope.
Notation "1000" := (Js.of_int 1000) : num_scope.

(** ** Exceptions ([src/errors.ts]) *)

Record FineAuthError := mkError {
  err_name : string;
  err_code : string;
  err_message : string
}.

Definition InvalidCredentialsError : FineAuthError :=
  mkError "InvalidCredentialsError" "INVALID_CREDENTIALS"
          "Invalid email or password".

Definition UserAlreadyExistsError : FineAuthError :=
  mkError "UserAlreadyExistsError" "USER_ALREADY_EXISTS"
          "A user with this email already exists".

Definition ConfigurationError (message : string) : FineAuthError :=
  mkError "ConfigurationError" "CONFIGURATION_ERROR" message.

(** What a [throw] carries: one of the library's errors, or an error raised
    by the runtime ([node:crypto]), named by its code. *)
Inductive Exn :=
| Lib (e : FineAuthError)
| Node (code : string).

(** A computation that returns or throws. *)
Inductive Result (A : Type) :=
| Ok (a : A)
| Thrown (e : Exn).
Arguments Ok {A} a.
Arguments Thrown {A} e.

Definition rbind {A B} (r : Result A) (k : A -> Result B) : Result B :=
  match r with
  | Ok a => k a
  | Thrown e => Thrown e
  end.

(** [try { body } catch (error) { handler }] *)
Definition try_catch {A} (body : Result A) (handler : Exn -> A) : A :=
  match body with
  | Ok a => a
  | Thrown e => handler e
  end.

(** [timingSafeEqual(a, b)] of [node:crypto]: a [RangeError] when the two
    buffers differ in length, their equality otherwise. *)
Definition timingSafeEqual (a b : Js.Buffer) : Result bool :=
  if Nat.eqb (List.length a) (List.length b)
  then Ok (bool_decide (a = b))
  else Thrown (Node "ERR_CRYPTO_TIMING_SAFE_EQUAL_LENGTH").

(** ** Data model ([src/types.ts]) *)

Module User.
Record t := mk {
  id : string;
  email : string;
  hashedPassword : string;
  createdAt : Js.Date
}.
End User.
Abbreviation User := User.t.

(** [SafeUser = Omit<User, "hashedPassword">] *)
Module SafeUser.
Record t := mk {
  id : string;
  email : string;
  createdAt : Js.Date
}.
End SafeUser.
Abbreviation SafeUser := SafeUser.t.

Module Session.
Record t := mk {
  id : string;
  userId : string;
  expiresAt : Js.Date;
  createdAt : Js.Date
}.
End Session.
Abbreviation Session := Session.t.

Module AuthResult.
Record t := mk {
  user : SafeUser;
  session : Session
}.
End AuthResult.
Abbreviation AuthResult := AuthResult.t.

(** [SessionValidationResult = { user, session } | null]: [Validated] is
    the object, [None] is [null]. *)
Module Validated.
Record t := mk {
  user : SafeUser;
  session : Session
}.
End Validated.
Abbreviation Validated := Validated.t.

Definition SessionValidationResult := option Validated.

(** [expiresIn?: string | number] *)
Inductive Duration :=
| DurationString (s : string)
| DurationNumber (n : Js.Number).

(** [session?: { expiresIn? }] *)
Record SessionConfig := mkSessionConfig {
  expiresIn : option Duration
}.

(** [method: { email?: boolean }] *)
Module Method.
Record t := mk {
  email : option bool
}.
End Method.

(** [FineAuthConfig].  The operations are written against the interface of
    the adapter, so of [db] only whether it was supplied is kept, for the
    check of the constructor.  [method] is optional here because the
    constructor tests it. *)
Record FineAuthConfig := mkConfig {
  secret : string;
  method : option Method.t;
  db : bool;
  session : option SessionConfig
}.

(** ** Programs: calls to the runtime and to the [DatabaseAdapter]

    An operation is a tree: it returns, throws, or makes a call and goes on
    with the answer.  The calls of a program are then visible in its
    structure, whatever adapter answers them. *)

Inductive Prog (E : Type) (R : E -> Type) (A : Type) : Type :=
| Ret (a : A)
| Throw (x : Exn)
| Vis (e : E) (k : R e -> Prog E R A).
Arguments Ret {E R A} a.
Arguments Throw {E R A} x.
Arguments Vis {E R A} e k.

Fixpoint bind {E R A B} (m : Prog E R A) (f : A -> Prog E R B) : Prog E R B :=
  match m with
  | Ret a => f a
  | Throw x => Throw x
  | Vis e k => Vis e (fun r => bind (k r) f)
  end.

Definition call {E R} (e : E) : Prog E R (R e) := Vis e Ret.

Definition of_result {E R A} (r : Result A) : Prog E R A :=
  match r with
  | Ok a => Ret a
  | Thrown x => Throw x
  end.

#[global] Instance prog_ret {E R} : MRet (Prog E R) := fun A a => Ret a.
#[global] Instance prog_bind {E R} : MBind (Prog E R) :=
  fun A B f m => bind m f.

(** Calls to the runtime: the clock and [randomBytes]. *)
Inductive SysCall :=
| DateNow
| RandomBytes (size : nat).

Definition SysResp (c : SysCall) : Type :=
  match c with
  | DateNow => Z
  | RandomBytes _ => list byte
  end.

(** The methods of [DatabaseAdapter] used by the operations. *)
Inductive DbCall :=
| CreateUser (email hashed : string)
| GetUserByEmail (email : string)
| GetUserById (id : string)
| CreateSession (id uid : string) (expires : Js.Date)
| GetSession (id : string)
| DeleteSession (id : string)
| DeleteUserSessions (uid : string).

Definition DbResp (c : DbCall) : Type :=
  match c with
  | CreateUser _ _ => User
  | GetUserByEmail _ => option User
  | GetUserById _ => option User
  | CreateSession _ _ _ => Session
  | GetSession _ => option Session
  | DeleteSession _ => unit
  | DeleteUserSessions _ => unit
  end.

Inductive AppCall :=
| Sys (c : SysCall)
| Db (c : DbCall).

Definition AppResp (c : AppCall) : Type :=
  match c with
  | Sys c => SysResp c
  | Db c => DbResp c
  end.

Abbreviation SysProg := (Prog SysCall SysResp).
Abbreviation AppProg := (Prog AppCall AppResp).

(** A program of the runtime used inside an operation. *)
Fixpoint lift {A} (p : SysProg A) : AppProg A :=
  match p with
  | Ret a => Ret a
  | Throw x => Throw x
  | Vis c k => Vis (Sys c) (fun r => lift (k r))
  end.

(** [await this.db.adapter.m(...)] *)
Definition adapter (c : DbCall) : AppProg (DbResp c) := Vis (Db c) Ret.

(** A call together with the answer it received. *)
Record Step (E : Type) (R : E -> Type) := mkStep {
  step_call : E;
  step_answer : R step_call
}.
Arguments mkStep {E R} step_call step_answer.
Arguments step_call {E R} s.
Arguments step_answer {E R} s.

(** The paths of a program: the calls made, in order, each with the answer
    it received, and the way the program ends. *)
Inductive path {E R A} : Prog E R A -> list (Step E R) -> Result A -> Prop :=
| path_ret a : path (Ret a) [] (Ok a)
| path_throw x : path (Throw x) [] (Thrown x)
| path_vis e k r t o : path (k r) t o -> path (Vis e k) (mkStep e r :: t) o.

Definition calls {E R} (t : list (Step E R)) : list E := map step_call t.

(** The adapter methods that change the store. *)
Definition is_write (c : AppCall) : bool :=
  match c with
  | Db (CreateUser _ _) | Db (CreateSession _ _ _)
  | Db (DeleteSession _) | Db (DeleteUserSessions _) => true
  | _ => false
  end.

(** ** [src/crypto.ts] and [src/auth.ts]

    [scrypt] and [createHmac] are the primitives of [node:crypto]; the code
    is embedded over any two functions of their types. *)

Section FineAuth.

Context {prototype : Js.StringPrototype}.

(** [scrypt(password, salt, keylen)]: the derived key, or the error it
    rejects with. *)
Variable scrypt : string -> list byte -> nat -> Result (list byte).

(** [createHmac("sha256", key).update(data).digest()] *)
Variable hmac_sha256 : string -> string -> list byte.

Definition randomBytes (size : nat) : SysProg (list byte) :=
  call (RandomBytes size).

(** [Date.now()], and the time value of [new Date()]. *)
Definition Date_now : SysProg Z := call DateNow.

Definition hashPassword (password : string) : SysProg string :=
  salt ← randomBytes 16;
  derivedKey ← of_result (scrypt password salt 64);
  mret (Js.toString_hex salt +:+ ":" +:+ Js.toString_hex derivedKey).

(** The [try] block of [verifyPassword].  [parts[i]] is [undefined] past the
    end of [parts]; [undefined] and the empty string are both falsy, so the
    default is the empty string. *)
Definition verifyPassword_try (password storedHash : string) : Result bool :=
  let parts := Js.split ":" storedHash in
  if negb (Nat.eqb (List.length parts) 2)
     || Js.falsy (nth 0 parts EmptyString)
     || Js.falsy (nth 1 parts EmptyString)
  then Ok false
  else
    let saltHex := nth 0 parts EmptyString in
    let hashHex := nth 1 parts EmptyString in
    let salt := Js.Buffer_from_hex saltHex in
    let storedKey := Js.Buffer_from_hex hashHex in
    rbind (scrypt password salt 64) (fun derivedKey =>
    timingSafeEqual storedKey derivedKey).

Definition verifyPassword (password storedHash : string) : bool :=
  try_catch (verifyPassword_try password storedHash) (fun error => false).

Definition generateSessionId : SysProg string :=
  bytes ← randomBytes 32; mret (Js.toString_hex bytes).

Definition generateUserId : SysProg string :=
  bytes ← randomBytes 16; mret (Js.toString_hex bytes).

Definition signSessionId (sessionId secret : string) : string :=
  let signature := Js.toString_base64url (hmac_sha256 secret sessionId) in
  sessionId +:+ "." +:+ signature.

Definition verifySessionId (token secret : string) : Result (option string) :=
  let parts := Js.split "." token in
  if negb (Nat.eqb (List.length parts) 2) then Ok None
  else
    let sessionId := nth 0 parts EmptyString in
    let signature := nth 1 parts EmptyString in
    if Js.falsy sessionId || Js.falsy signature then Ok None
    else
      let expectedSignature :=
        Js.toString_base64url (hmac_sha256 secret sessionId) in
      let signatureBuf := Js.Buffer_from signature in
      let expectedBuf := Js.Buffer_from expectedSignature in
      if negb (Nat.eqb (List.length signatureBuf) (List.length expectedBuf))
      then Ok None
      else
        rbind (timingSafeEqual signatureBuf expectedBuf) (fun equal =>
        if equal then Ok (Some sessionId) else Ok None).

(** *** [src/auth.ts] *)

(** The match of [/^(\d+)(ms|s|m|h|d)$/]: the longest prefix of digits,
    which must not be empty, and then exactly one of the units. *)
Fixpoint span_digits (s : string) : string * string :=
  match s with
  | EmptyString => (EmptyString, EmptyString)
  | String c s' =>
      if Js.is_digit c
      then let (d, r) := span_digits s' in (String c d, r)
      else (EmptyString, s)
  end.

Definition is_unit (u : string) : bool :=
  String.eqb u "ms" || String.eqb u "s" || String.eqb u "m"
  || String.eqb u "h" || String.eqb u "d".

Definition match_duration (s : string) : option (string * string) :=
  let (d, u) := span_digits s in
  if Js.falsy d then None
  else if is_unit u then Some (d, u) else None.

Definition parseDuration (duration : Duration) : Result Js.Number :=
  match duration with
  | DurationNumber n => Ok n
  | DurationString s =>
      match match_duration s with
      | None =>
          Thrown (Lib (ConfigurationError ("Invalid duration format: " +:+ s)))
      | Some (digits, unit) =>
          let value := Js.parseInt digits in
          if String.eqb unit "ms" then Ok value
          else if String.eqb unit "s" then Ok (value * 1000)%num
          else if String.eqb unit "m" then Ok (value * 60 * 1000)%num
          else if String.eqb unit "h" then Ok (value * 60 * 60 * 1000)%num
          else if String.eqb unit "d"
          then Ok (value * 24 * 60 * 60 * 1000)%num
          else Thrown (Lib (ConfigurationError
                              ("Unknown duration unit: " +:+ unit)))
      end
  end.

Definition toSafeUser (user : User) : SafeUser :=
  {| SafeUser.id := User.id user;
     SafeUser.email := User.email user;
     SafeUser.createdAt := User.createdAt user |}.

(** The fields of the class [FineAuth]; [db] is the adapter that answers the
    calls of the operations. *)
Record FineAuth := mkFineAuth {
  config : FineAuthConfig;
  sessionExpiresIn : Js.Number
}.

(** [config.session?.expiresIn], when it is truthy: a non-empty string or a
    number other than [0] and [NaN]. *)
Definition truthy_expiresIn (c : FineAuthConfig) : option Duration :=
  match session c with
  | None => None
  | Some sc =>
      match expiresIn sc with
      | None => None
      | Some (DurationString s) =>
          if Js.falsy s then None else Some (DurationString s)
      | Some (DurationNumber n) =>
          if Js.falsy_number n then None else Some (DurationNumber n)
      end
  end.

(** [new FineAuth(config)] *)
Definition new_FineAuth (c : FineAuthConfig) : Result FineAuth :=
  if Js.falsy (secret c)
  then Thrown (Lib (ConfigurationError "secret is required"))
  else if negb (db c)
  then Thrown (Lib (ConfigurationError "db is required"))
  else if match method c with
          | None => true
          | Some m => negb (default false (Method.email m))
          end
  then Thrown (Lib (ConfigurationError
                      "At least one auth method must be enabled"))
  else
    rbind (match truthy_expiresIn c with
           | Some d => parseDuration d
           | None => parseDuration (DurationString "7d")
           end)
          (fun ms => Ok {| config := c; sessionExpiresIn := ms |}).

Definition signUp (this : FineAuth) (email password : string)
  : AppProg AuthResult :=
  let normalizedEmail := Js.toLowerCase (Js.trim email) in
  existingUser ← adapter (GetUserByEmail normalizedEmail);
  match existingUser with
  | Some _ => Throw (Lib UserAlreadyExistsError)
  | None =>
      hashed ← lift (hashPassword password);
      user ← adapter (CreateUser normalizedEmail hashed);
      id ← lift generateSessionId;
      now ← lift Date_now;
      session ← adapter (CreateSession id (User.id user)
                           (Js.new_Date
                              (Js.add (Js.of_int now) (sessionExpiresIn this))));
      mret {| AuthResult.user := toSafeUser user;
              AuthResult.session := session |}
  end.

Definition signIn (this : FineAuth) (email password : string)
  : AppProg AuthResult :=
  let normalizedEmail := Js.toLowerCase (Js.trim email) in
  found ← adapter (GetUserByEmail normalizedEmail);
  match found with
  | None => Throw (Lib InvalidCredentialsError)
  | Some user =>
      let isValidPassword :=
        verifyPassword password (User.hashedPassword user) in
      if negb isValidPassword then Throw (Lib InvalidCredentialsError)
      else
        id ← lift generateSessionId;
        now ← lift Date_now;
        session ← adapter (CreateSession id (User.id user)
                             (Js.new_Date
                                (Js.add (Js.of_int now)
                                   (sessionExpiresIn this))));
        mret {| AuthResult.user := toSafeUser user;
                AuthResult.session := session |}
  end.

Definition validateSession (this : FineAuth) (sessionId : string)
  : AppProg SessionValidationResult :=
  found ← adapter (GetSession sessionId);
  match found with
  | None => mret None
  | Some session =>
      now ← lift Date_now;
      if Js.Date_gt (Some now) (Session.expiresAt session)
      then adapter (DeleteSession sessionId);; mret None
      else
        owner ← adapter (GetUserById (Session.userId session));
        match owner with
        | None => adapter (DeleteSession sessionId);; mret None
        | Some user =>
            mret (Some {| Validated.user := toSafeUser user;
                          Validated.session := session |})
        end
  end.

Definition signOut (this : FineAuth) (sessionId : string) : AppProg unit :=
  adapter (DeleteSession sessionId).

Definition signOutAll (this : FineAuth) (uid : string) : AppProg unit :=
  adapter (DeleteUserSessions uid).

End FineAuth.

(** ** The runtime and the in-memory adapter ([src/adapters/memory.ts]) *)

(** The clock and the random source, as the readings still to come. *)
Record Runtime := mkRuntime {
  clock : nat -> Z;
  entropy : nat -> byte
}.

(** The three [Map]s of [createMemoryAdapter]. *)
Record MemoryDb := mkMemoryDb {
  users : gmap string User;
  sessions : gmap string Session;
  emailIndex : gmap string string
}.

Record World := mkWorld {
  store : MemoryDb;
  runtime : Runtime
}.

Definition with_runtime (w : World) (rt : Runtime) : World :=
  {| store := store w; runtime := rt |}.

Definition with_store (w : World) (d : MemoryDb) : World :=
  {| store := d; runtime := runtime w |}.

(** State passing over the world, with exceptions. *)
Definition St (A : Type) : Type := World -> Result A * World.

#[global] Instance st_ret : MRet St := fun A a w => (Ok a, w).
#[global] Instance st_bind : MBind St := fun A B f m w =>
  match m w with
  | (Ok a, w') => f a w'
  | (Thrown x, w') => (Thrown x, w')
  end.

Definition get_store : St MemoryDb := fun w => (Ok (store w), w).

Definition put_store (d : MemoryDb) : St unit :=
  fun w => (Ok tt, with_store w d).

(** Reading the clock takes its next reading. *)
Definition after_tick (rt : Runtime) : Runtime :=
  {| clock := fun i => clock rt (S i); entropy := entropy rt |}.

(** [randomBytes(n)] takes the next [n] bytes of the random source. *)
Definition draw (n : nat) (rt : Runtime) : list byte :=
  map (entropy rt) (seq 0 n).

Definition after_draw (n : nat) (rt : Runtime) : Runtime :=
  {| clock := clock rt; entropy := fun i => entropy rt (n + i) |}.

Definition sys_handle (c : SysCall) : St (SysResp c) :=
  match c with
  | DateNow => fun w =>
      (Ok (clock (runtime w) 0), with_runtime w (after_tick (runtime w)))
  | RandomBytes n => fun w =>
      (Ok (draw n (runtime w)), with_runtime w (after_draw n (runtime w)))
  end.

Fixpoint run_sys {A} (p : SysProg A) : St A :=
  match p with
  | Ret a => mret a
  | Throw x => fun w => (Thrown x, w)
  | Vis c k => r ← sys_handle c; run_sys (k r)
  end.

Module Memory.

Definition createUser `{Js.StringPrototype} (email hashed : string)
  : St User :=
  id ← run_sys generateUserId;
  now ← run_sys Date_now;
  let user :=
    {| User.id := id; User.email := email; User.hashedPassword := hashed;
       User.createdAt := Some now |} in
  d ← get_store;
  put_store {| users := <[id := user]> (users d);
               sessions := sessions d;
               emailIndex := <[Js.toLowerCase email := id]> (emailIndex d) |};;
  mret user.

Definition getUserByEmail `{Js.StringPrototype} (email : string)
  : St (option User) :=
  d ← get_store;
  match emailIndex d !! Js.toLowerCase email with
  | None => mret None
  | Some uid => if Js.falsy uid then mret None else mret (users d !! uid)
  end.

Definition getUserById (id : string) : St (option User) :=
  d ← get_store; mret (users d !! id).

Definition createSession (id uid : string) (expires : Js.Date) : St Session :=
  now ← run_sys Date_now;
  let session :=
    {| Session.id := id; Session.userId := uid; Session.expiresAt := expires;
       Session.createdAt := Some now |} in
  d ← get_store;
  put_store {| users := users d;
               sessions := <[id := session]> (sessions d);
               emailIndex := emailIndex d |};;
  mret session.

Definition getSession (id : string) : St (option Session) :=
  d ← get_store; mret (sessions d !! id).

Definition deleteSession (id : string) : St unit :=
  d ← get_store;
  put_store {| users := users d;
               sessions := delete id (sessions d);
               emailIndex := emailIndex d |}.

Definition deleteUserSessions (uid : string) : St unit :=
  d ← get_store;
  put_store {| users := users d;
               sessions :=
                 filter (fun kv => Session.userId kv.2 ≠ uid) (sessions d);
               emailIndex := emailIndex d |}.

Definition handle `{Js.StringPrototype} (c : DbCall) : St (DbResp c) :=
  match c with
  | CreateUser email hashed => createUser email hashed
  | GetUserByEmail email => getUserByEmail email
  | GetUserById id => getUserById id
  | CreateSession id uid expires => createSession id uid expires
  | GetSession id => getSession id
  | DeleteSession id => deleteSession id
  | DeleteUserSessions uid => deleteUserSessions uid
  end.

End Memory.

Definition app_handle `{Js.StringPrototype} (c : AppCall)
  : St (AppResp c) :=
  match c with
  | Sys c => sys_handle c
  | Db c => Memory.handle c
  end.

(** An operation run against the in-memory adapter. *)
Fixpoint run `{Js.StringPrototype} {A} (p : AppProg A) : St A :=
  match p with
  | Ret a => mret a
  | Throw x => fun w => (Thrown x, w)
  | Vis c k => r ← app_handle c; run (k r)
  end.

(** ** Vocabulary of the statements *)

(** The canonical form of an email: trimmed and lower-cased. *)
Definition canonical `{Js.StringPrototype} (email : string) : string :=
  Js.toLowerCase (Js.trim email).

(** The user the in-memory adapter finds for an email. *)
Definition find_by_email `{Js.StringPrototype} (d : MemoryDb) (email : string)
  : option User :=
  match emailIndex d !! Js.toLowerCase email with
  | None => None
  | Some uid => if Js.falsy uid then None else users d !! uid
  end.

(** The store after [createUser] has added [u], after [createSession] has
    added [s], and after [deleteSession(id)]. *)
Definition add_user `{Js.StringPrototype} (d : MemoryDb) (u : User)
  : MemoryDb :=
  {| users := <[User.id u := u]> (users d);
     sessions := sessions d;
     emailIndex :=
       <[Js.toLowerCase (User.email u) := User.id u]> (emailIndex d) |}.

Definition add_session (d : MemoryDb) (s : Session) : MemoryDb :=
  {| users := users d;
     sessions := <[Session.id s := s]> (sessions d);
     emailIndex := emailIndex d |}.

Definition remove_session (d : MemoryDb) (id : string) : MemoryDb :=
  {| users := users d;
     sessions := delete id (sessions d);
     emailIndex := emailIndex d |}.

(** The session that [signUp] and [signIn] create for the user [uid] with
    the time to live [ttl], when the runtime is [rt]: its id is the next 32
    random bytes, [Date.now()] is the next reading of the clock, and the
    adapter stamps it with the reading after that. *)
Definition minted_session (ttl : Js.Number) (uid : string) (rt : Runtime)
  : Session :=
  {| Session.id := Js.toString_hex (draw 32 rt);
     Session.userId := uid;
     Session.expiresAt := Js.new_Date (Js.of_int (clock rt 0) + ttl)%num;
     Session.createdAt := Some (clock rt 1) |}.

Definition after_mint (rt : Runtime) : Runtime :=
  after_tick (after_tick (after_draw 32 rt)).

(** The user that [signUp] creates when the runtime is [rt] and [scrypt]
    derives [key]: the salt is the next 16 random bytes, the id the 16 after
    them. *)
Definition created_user `{Js.StringPrototype} (email : string)
  (key : list byte) (rt : Runtime) : User :=
  {| User.id := Js.toString_hex (draw 16 (after_draw 16 rt));
     User.email := canonical email;
     User.hashedPassword :=
       Js.toString_hex (draw 16 rt) +:+ ":" +:+ Js.toString_hex key;
     User.createdAt := Some (clock rt 0) |}.

Definition after_create (rt : Runtime) : Runtime :=
  after_tick (after_draw 16 (after_draw 16 rt)).

(** A clock that never goes backwards. *)
Definition monotone (rt : Runtime) : Prop :=
  forall i j, i <= j -> (clock rt i <= clock rt j)%Z.

(** A clock whose readings are time values: integers within the range of
    dates, as [Date.now()] returns them. *)
Definition in_date_range (rt : Runtime) : Prop :=
  forall i, (Z.abs (clock rt i) <= 8640000000000000)%Z.

(** ** Sample primitives and worlds

    Stand-ins for [scrypt] and the HMAC with the right output widths, and a
    runtime whose clock starts at 1000 and advances by one at each reading;
    they are used to run the operations on concrete inputs.  The sample
    emails are ASCII, and the sample stores are built and run with
    [Js.ascii_prototype]. *)

Definition sample_scrypt (password : string) (salt : list byte) (keylen : nat)
  : Result (list byte) :=
  Ok (firstn keylen
        (list_byte_of_string password ++ salt ++ repeat x00 keylen)).

Definition failing_scrypt (password : string) (salt : list byte) (keylen : nat)
  : Result (list byte) :=
  Thrown (Node "ERR_CRYPTO_SCRYPT_INVALID_PARAMETER").

Definition sample_hmac (key data : string) : list byte :=
  firstn 32
    (list_byte_of_string key ++ list_byte_of_string data ++ repeat x00 32).

Definition sample_runtime : Runtime :=
  {| clock := fun i => (1000 + Z.of_nat i)%Z;
     entropy := fun i => default x00 (Byte.of_N (N.of_nat (i mod 256))) |}.

(** A clock that stops after a thousand readings, so that every reading
    is a time value. *)
Definition capped_runtime : Runtime :=
  {| clock := fun i => (1000 + Z.of_nat (Nat.min i 1000))%Z;
     entropy := entropy sample_runtime |}.

Definition empty_db : MemoryDb :=
  {| users := ∅; sessions := ∅; emailIndex := ∅ |}.

Definition sample_world : World :=
  {| store := empty_db; runtime := sample_runtime |}.

Definition capped_world : World :=
  {| store := empty_db; runtime := capped_runtime |}.

Definition sample_config (e : option Duration) : FineAuthConfig :=
  {| secret := "test-secret-key";
     method := Some {| Method.email := Some true |};
     db := true;
     session := Some {| expiresIn := e |} |}.

Definition sample_auth : FineAuth :=
  {| config := sample_config None;
     sessionExpiresIn := Js.of_int 604800000 |}.

Definition sample_user : User :=
  {| User.id := "u1"; User.email := "a@b.com"; User.hashedPassword := "00:00";
     User.createdAt := Some 0%Z |}.

(** A session of [sample_user] that expires at 5000, well after the first
    reading of the sample clock. *)
Definition sample_session : Session :=
  {| Session.id := "abc"; Session.userId := "u1";
     Session.expiresAt := Some 5000%Z; Session.createdAt := Some 900%Z |}.

Definition world_with_session : World :=
  {| store :=
       add_session (@add_user Js.ascii_prototype empty_db sample_user)
         sample_session;
     runtime := sample_runtime |}.

(** The same session in a store that does not hold its user. *)
Definition world_with_orphan : World :=
  {| store := add_session empty_db sample_session;
     runtime := sample_runtime |}.

(** A session of [sample_user] that expired at 500. *)
Definition expired_session : Session :=
  {| Session.id := "old"; Session.userId := "u1";
     Session.expiresAt := Some 500%Z; Session.createdAt := Some 100%Z |}.

Definition world_with_expired : World :=
  {| store :=
       add_session (@add_user Js.ascii_prototype empty_db sample_user)
         expired_session;
     runtime := sample_runtime |}.

(** What [new FineAuth] builds from [expiresIn: 0], from [expiresIn: NaN],
    from [expiresIn: -5] and from [expiresIn: 1.5]. *)
Definition zero_ttl_auth : FineAuth :=
  {| config := sample_config (Some (DurationNumber (Js.of_int 0)));
     sessionExpiresIn := Js.of_int 604800000 |}.

Definition nan_ttl_auth : FineAuth :=
  {| config := sample_config (Some (DurationNumber Js.NaN));
     sessionExpiresIn := Js.of_int 604800000 |}.

Definition negative_ttl_auth : FineAuth :=
  {| config := sample_config (Some (DurationNumber (Js.of_int (-5))));
     sessionExpiresIn := Js.of_int (-5) |}.

(** The number 1.5: three halves of [Js.scale]. *)
Definition one_and_a_half : Js.Number := Js.Finite (3 * 2 ^ 1073).

Definition fractional_ttl_auth : FineAuth :=
  {| config := sample_config (Some (DurationNumber one_and_a_half));
     sessionExpiresIn := one_and_a_half |}.

(** A time to live so far below zero that [expiresAt] is not a date. *)
Definition far_negative_ttl_auth : FineAuth :=
  {| config :=
       sample_config (Some (DurationNumber (Js.of_int (-10000000000000000))));
     sessionExpiresIn := Js.of_int (-10000000000000000) |}.

(** Paths used to exercise the statements about paths. *)
Definition unknown_email_path : list (Step AppCall AppResp) :=
  [mkStep (Db (GetUserByEmail "nobody@example.com")) None].

Definition taken_email_path : list (Step AppCall AppResp) :=
  [mkStep (Db (GetUserByEmail "a@b.com")) (Some sample_user)].

Definition sample_validate_path : list (Step AppCall AppResp) :=
  [mkStep (Db (GetSession "abc")) (Some sample_session);
   mkStep (Sys DateNow) 1000%Z;
   mkStep (Db (GetUserById "u1")) (Some sample_user)].

(** Every character of [s] satisfies [p]. *)
Fixpoint all_chars (p : ascii -> bool) (s : string) : bool :=
  match s with
  | EmptyString => true
  | String c s' => p c && all_chars p s'
  end.

(** A lower-case hexadecimal digit, [0-9a-f]. *)
Definition is_lower_hex (c : ascii) : bool :=
  let n := N_of_ascii c in
  ((48 <=? n) && (n <=? 57) || (97 <=? n) && (n <=? 102))%N.

(** What [parseDuration] returns for the number [value] and the unit [u]:
    the products of its [switch]. *)
Definition in_milliseconds (value : Js.Number) (u : string) : Js.Number :=
  if String.eqb u "ms" then value
  else if String.eqb u "s" then (value * 1000)%num
  else if String.eqb u "m" then (value * 60 * 1000)%num
  else if String.eqb u "h" then (value * 60 * 60 * 1000)%num
  else if String.eqb u "d" then (value * 24 * 60 * 60 * 1000)%num
  else Js.NaN.

(** The number of milliseconds in one unit of a duration literal. *)
Definition duration_factor (u : string) : Z :=
  if String.eqb u "ms" then 1
  else if String.eqb u "s" then 1000
  else if String.eqb u "m" then 60000
  else if String.eqb u "h" then 3600000
  else if String.eqb u "d" then 86400000
  else 0.

(** The store after [deleteUserSessions(uid)]. *)
Definition remove_user_sessions (d : MemoryDb) (uid : string) : MemoryDb :=
  {| users := users d;
     sessions := filter (fun kv => Session.userId kv.2 ≠ uid) (sessions d);
     emailIndex := emailIndex d |}.

(** The shape of the stores that the adapter builds: every user and every
    session is filed under its own id, and every entry of the email index
    points at a stored user. *)
Definition well_formed (d : MemoryDb) : Prop :=
  (forall k u, users d !! k = Some u -> User.id u = k)
  /\ (forall k s, sessions d !! k = Some s -> Session.id s = k)
  /\ (forall e uid, emailIndex d !! e = Some uid -> is_Some (users d !! uid)).

(** A user whose stored hash is the one [hashPassword] writes for
    ["pw123456"] with [sample_scrypt] and the first sixteen bytes of the
    sample entropy as salt. *)
Definition sample_member : User :=
  {| User.id := "u7"; User.email := "a@b.com";
     User.hashedPassword :=
       "000102030405060708090a0b0c0d0e0f:7077313233343536000102030405060708090a0b0c0d0e0f00000000000000000000000000000000000000000000000000000000000000000000000000000000";
     User.createdAt := Some 0%Z |}.

Definition world_with_member : World :=
  {| store := @add_user Js.ascii_prototype empty_db sample_member;
     runtime := sample_runtime |}.

(** The calls of [validateSession "old"] when the adapter answers with the
    expired session, and of a successful [signIn] of [sample_member]. *)
Definition sample_expired_path : list (Step AppCall AppResp) :=
  [mkStep (Db (GetSession "old")) (Some expired_session);
   mkStep (Sys DateNow) 1000%Z;
   mkStep (Db (DeleteSession "old")) tt].

Definition sample_signin_path : list (Step AppCall AppResp) :=
  [mkStep (Db (GetUserByEmail "a@b.com")) (Some sample_member);
   mkStep (Sys (RandomBytes 32)) [x00];
   mkStep (Sys DateNow) 1000%Z;
   mkStep (Db (CreateSession "00" "u7" (Some 604801000%Z))) sample_session].

(** * Properties *)

(** ** Strings and buffers *)

Lemma split_no_sep (c : ascii) (s : string) :
  Js.occurs c s = false -> Js.split c s = [s].
Proof.
  induction s as [|d s IH]; simpl; [reflexivity|].
  intros H. apply orb_false_elim in H as [Hd Hs].
  rewrite Hd, (IH Hs). reflexivity.
Qed.

Lemma split_app_sep (c : ascii) (a b : string) :
  Js.occurs c a = false ->
  Js.split c (a +:+ String c b) = a :: Js.split c b.
Proof.
  induction a as [|d a IH]; simpl; intros H.
  - rewrite Ascii.eqb_refl. reflexivity.
  - apply orb_false_elim in H as [Hd Ha].
    rewrite Hd, (IH Ha). reflexivity.
Qed.

Lemma split_not_nil (c : ascii) (s : string) : Js.split c s <> [].
Proof.
  induction s as [|d s IH]; simpl; [discriminate|].
  destruct (Ascii.eqb d c); [discriminate|].
  destruct (Js.split c s); [contradiction | discriminate].
Qed.

Lemma split_cons_length (c d : ascii) (s : string) :
  List.length (Js.split c (String d s)) =
  if Ascii.eqb d c then S (List.length (Js.split c s))
  else List.length (Js.split c s).
Proof.
  simpl. destruct (Ascii.eqb d c); [reflexivity|].
  pose proof (split_not_nil c s) as N.
  destruct (Js.split c s); [contradiction | reflexivity].
Qed.

Lemma split_length_app (c : ascii) (a b : string) :
  List.length (Js.split c (a +:+ String c b))
  = List.length (Js.split c a) + List.length (Js.split c b).
Proof.
  induction a as [|d a IH].
  - simpl. rewrite Ascii.eqb_refl. reflexivity.
  - change (String d a +:+ String c b) with (String d (a +:+ String c b)).
    rewrite !split_cons_length, IH.
    destruct (Ascii.eqb d c); reflexivity.
Qed.

Lemma split_length_occurs (c : ascii) (s : string) :
  Js.occurs c s = true -> 2 <= List.length (Js.split c s).
Proof.
  induction s as [|d s IH]; [discriminate|].
  rewrite split_cons_length. simpl.
  destruct (Ascii.eqb d c); simpl.
  - intros _. pose proof (split_not_nil c s) as N.
    destruct (Js.split c s); [contradiction | simpl; lia].
  - exact IH.
Qed.

Lemma falsy_false (s : string) : Js.falsy s = false <-> s <> EmptyString.
Proof. destruct s; simpl; split; congruence. Qed.

Lemma occurs_app (c : ascii) (a b : string) :
  Js.occurs c (a +:+ b) = Js.occurs c a || Js.occurs c b.
Proof.
  induction a as [|d a IH]; simpl; [reflexivity|].
  rewrite IH. apply orb_assoc.
Qed.

Lemma hex_of_byte_no_colon (b : byte) :
  Js.occurs ":" (Js.hex_of_byte b) = false.
Proof. destruct b; reflexivity. Qed.

Lemma toString_hex_no_colon (buf : list byte) :
  Js.occurs ":" (Js.toString_hex buf) = false.
Proof.
  induction buf as [|b buf IH]; [reflexivity|].
  cbn [Js.toString_hex].
  rewrite occurs_app, hex_of_byte_no_colon, IH. reflexivity.
Qed.

Lemma toString_hex_nonempty (buf : list byte) :
  buf <> [] -> Js.falsy (Js.toString_hex buf) = false.
Proof. destruct buf as [|b buf]; [congruence|]. reflexivity. Qed.

Lemma Buffer_from_hex_cons (b : byte) (rest : string) :
  Js.Buffer_from_hex (Js.hex_of_byte b +:+ rest) = b :: Js.Buffer_from_hex rest.
Proof. destruct b; reflexivity. Qed.

Lemma Buffer_from_hex_toString (buf : list byte) :
  Js.Buffer_from_hex (Js.toString_hex buf) = buf.
Proof.
  induction buf as [|b buf IH]; [reflexivity|].
  simpl Js.toString_hex. rewrite Buffer_from_hex_cons, IH. reflexivity.
Qed.

(** ** The credential hasher *)

Section Hasher.

Variable scrypt : string -> list byte -> nat -> Result (list byte).

(** C7: [verifyPassword] answers with a boolean and lets no exception out.
    It answers [false] when the split on [":"] is not two non-empty parts,
    when the [try] block throws for any reason, when [scrypt] rejects, and
    when the stored key and the derived key differ in length. *)
Theorem verifyPassword_faults_are_false (password storedHash : string) :
  let parts := Js.split ":" storedHash in
  let salt := Js.Buffer_from_hex (nth 0 parts EmptyString) in
  let storedKey := Js.Buffer_from_hex (nth 1 parts EmptyString) in
  (List.length parts <> 2 \/ nth 0 parts EmptyString = EmptyString
     \/ nth 1 parts EmptyString = EmptyString ->
   verifyPassword scrypt password storedHash = false)
  /\ (forall x, verifyPassword_try scrypt password storedHash = Thrown x ->
      verifyPassword scrypt password storedHash = false)
  /\ (forall x, scrypt password salt 64 = Thrown x ->
      verifyPassword scrypt password storedHash = false)
  /\ (forall derivedKey, scrypt password salt 64 = Ok derivedKey ->
      List.length storedKey <> List.length derivedKey ->
      verifyPassword scrypt password storedHash = false).
Proof.
  intros parts salt storedKey.
  unfold verifyPassword, verifyPassword_try.
  fold parts. cbv zeta. fold salt. fold storedKey.
  repeat split.
  - intros H.
    destruct (negb (Nat.eqb (List.length parts) 2)) eqn:Hlen; [reflexivity|].
    apply negb_false_iff, Nat.eqb_eq in Hlen.
    destruct H as [H | [H | H]]; [contradiction | |]; rewrite H; simpl;
      [| rewrite orb_true_r]; reflexivity.
  - intros x ->. reflexivity.
  - intros x Hx. rewrite Hx.
    destruct (_ || _ || _); reflexivity.
  - intros key Hkey Hne. rewrite Hkey.
    destruct (_ || _ || _); [reflexivity|].
    unfold rbind, timingSafeEqual.
    apply Nat.eqb_neq in Hne. rewrite Hne. reflexivity.
Qed.

End Hasher.

Lemma verifyPassword_faults_are_false_witness :
  verifyPassword sample_scrypt "pw" "no-delimiter" = false
  /\ verifyPassword failing_scrypt "pw" "00ff:abcd" = false
  /\ verifyPassword sample_scrypt "pw" "00ff:abcd" = false.
Proof.
  split; [|split].
  - apply (proj1 (verifyPassword_faults_are_false sample_scrypt "pw"
                    "no-delimiter")).
    left. simpl. lia.
  - apply (proj1 (proj2 (proj2
             (verifyPassword_faults_are_false failing_scrypt "pw" "00ff:abcd")))
             (Node "ERR_CRYPTO_SCRYPT_INVALID_PARAMETER")).
    reflexivity.
  - apply (proj2 (proj2 (proj2
             (verifyPassword_faults_are_false sample_scrypt "pw" "00ff:abcd")))
             (firstn 64
                (list_byte_of_string "pw" ++ [x00; xff] ++ repeat x00 64))).
    + reflexivity.
    + simpl. lia.
Defined.

(** ** The session token codec *)

Lemma b64url_char_not_dot (n : N) : Js.b64url_char n <> "."%char.
Proof.
  unfold Js.b64url_char.
  assert (E : forall m, (m < 256)%N -> ascii_of_N m = "."%char -> m = 46%N).
  { intros m Hm H. apply (f_equal N_of_ascii) in H.
    rewrite N_ascii_embedding in H by exact Hm. exact H. }
  destruct (N.ltb_spec n 26) as [L1|L1]; [intros H; apply E in H; lia|].
  destruct (N.ltb_spec n 52) as [L2|L2]; [intros H; apply E in H; lia|].
  destruct (N.ltb_spec n 62) as [L3|L3]; [intros H; apply E in H; lia|].
  destruct (n =? 62)%N; discriminate.
Qed.

Lemma occurs_cons_ne (c d : ascii) (s : string) :
  d <> c -> Js.occurs c (String d s) = Js.occurs c s.
Proof.
  intros H. simpl. apply Ascii.eqb_neq in H. rewrite H. reflexivity.
Qed.

Lemma base64url_no_dot_upto (n : nat) (buf : list byte) :
  List.length buf <= n -> Js.occurs "." (Js.toString_base64url buf) = false.
Proof.
  revert buf. induction n as [n IH] using lt_wf_ind. intros buf Hn.
  destruct buf as [|a [|b [|c rest]]]; cbn [Js.toString_base64url];
    repeat (rewrite occurs_cons_ne by apply b64url_char_not_dot);
    try reflexivity.
  apply (IH (List.length rest)); simpl in Hn; lia.
Qed.

Lemma base64url_no_dot (buf : list byte) :
  Js.occurs "." (Js.toString_base64url buf) = false.
Proof. apply (base64url_no_dot_upto (List.length buf)). lia. Qed.

Lemma base64url_nonempty (buf : list byte) :
  buf <> [] -> Js.falsy (Js.toString_base64url buf) = false.
Proof.
  destruct buf as [|a [|b [|c rest]]]; [congruence | | |]; reflexivity.
Qed.

Section Codec.

Variable hmac_sha256 : string -> string -> list byte.

(** HMAC-SHA256 digests are 32 bytes long. *)
Hypothesis digest_length :
  forall key data, List.length (hmac_sha256 key data) = 32.

(** C3, as amended: for a session id that is not empty and holds no ".",
    and for every secret, verifying the signed token gives the id back;
    for the empty id and for an id that holds a ".", the signed token is
    rejected. *)
Theorem verify_sign_roundtrip (s k : string) :
  (s <> EmptyString -> Js.occurs "." s = false ->
   verifySessionId hmac_sha256 (signSessionId hmac_sha256 s k) k = Ok (Some s))
  /\ (s = EmptyString \/ Js.occurs "." s = true ->
      verifySessionId hmac_sha256 (signSessionId hmac_sha256 s k) k = Ok None).
Proof.
  unfold verifySessionId, signSessionId. cbv zeta.
  set (sig := Js.toString_base64url (hmac_sha256 k s)).
  change (s +:+ "." +:+ sig) with (s +:+ String "." sig).
  assert (Hsig : Js.falsy sig = false).
  { apply base64url_nonempty. intros E.
    pose proof (digest_length k s) as L. rewrite E in L. discriminate. }
  split.
  - intros Hs Hdot.
    rewrite (split_app_sep "." s sig Hdot).
    rewrite (split_no_sep "." sig) by apply base64url_no_dot.
    cbn [List.length nth Nat.eqb negb].
    apply falsy_false in Hs. rewrite Hs, Hsig. cbn [orb].
    fold sig. rewrite Nat.eqb_refl. cbn [negb].
    unfold timingSafeEqual. rewrite Nat.eqb_refl. cbn [rbind].
    rewrite bool_decide_eq_true_2 by reflexivity. reflexivity.
  - intros [-> | Hdot].
    + change (Js.split "." (EmptyString +:+ String "." sig))
        with (EmptyString :: Js.split "." sig).
      rewrite (split_no_sep "." sig) by apply base64url_no_dot.
      reflexivity.
    + pose proof (split_length_app "." s sig) as L.
      pose proof (split_length_occurs "." s Hdot) as L2.
      rewrite (split_no_sep "." sig) in L by apply base64url_no_dot.
      cbn [List.length] in L.
      destruct (Nat.eqb_spec
                  (List.length (Js.split "." (s +:+ String "." sig))) 2)
        as [E|_]; [lia | reflexivity].
Qed.

End Codec.

(** C3, as stated, fails: the token of the empty session id, and the token
    of a session id that holds a ".", are both rejected. *)
Lemma roundtrip_fails_on_empty_or_dotted_id :
  verifySessionId sample_hmac (signSessionId sample_hmac EmptyString "k") "k"
  = Ok None
  /\ verifySessionId sample_hmac (signSessionId sample_hmac "a.b" "k") "k"
     = Ok None.
Proof. split; reflexivity. Qed.

Lemma verify_sign_roundtrip_witness :
  verifySessionId sample_hmac (signSessionId sample_hmac "abc" "k") "k"
  = Ok (Some "abc")
  /\ verifySessionId sample_hmac (signSessionId sample_hmac "a.b" "k") "k"
     = Ok None.
Proof.
  assert (L : forall key data, List.length (sample_hmac key data) = 32).
  { intros key data. unfold sample_hmac.
    rewrite length_take, !length_app, repeat_length. lia. }
  split.
  - apply (proj1 (verify_sign_roundtrip sample_hmac L "abc" "k")).
    + discriminate.
    + reflexivity.
  - apply (proj2 (verify_sign_roundtrip sample_hmac L "a.b" "k")).
    right. reflexivity.
Defined.

(** ** Paths of programs *)

Lemma path_inv {E R A} (p : Prog E R A) t o :
  path p t o ->
  match p with
  | Ret a => t = [] /\ o = Ok a
  | Throw x => t = [] /\ o = Thrown x
  | Vis e k => exists r t', t = mkStep e r :: t' /\ path (k r) t' o
  end.
Proof. intros H. destruct H; eauto. Qed.

Scheme Rewriting for unit.

(** Take one step of a path hypothesis apart. *)
Ltac path_step H :=
  apply path_inv in H; cbn in H;
  first [ destruct H as [-> ->]
        | let r := fresh "r" in
          let t := fresh "t" in
          destruct H as (r & t & -> & H) ].

(** ** Numbers

    Rounding to nearest keeps the order and leaves a double as it is; the
    integers below 2^53 in absolute value are doubles, and so are their
    products when these stay below 2^53. *)

Section Numbers.

Local Open Scope Z_scope.

Lemma dne_bounds m s :
  0 <= m -> 0 <= s ->
  m / 2 ^ s <= Js.div_nearest_even m s <= m / 2 ^ s + 1.
Proof.
  intros Hm Hs. unfold Js.div_nearest_even. cbv zeta.
  destruct (_ <? _); [lia|]. destruct (_ <? _); [lia|].
  destruct (Z.even _); lia.
Qed.

Lemma dne_mono m m' s :
  0 <= m <= m' -> 0 <= s ->
  Js.div_nearest_even m s <= Js.div_nearest_even m' s.
Proof.
  intros Hm Hs.
  assert (P : 0 < 2 ^ s) by (apply Z.pow_pos_nonneg; lia).
  pose proof (Z.div_le_mono m m' (2 ^ s) P ltac:(lia)) as Hq.
  destruct (Z.eq_dec (m / 2 ^ s) (m' / 2 ^ s)) as [E|N].
  - unfold Js.div_nearest_even. cbv zeta. rewrite <- E.
    pose proof (Z.div_mod m (2 ^ s) ltac:(lia)) as D.
    pose proof (Z.div_mod m' (2 ^ s) ltac:(lia)) as D'.
    rewrite <- E in D'.
    assert (R : m mod 2 ^ s <= m' mod 2 ^ s) by lia.
    destruct (2 * (m mod 2 ^ s) <? 2 ^ s) eqn:A;
      destruct (2 * (m' mod 2 ^ s) <? 2 ^ s) eqn:A';
      destruct (2 ^ s <? 2 * (m mod 2 ^ s)) eqn:B;
      destruct (2 ^ s <? 2 * (m' mod 2 ^ s)) eqn:B';
      destruct (Z.even (m / 2 ^ s)); lia.
  - pose proof (dne_bounds m s ltac:(lia) Hs).
    pose proof (dne_bounds m' s ltac:(lia) Hs). lia.
Qed.

Lemma dne_exact m s :
  0 <= s -> m mod 2 ^ s = 0 -> Js.div_nearest_even m s = m / 2 ^ s.
Proof.
  intros Hs H. unfold Js.div_nearest_even. cbv zeta. rewrite H.
  assert (P : 0 < 2 ^ s) by (apply Z.pow_pos_nonneg; lia).
  destruct (2 * 0 <? 2 ^ s) eqn:A; [reflexivity | lia].
Qed.

Lemma round_magnitude_nonneg m f :
  0 <= m -> 0 <= f -> 0 <= Js.round_magnitude m f.
Proof.
  intros Hm Hf. unfold Js.round_magnitude. cbv zeta.
  set (s := Z.max f (Z.log2 m - 52)).
  assert (0 <= s) by lia.
  pose proof (dne_bounds m s Hm ltac:(lia)).
  assert (0 <= m / 2 ^ s) by (apply Z.div_pos; [lia | apply Z.pow_pos_nonneg; lia]).
  apply Z.mul_nonneg_nonneg; [lia|]. apply Z.pow_nonneg. lia.
Qed.

Lemma round_magnitude_mono m m' :
  0 <= m <= m' -> Js.round_magnitude m 0 <= Js.round_magnitude m' 0.
Proof.
  intros Hm.
  destruct (Z.eq_dec m 0) as [->|Nz].
  { change (Js.round_magnitude 0 0) with 0.
    apply (round_magnitude_nonneg m' 0); lia. }
  unfold Js.round_magnitude. cbv zeta. rewrite !Z.sub_0_r.
  assert (L : Z.log2 m <= Z.log2 m') by (apply Z.log2_le_mono; lia).
  set (s := Z.max 0 (Z.log2 m - 52)).
  set (s' := Z.max 0 (Z.log2 m' - 52)).
  assert (Hs : 0 <= s) by lia. assert (Hs' : 0 <= s') by lia.
  destruct (Z.eq_dec s s') as [E|N].
  - rewrite <- E. apply Z.mul_le_mono_nonneg_r.
    + apply Z.pow_nonneg. lia.
    + apply dne_mono; lia.
  - assert (Hlt : s < s') by lia.
    assert (Es' : s' = Z.log2 m' - 52) by lia.
    assert (Ll : Z.log2 m < Z.log2 m') by lia.
    (* upper bound for m *)
    pose proof (Z.log2_spec m ltac:(lia)) as [_ Hu].
    pose proof (Z.log2_nonneg m) as Ln.
    assert (U : Js.div_nearest_even m s * 2 ^ s <= 2 ^ (Z.succ (Z.log2 m))).
    { pose proof (dne_bounds m s ltac:(lia) Hs) as [_ B].
      assert (Hsle : s <= Z.succ (Z.log2 m)) by lia.
      assert (Ep : 2 ^ Z.succ (Z.log2 m)
                   = 2 ^ (Z.succ (Z.log2 m) - s) * 2 ^ s).
      { rewrite <- Z.pow_add_r by lia. f_equal. lia. }
      assert (Q : m / 2 ^ s < 2 ^ (Z.succ (Z.log2 m) - s)).
      { apply Z.div_lt_upper_bound; [apply Z.pow_pos_nonneg; lia|].
        rewrite Z.mul_comm, <- Ep. exact Hu. }
      rewrite Ep. apply Z.mul_le_mono_nonneg_r; [apply Z.pow_nonneg; lia | lia]. }
    pose proof (Z.log2_spec m' ltac:(lia)) as [Hl' _].
    assert (Lo : 2 ^ Z.log2 m' <= Js.div_nearest_even m' s' * 2 ^ s').
    { pose proof (dne_bounds m' s' ltac:(lia) Hs') as [B _].
      assert (Ep : 2 ^ Z.log2 m' = 2 ^ (Z.log2 m' - s') * 2 ^ s').
      { rewrite <- Z.pow_add_r by lia. f_equal. lia. }
      assert (Q : 2 ^ (Z.log2 m' - s') <= m' / 2 ^ s').
      { apply Z.div_le_lower_bound; [apply Z.pow_pos_nonneg; lia|].
        rewrite Z.mul_comm, <- Ep. exact Hl'. }
      rewrite Ep. apply Z.mul_le_mono_nonneg_r; [apply Z.pow_nonneg; lia | lia]. }
    assert (M : 2 ^ Z.succ (Z.log2 m) <= 2 ^ Z.log2 m').
    { apply Z.pow_le_mono_r; lia. }
    lia.
Qed.

Lemma round_magnitude_exact m f :
  0 <= m -> 0 <= f ->
  m mod 2 ^ (Z.max f (Z.log2 m - 52)) = 0 ->
  Js.round_magnitude m f = m / 2 ^ f.
Proof.
  intros Hm Hf H. unfold Js.round_magnitude. cbv zeta.
  set (s := Z.max f (Z.log2 m - 52)) in *.
  assert (Hs : f <= s) by lia.
  rewrite dne_exact by (lia || exact H).
  assert (P : 0 < 2 ^ s) by (apply Z.pow_pos_nonneg; lia).
  assert (Pf : 0 < 2 ^ f) by (apply Z.pow_pos_nonneg; lia).
  pose proof (Z.div_mod m (2 ^ s) ltac:(lia)) as D. rewrite H in D.
  assert (Ep : 2 ^ s = 2 ^ (s - f) * 2 ^ f).
  { rewrite <- Z.pow_add_r by lia. f_equal. lia. }
  set (q := m / 2 ^ s) in *. symmetry.
  transitivity (q * 2 ^ (s - f) * 2 ^ f / 2 ^ f).
  - f_equal. rewrite D, Ep. ring.
  - apply Z.div_mul. lia.
Qed.

Lemma sgn_times_abs z k : Z.sgn z * 1 * (Z.abs z * k) = z * k.
Proof. rewrite <- (Z.abs_sgn z) at 3. ring. Qed.

(** Integers below 2^53 in absolute value are doubles. *)
Lemma of_int_exact z :
  Z.abs z < 2 ^ 53 -> Js.of_int z = Js.Finite (z * Js.scale).
Proof.
  intros Hz. unfold Js.of_int, Js.round. cbv zeta.
  assert (Sc : 0 < Js.scale) by (apply Z.pow_pos_nonneg; lia).
  assert (Ea : Z.abs (z * Js.scale) = Z.abs z * Js.scale).
  { rewrite Z.abs_mul, (Z.abs_eq Js.scale) by lia. reflexivity. }
  rewrite Ea.
  assert (Er : Js.round_magnitude (Z.abs z * Js.scale) 0 = Z.abs z * Js.scale).
  { destruct (Z.eq_dec z 0) as [->|Nz]; [reflexivity|].
    rewrite round_magnitude_exact; try lia.
    - rewrite Z.pow_0_r, Z.div_1_r. reflexivity.
    - unfold Js.scale. rewrite Z.log2_mul_pow2 by lia.
      pose proof (Z.log2_lt_pow2 (Z.abs z) 53 ltac:(lia)) as [L _].
      specialize (L Hz). pose proof (Z.log2_nonneg (Z.abs z)) as Ln.
      set (s := Z.max 0 (1074 + Z.log2 (Z.abs z) - 52)).
      assert (Es : 0 <= s <= 1074) by lia.
      assert (Ep : 2 ^ 1074 = 2 ^ (1074 - s) * 2 ^ s).
      { rewrite <- Z.pow_add_r by lia. f_equal. lia. }
      rewrite Ep, Z.mul_assoc. apply Z.mod_mul.
      apply Z.pow_nonzero; lia. }
  rewrite Er.
  assert (Hlt : Z.abs z * Js.scale < 2 ^ 2098).
  { change (2 ^ 2098) with (2 ^ 1024 * Js.scale).
    apply Z.mul_lt_mono_pos_r; [exact Sc|].
    assert (2 ^ 53 < 2 ^ 1024) by (apply Z.pow_lt_mono_r; lia). lia. }
  apply Z.leb_gt in Hlt. rewrite Hlt. f_equal.
  rewrite Z.sgn_mul, (Z.sgn_pos Js.scale) by lia.
  apply sgn_times_abs.
Qed.

Lemma round_finite m r :
  Js.round m 0 = Js.Finite r ->
  r = Z.sgn m * Js.round_magnitude (Z.abs m) 0.
Proof.
  unfold Js.round. cbv zeta. destruct (_ <=? _); congruence.
Qed.

(** Rounding does not cross a double: what is at most an integer below
    2^53 is rounded to at most that integer. *)
Lemma round_le_int x b r :
  Z.abs b < 2 ^ 53 -> x <= b * Js.scale ->
  Js.round x 0 = Js.Finite r -> r <= b * Js.scale.
Proof.
  intros Hb Hx Hr. apply round_finite in Hr. subst r.
  pose proof (of_int_exact b Hb) as E. unfold Js.of_int in E.
  apply round_finite in E. set (B := b * Js.scale) in *.
  destruct (Z.lt_trichotomy x 0) as [Hn|[->|Hp]].
  - rewrite (Z.sgn_neg x Hn), (Z.abs_neq x) by lia.
    destruct (Z.le_gt_cases 0 B) as [HB|HB].
    + pose proof (round_magnitude_nonneg (- x) 0 ltac:(lia) ltac:(lia)). lia.
    + rewrite (Z.sgn_neg B HB), (Z.abs_neq B) in E by lia.
      pose proof (round_magnitude_mono (- B) (- x) ltac:(lia)). lia.
  - cbn. pose proof (Z.sgn_nonneg B) as [S _].
    destruct (Z.le_gt_cases 0 B) as [HB|HB]; [lia|]. lia.
  - rewrite (Z.sgn_pos x Hp), (Z.abs_eq x) by lia.
    assert (HB : 0 < B) by lia.
    rewrite (Z.sgn_pos B HB), (Z.abs_eq B) in E by lia.
    pose proof (round_magnitude_mono x B ltac:(lia)). lia.
Qed.

Lemma mul_int_exact a b :
  Z.abs (a * b) < 2 ^ 53 ->
  Js.mul (Js.Finite (a * Js.scale)) (Js.Finite (b * Js.scale))
  = Js.Finite (a * b * Js.scale).
Proof.
  intros H. unfold Js.mul, Js.round. cbv zeta.
  assert (Sc : 0 < Js.scale) by (apply Z.pow_pos_nonneg; lia).
  replace (a * Js.scale * (b * Js.scale)) with (a * b * (Js.scale * Js.scale))
    by ring.
  set (c := a * b) in *.
  assert (Ea : Z.abs (c * (Js.scale * Js.scale)) = Z.abs c * 2 ^ 2148).
  { rewrite Z.abs_mul. f_equal. }
  rewrite Ea.
  assert (Er : Js.round_magnitude (Z.abs c * 2 ^ 2148) 1074
               = Z.abs c * Js.scale).
  { destruct (Z.eq_dec c 0) as [->|Nz]; [reflexivity|].
    rewrite round_magnitude_exact; try lia.
    - change (2 ^ 2148) with (Js.scale * 2 ^ 1074).
      rewrite Z.mul_assoc, Z.div_mul by lia. reflexivity.
    - rewrite Z.log2_mul_pow2 by lia.
      pose proof (Z.log2_lt_pow2 (Z.abs c) 53 ltac:(lia)) as [L _].
      specialize (L H). pose proof (Z.log2_nonneg (Z.abs c)) as Ln.
      set (s := Z.max 1074 (2148 + Z.log2 (Z.abs c) - 52)).
      assert (Es : 0 <= s <= 2148) by lia.
      assert (Ep : 2 ^ 2148 = 2 ^ (2148 - s) * 2 ^ s).
      { rewrite <- Z.pow_add_r by lia. f_equal. lia. }
      rewrite Ep, Z.mul_assoc. apply Z.mod_mul.
      apply Z.pow_nonzero; lia. }
  rewrite Er.
  assert (Hlt : Z.abs c * Js.scale < 2 ^ 2098).
  { change (2 ^ 2098) with (2 ^ 1024 * Js.scale).
    apply Z.mul_lt_mono_pos_r; [exact Sc|].
    assert (2 ^ 53 < 2 ^ 1024) by (apply Z.pow_lt_mono_r; lia). lia. }
  apply Z.leb_gt in Hlt. rewrite Hlt. f_equal.
  assert (P : 0 < Js.scale * Js.scale) by lia.
  rewrite Z.sgn_mul, (Z.sgn_pos _ P).
  apply sgn_times_abs.
Qed.

End Numbers.

(** ** Running against the in-memory adapter, one call at a time *)

Section Steps.

Context {prototype : Js.StringPrototype}.

Lemma run_Ret {A} (a : A) w : run (Ret a) w = (Ok a, w).
Proof. reflexivity. Qed.

Lemma run_Throw {A} x w : run (Throw x : AppProg A) w = (Thrown x, w).
Proof. reflexivity. Qed.

Lemma run_DateNow {A} (k : Z -> AppProg A) w :
  run (Vis (Sys DateNow) k) w
  = run (k (clock (runtime w) 0)) (with_runtime w (after_tick (runtime w))).
Proof. reflexivity. Qed.

Lemma run_RandomBytes {A} n (k : list byte -> AppProg A) w :
  run (Vis (Sys (RandomBytes n)) k) w
  = run (k (draw n (runtime w))) (with_runtime w (after_draw n (runtime w))).
Proof. reflexivity. Qed.

Lemma run_GetUserByEmail {A} email (k : option User -> AppProg A) w :
  run (Vis (Db (GetUserByEmail email)) k) w
  = run (k (find_by_email (store w) email)) w.
Proof.
  cbn. unfold Memory.getUserByEmail, find_by_email, mbind, st_bind, get_store.
  destruct (emailIndex (store w) !! _) as [uid|]; [|reflexivity].
  destruct (Js.falsy uid); reflexivity.
Qed.

Lemma run_GetUserById {A} id (k : option User -> AppProg A) w :
  run (Vis (Db (GetUserById id)) k) w = run (k (users (store w) !! id)) w.
Proof. reflexivity. Qed.

Lemma run_GetSession {A} id (k : option Session -> AppProg A) w :
  run (Vis (Db (GetSession id)) k) w = run (k (sessions (store w) !! id)) w.
Proof. reflexivity. Qed.

Lemma run_DeleteSession {A} id (k : unit -> AppProg A) w :
  run (Vis (Db (DeleteSession id)) k) w
  = run (k tt) (with_store w (remove_session (store w) id)).
Proof. reflexivity. Qed.

Lemma run_CreateUser {A} email hashed (k : User -> AppProg A) w :
  let rt := runtime w in
  let user :=
    {| User.id := Js.toString_hex (draw 16 rt); User.email := email;
       User.hashedPassword := hashed; User.createdAt := Some (clock rt 0) |} in
  run (Vis (Db (CreateUser email hashed)) k) w
  = run (k user)
        {| store := add_user (store w) user;
           runtime := after_tick (after_draw 16 rt) |}.
Proof. reflexivity. Qed.

Lemma run_CreateSession {A} id uid expires (k : Session -> AppProg A) w :
  let rt := runtime w in
  let session :=
    {| Session.id := id; Session.userId := uid; Session.expiresAt := expires;
       Session.createdAt := Some (clock rt 0) |} in
  run (Vis (Db (CreateSession id uid expires)) k) w
  = run (k session)
        {| store := add_session (store w) session; runtime := after_tick rt |}.
Proof. reflexivity. Qed.

(** No call to the in-memory adapter or to the runtime throws, and only the
    writes change the store. *)
Lemma app_handle_ok (c : AppCall) (w : World) :
  exists r w1, app_handle c w = (Ok r, w1)
               /\ (is_write c = false -> store w1 = store w).
Proof.
  destruct c as [[|n]|[e h|e|i|i u x|i|i|u]]; cbn;
    try (eexists _, _; split; [reflexivity|]; intros W;
         first [discriminate W | reflexivity]).
  unfold Memory.getUserByEmail, mbind, st_bind, get_store.
  destruct (emailIndex (store w) !! _) as [uid|];
    [destruct (Js.falsy uid)|]; eexists _, _; split; reflexivity.
Qed.

(** A run follows one of the paths of the program, and when that path has
    no write, the store is left as it was. *)
Lemma run_has_path {A} (p : AppProg A) (w : World) :
  exists t, path p t (fst (run p w))
            /\ (Forall (fun s => is_write (step_call s) = false) t ->
                store (snd (run p w)) = store w).
Proof.
  revert w. induction p as [a|x|c k IH]; intros w.
  - exists []. split; [constructor | reflexivity].
  - exists []. split; [constructor | reflexivity].
  - destruct (app_handle_ok c w) as (r & w1 & E & Hst).
    destruct (IH r w1) as (t & Hp & Hs).
    assert (R : run (Vis c k) w = run (k r) w1).
    { cbn. unfold mbind, st_bind. rewrite E. reflexivity. }
    exists (mkStep c r :: t). rewrite R. split.
    + constructor. exact Hp.
    + intros F. inversion F as [|s l Hc Hl]; subst.
      rewrite (Hs Hl). apply Hst. exact Hc.
Qed.

Lemma find_created (d : MemoryDb) (u : User) (email : string) :
  User.email u = email ->
  Js.falsy (User.id u) = false ->
  find_by_email (add_user d u) email = Some u.
Proof.
  intros He Hid. unfold find_by_email, add_user. cbn. rewrite He.
  rewrite lookup_insert_eq, Hid. apply lookup_insert_eq.
Qed.

Lemma find_add_session (d : MemoryDb) (s : Session) (email : string) :
  find_by_email (add_session d s) email = find_by_email d email.
Proof. reflexivity. Qed.

End Steps.

(** ** The operations against the in-memory adapter *)

Section Runs.

Context {prototype : Js.StringPrototype}.

Variable scrypt : string -> list byte -> nat -> Result (list byte).

#[local] Arguments run : simpl never.
#[local] Arguments draw : simpl never.

Lemma run_signUp_exists
  (this : FineAuth) (email password : string) (w : World) u :
  find_by_email (store w) (canonical email) = Some u ->
  run (signUp scrypt this email password) w
  = (Thrown (Lib UserAlreadyExistsError), w).
Proof.
  intros Hf. unfold signUp. cbn.
  rewrite run_GetUserByEmail. fold (canonical email). rewrite Hf. reflexivity.
Qed.

Lemma run_signUp_kdf_fault
  (this : FineAuth) (email password : string) (w : World) x :
  find_by_email (store w) (canonical email) = None ->
  scrypt password (draw 16 (runtime w)) 64 = Thrown x ->
  run (signUp scrypt this email password) w
  = (Thrown x, with_runtime w (after_draw 16 (runtime w))).
Proof.
  intros Hf Hk. unfold signUp. cbn.
  rewrite run_GetUserByEmail. fold (canonical email). rewrite Hf. cbn.
  rewrite run_RandomBytes. cbn. rewrite Hk. reflexivity.
Qed.

Lemma run_signUp_ok
  (this : FineAuth) (email password : string) (w : World) key :
  find_by_email (store w) (canonical email) = None ->
  scrypt password (draw 16 (runtime w)) 64 = Ok key ->
  let user := created_user email key (runtime w) in
  let rt := after_create (runtime w) in
  let session := minted_session (sessionExpiresIn this) (User.id user) rt in
  run (signUp scrypt this email password) w
  = (Ok {| AuthResult.user := toSafeUser user; AuthResult.session := session |},
     {| store := add_session (add_user (store w) user) session;
        runtime := after_mint rt |}).
Proof.
  intros Hf Hk user rt session. unfold signUp. cbn.
  rewrite run_GetUserByEmail. fold (canonical email). rewrite Hf. cbn.
  rewrite run_RandomBytes. cbn. rewrite Hk. reflexivity.
Qed.

(** A successful [signUp], read backwards. *)
Lemma run_signUp_inv
  (this : FineAuth) (email password : string) (w w1 : World) r :
  run (signUp scrypt this email password) w = (Ok r, w1) ->
  exists key,
    find_by_email (store w) (canonical email) = None
    /\ scrypt password (draw 16 (runtime w)) 64 = Ok key
    /\ r = {| AuthResult.user :=
                toSafeUser (created_user email key (runtime w));
              AuthResult.session :=
                minted_session (sessionExpiresIn this)
                  (User.id (created_user email key (runtime w)))
                  (after_create (runtime w)) |}
    /\ w1 = {| store :=
                 add_session
                   (add_user (store w) (created_user email key (runtime w)))
                   (minted_session (sessionExpiresIn this)
                      (User.id (created_user email key (runtime w)))
                      (after_create (runtime w)));
               runtime := after_mint (after_create (runtime w)) |}.
Proof.
  intros H.
  destruct (find_by_email (store w) (canonical email)) as [u|] eqn:Hf.
  { rewrite (run_signUp_exists this email password w u Hf) in H. discriminate. }
  destruct (scrypt password (draw 16 (runtime w)) 64) as [key|x] eqn:Hk.
  - rewrite (run_signUp_ok this email password w key Hf Hk) in H.
    injection H as <- <-. exists key. repeat split; reflexivity.
  - rewrite (run_signUp_kdf_fault this email password w x Hf Hk) in H.
    discriminate.
Qed.

Lemma run_signIn_ok (this : FineAuth) (email password : string) (w : World) u :
  find_by_email (store w) (canonical email) = Some u ->
  verifyPassword scrypt password (User.hashedPassword u) = true ->
  let session :=
    minted_session (sessionExpiresIn this) (User.id u) (runtime w) in
  run (signIn scrypt this email password) w
  = (Ok {| AuthResult.user := toSafeUser u; AuthResult.session := session |},
     {| store := add_session (store w) session;
        runtime := after_mint (runtime w) |}).
Proof.
  intros Hf Hv session. unfold signIn. cbn.
  rewrite run_GetUserByEmail. fold (canonical email). rewrite Hf. cbn.
  rewrite Hv. reflexivity.
Qed.

(** A successful [signIn], read backwards. *)
Lemma run_signIn_inv
  (this : FineAuth) (email password : string) (w w1 : World) r :
  run (signIn scrypt this email password) w = (Ok r, w1) ->
  exists u,
    find_by_email (store w) (canonical email) = Some u
    /\ verifyPassword scrypt password (User.hashedPassword u) = true
    /\ r = {| AuthResult.user := toSafeUser u;
              AuthResult.session :=
                minted_session (sessionExpiresIn this) (User.id u) (runtime w) |}
    /\ w1 = {| store :=
                 add_session (store w)
                   (minted_session (sessionExpiresIn this) (User.id u)
                      (runtime w));
               runtime := after_mint (runtime w) |}.
Proof.
  intros H.
  destruct (find_by_email (store w) (canonical email)) as [u|] eqn:Hf.
  - destruct (verifyPassword scrypt password (User.hashedPassword u)) eqn:Hv.
    + rewrite (run_signIn_ok this email password w u Hf Hv) in H.
      exists u. split; [reflexivity|]. split; [exact Hv|].
      split; congruence.
    + exfalso. revert H. unfold signIn. cbn.
      rewrite run_GetUserByEmail. fold (canonical email). rewrite Hf. cbn.
      rewrite Hv. cbn. discriminate.
  - exfalso. revert H. unfold signIn. cbn.
    rewrite run_GetUserByEmail. fold (canonical email). rewrite Hf. cbn.
    discriminate.
Qed.

(** The hash written by [hashPassword] verifies against its password. *)
Lemma verify_hash_roundtrip (password : string) (salt key : list byte) :
  salt <> [] -> key <> [] ->
  scrypt password salt 64 = Ok key ->
  verifyPassword scrypt password
    (Js.toString_hex salt +:+ ":" +:+ Js.toString_hex key) = true.
Proof.
  intros Hsalt Hkey Hk. unfold verifyPassword, verifyPassword_try.
  change (Js.toString_hex salt +:+ ":" +:+ Js.toString_hex key)
    with (Js.toString_hex salt +:+ String ":" (Js.toString_hex key)).
  rewrite split_app_sep by apply toString_hex_no_colon.
  rewrite split_no_sep by apply toString_hex_no_colon.
  cbn [List.length nth Nat.eqb negb orb].
  rewrite !toString_hex_nonempty by assumption. cbn [orb].
  rewrite !Buffer_from_hex_toString, Hk. cbn [rbind].
  unfold timingSafeEqual. rewrite Nat.eqb_refl.
  rewrite bool_decide_eq_true_2 by reflexivity. reflexivity.
Qed.

Lemma run_validate_expired
  (this : FineAuth) (sessionId : string) (s : Session) (t : Z) (w : World) :
  sessions (store w) !! sessionId = Some s ->
  Session.expiresAt s = Some t ->
  (t < clock (runtime w) 0)%Z ->
  run (validateSession this sessionId) w
  = (Ok None,
     {| store := remove_session (store w) sessionId;
        runtime := after_tick (runtime w) |}).
Proof.
  intros Hs He Hlt. unfold validateSession. cbn.
  rewrite run_GetSession, Hs. cbn. rewrite run_DateNow, He. cbn.
  apply Z.ltb_lt in Hlt. rewrite Hlt.
  rewrite run_DeleteSession. reflexivity.
Qed.

Lemma run_validate_live
  (this : FineAuth) (sessionId : string) (s : Session) (w : World) u :
  sessions (store w) !! sessionId = Some s ->
  Js.Date_gt (Some (clock (runtime w) 0)) (Session.expiresAt s) = false ->
  users (store w) !! Session.userId s = Some u ->
  run (validateSession this sessionId) w
  = (Ok (Some {| Validated.user := toSafeUser u; Validated.session := s |}),
     {| store := store w; runtime := after_tick (runtime w) |}).
Proof.
  intros Hs He Hu. unfold validateSession. cbn.
  rewrite run_GetSession, Hs. cbn. rewrite run_DateNow.
  cbn in He. cbn. rewrite He.
  rewrite run_GetUserById. cbn. rewrite Hu. reflexivity.
Qed.

Lemma run_validate_orphan
  (this : FineAuth) (sessionId : string) (s : Session) (w : World) :
  sessions (store w) !! sessionId = Some s ->
  Js.Date_gt (Some (clock (runtime w) 0)) (Session.expiresAt s) = false ->
  users (store w) !! Session.userId s = None ->
  run (validateSession this sessionId) w
  = (Ok None,
     {| store := remove_session (store w) sessionId;
        runtime := after_tick (runtime w) |}).
Proof.
  intros Hs He Hu. unfold validateSession. cbn.
  rewrite run_GetSession, Hs. cbn. rewrite run_DateNow.
  cbn in He. cbn. rewrite He.
  rewrite run_GetUserById. cbn. rewrite Hu.
  rewrite run_DeleteSession. reflexivity.
Qed.

End Runs.

(** ** The session lifecycle *)

Section Lifecycle.

Context {prototype : Js.StringPrototype}.

Variable scrypt : string -> list byte -> nat -> Result (list byte).

(** C4: the two failures of [signIn] are the same exception.  Whatever the
    adapter, [signIn] first looks the canonical email up; when the answer is
    no user, and when it is a user whose password does not verify, the
    operation ends there by throwing [InvalidCredentialsError] with its
    default message.  Against the in-memory adapter both failures leave the
    same result and the same world. *)
Theorem signIn_failures_indistinguishable
  (this : FineAuth) (email password : string) :
  (forall t o, path (signIn scrypt this email password) t o ->
     exists found t',
       t = mkStep (Db (GetUserByEmail (canonical email))) found :: t'
       /\ (found = None ->
           t' = [] /\ o = Thrown (Lib InvalidCredentialsError))
       /\ (forall user, found = Some user ->
           verifyPassword scrypt password (User.hashedPassword user) = false ->
           t' = [] /\ o = Thrown (Lib InvalidCredentialsError)))
  /\ (forall w,
        find_by_email (store w) (canonical email) = None ->
        run (signIn scrypt this email password) w
        = (Thrown (Lib InvalidCredentialsError), w))
  /\ (forall w user,
        find_by_email (store w) (canonical email) = Some user ->
        verifyPassword scrypt password (User.hashedPassword user) = false ->
        run (signIn scrypt this email password) w
        = (Thrown (Lib InvalidCredentialsError), w)).
Proof.
  split; [|split].
  - intros t o H. unfold signIn in H. path_step H.
    exists r, t0. split; [reflexivity|]. split.
    + intros ->. path_step H. split; reflexivity.
    + intros user -> Hv. rewrite Hv in H. path_step H. split; reflexivity.
  - intros w Hf. unfold signIn. cbn.
    unfold Memory.getUserByEmail, mbind, st_bind, get_store. cbn.
    unfold find_by_email, canonical in Hf.
    destruct (emailIndex (store w) !! _) as [uid|]; [|reflexivity].
    destruct (Js.falsy uid); [reflexivity|]. cbn. rewrite Hf. reflexivity.
  - intros w user Hf Hv. unfold signIn. cbn.
    unfold Memory.getUserByEmail, mbind, st_bind, get_store. cbn.
    unfold find_by_email, canonical in Hf.
    destruct (emailIndex (store w) !! _) as [uid|]; [|discriminate].
    destruct (Js.falsy uid); [discriminate|]. cbn. rewrite Hf, Hv. reflexivity.
Qed.

(** C9: a failed [signUp] or [signIn] has written nothing.  On every path
    of [signUp] that ends by throwing [UserAlreadyExistsError], and on every
    path of [signIn] that ends by throwing [InvalidCredentialsError], no
    call made is one of the adapter's writes: the checks come before the
    first write.  Against the in-memory adapter the store after the failure
    is the store before it. *)
Theorem failed_auth_writes_nothing
  (this : FineAuth) (email password : string) :
  (forall t o, path (signUp scrypt this email password) t o ->
     o = Thrown (Lib UserAlreadyExistsError) ->
     Forall (fun s => is_write (step_call s) = false) t)
  /\ (forall t o, path (signIn scrypt this email password) t o ->
       o = Thrown (Lib InvalidCredentialsError) ->
       Forall (fun s => is_write (step_call s) = false) t)
  /\ (forall w w', run (signUp scrypt this email password) w
                   = (Thrown (Lib UserAlreadyExistsError), w') ->
       store w' = store w)
  /\ (forall w w', run (signIn scrypt this email password) w
                   = (Thrown (Lib InvalidCredentialsError), w') ->
       store w' = store w).
Proof.
  assert (Hup : forall t o, path (signUp scrypt this email password) t o ->
     o = Thrown (Lib UserAlreadyExistsError) ->
     Forall (fun s => is_write (step_call s) = false) t).
  { intros t o H Ho. unfold signUp in H. path_step H.
    destruct r as [u|].
    + path_step H. repeat constructor.
    + unfold hashPassword in H. path_step H.
      destruct (scrypt password r 64) as [key|x].
      * do 4 path_step H. path_step H. discriminate.
      * path_step H. repeat constructor. }
  assert (Hin : forall t o, path (signIn scrypt this email password) t o ->
       o = Thrown (Lib InvalidCredentialsError) ->
       Forall (fun s => is_write (step_call s) = false) t).
  { intros t o H Ho. unfold signIn in H. path_step H.
    destruct r as [u|].
    + destruct (verifyPassword scrypt password (User.hashedPassword u)).
      * do 3 path_step H. path_step H. discriminate.
      * path_step H. repeat constructor.
    + path_step H. repeat constructor. }
  split; [exact Hup | split; [exact Hin | split]].
  - intros w w' H.
    destruct (run_has_path (signUp scrypt this email password) w)
      as (t & Hp & Hs).
    rewrite H in Hp, Hs. apply Hs. revert Hp. cbn [fst].
    intros Hp. eapply Hup; [exact Hp | reflexivity].
  - intros w w' H.
    destruct (run_has_path (signIn scrypt this email password) w)
      as (t & Hp & Hs).
    rewrite H in Hp, Hs. apply Hs. revert Hp. cbn [fst].
    intros Hp. eapply Hin; [exact Hp | reflexivity].
Qed.

(** C5: the user handed back by [signUp], [signIn] and [validateSession] is
    [toSafeUser] of the user the adapter answered with.  A [SafeUser] is its
    [id], [email] and [createdAt] and nothing more, and [toSafeUser] does not
    look at [hashedPassword]. *)
Theorem returned_user_has_no_hash
  (this : FineAuth) (email password sessionId : string) :
  (forall t r, path (signUp scrypt this email password) t (Ok r) ->
     exists hashed u,
       In (mkStep (Db (CreateUser (canonical email) hashed)) u) t
       /\ AuthResult.user r = toSafeUser u)
  /\ (forall t r, path (signIn scrypt this email password) t (Ok r) ->
       exists u : User,
         In (mkStep (Db (GetUserByEmail (canonical email))) (Some u)) t
         /\ AuthResult.user r = toSafeUser u)
  /\ (forall t v, path (validateSession this sessionId) t (Ok (Some v)) ->
       exists uid (u : User),
         In (mkStep (Db (GetUserById uid)) (Some u)) t
         /\ Validated.user v = toSafeUser u)
  /\ (forall u : User,
       toSafeUser u
       = {| SafeUser.id := User.id u; SafeUser.email := User.email u;
            SafeUser.createdAt := User.createdAt u |})
  /\ (forall id mail h h' created,
       toSafeUser (User.mk id mail h created)
       = toSafeUser (User.mk id mail h' created))
  /\ (forall s : SafeUser,
       s = {| SafeUser.id := SafeUser.id s; SafeUser.email := SafeUser.email s;
              SafeUser.createdAt := SafeUser.createdAt s |}).
Proof.
  repeat split.
  - intros t r H. remember (Ok r) as o eqn:Ho.
    unfold signUp, hashPassword in H. path_step H.
    destruct r0 as [u|]; [path_step H; discriminate|].
    path_step H.
    destruct (scrypt password r0 64) as [key|x]; [|path_step H; discriminate].
    do 4 path_step H. path_step H. injection Ho as <-.
    eexists _, r1. split; [|reflexivity].
    right. right. left. reflexivity.
  - intros t r H. remember (Ok r) as o eqn:Ho.
    unfold signIn in H. path_step H.
    destruct r0 as [u|]; [|path_step H; discriminate].
    destruct (verifyPassword scrypt password (User.hashedPassword u));
      [|path_step H; discriminate].
    do 3 path_step H. path_step H. injection Ho as <-.
    exists u. split; [|reflexivity]. left. reflexivity.
  - intros t v H. remember (Ok (Some v)) as o eqn:Ho.
    unfold validateSession in H. path_step H.
    destruct r as [s|]; [|path_step H; discriminate].
    path_step H.
    assert (G : path (owner ← adapter (GetUserById (Session.userId s));
                      match owner with
                      | None => adapter (DeleteSession sessionId);; mret None
                      | Some user =>
                          mret (Some {| Validated.user := toSafeUser user;
                                        Validated.session := s |})
                      end) t (Ok (Some v)) ->
                exists uid (u : User),
                  In (mkStep (Db (GetUserById uid)) (Some u))
                     (mkStep (Db (GetSession sessionId)) (Some s)
                        :: mkStep (Sys DateNow) r :: t)
                  /\ Validated.user v = toSafeUser u).
    { clear H. intros H. remember (Ok (Some v)) as o' eqn:Ho'.
      path_step H. destruct r0 as [u|].
      - path_step H. injection Ho' as <-.
        exists (Session.userId s), u. split; [|reflexivity].
        right. right. left. reflexivity.
      - path_step H. path_step H. discriminate. }
    subst o.
    destruct (Session.expiresAt s) as [te|]; [destruct (te <? r)%Z|].
    + path_step H. remember (Ok (Some v)) as o eqn:Ho.
      path_step H. discriminate.
    + apply G, H.
    + apply G, H.
  - intros s. destruct s. reflexivity.
Qed.

#[local] Arguments run : simpl never.

(** C6, as amended: whatever the adapter, when [getSession] answers with a
    session that expired before the current time, [validateSession] calls
    [deleteSession] with the id it was given and answers [null].  Against
    the in-memory adapter, validating a stored session that has expired
    removes it from the store; validating one that has not expired and
    whose user is stored leaves the store as it is and answers with the
    user and the session; one that has not expired but whose user is
    missing is removed and the answer is [null]. *)
Theorem validateSession_lazy_expiry (this : FineAuth) (sessionId : string) :
  (forall tr o, path (validateSession this sessionId) tr o ->
     exists found t1,
       tr = mkStep (Db (GetSession sessionId)) found :: t1
       /\ forall s, found = Some s ->
          exists now t2,
            t1 = mkStep (Sys DateNow) now :: t2
            /\ (Js.Date_gt (Some now) (Session.expiresAt s) = true ->
                calls t2 = [Db (DeleteSession sessionId)] /\ o = Ok None))
  /\ (forall (s : Session) (t : Z) (w : World),
       sessions (store w) !! sessionId = Some s ->
       Session.expiresAt s = Some t ->
       let now := clock (runtime w) 0 in
       let rt' := after_tick (runtime w) in
       ((t < now)%Z ->
        run (validateSession this sessionId) w
        = (Ok None,
           {| store := remove_session (store w) sessionId; runtime := rt' |}))
       /\ ((now <= t)%Z -> forall u,
           users (store w) !! Session.userId s = Some u ->
           run (validateSession this sessionId) w
           = (Ok (Some {| Validated.user := toSafeUser u;
                          Validated.session := s |}),
              {| store := store w; runtime := rt' |}))
       /\ ((now <= t)%Z ->
           users (store w) !! Session.userId s = None ->
           run (validateSession this sessionId) w
           = (Ok None,
              {| store := remove_session (store w) sessionId;
                 runtime := rt' |}))).
Proof.
  split.
  - intros tr o H. unfold validateSession in H. path_step H.
    exists r, t. split; [reflexivity|]. intros s ->.
    path_step H. exists r, t0. split; [reflexivity|]. intros Hgt.
    cbn in Hgt. destruct (Session.expiresAt s) as [te|]; [|discriminate].
    rewrite Hgt in H. do 2 path_step H. split; reflexivity.
  - intros s t w Hs He now rt'. repeat split.
    + intros Hlt. apply (run_validate_expired this sessionId s t w Hs He Hlt).
    + intros Hle u Hu.
      apply (run_validate_live this sessionId s w u Hs); [|exact Hu].
      rewrite He. cbn. apply Z.ltb_ge. exact Hle.
    + intros Hle Hu.
      apply (run_validate_orphan this sessionId s w Hs); [|exact Hu].
      rewrite He. cbn. apply Z.ltb_ge. exact Hle.
Qed.

(** The expiry that [signUp] and [signIn] compute, [new Date(Date.now() +
    ttl)], when [Date.now()] is a time value and the sum is at most the
    integer [b]: a valid date at or before [b]. *)
Lemma new_Date_add_le (now n b te : Z) :
  (Z.abs now < 2 ^ 53)%Z -> (Z.abs b < 2 ^ 53)%Z ->
  (now * Js.scale + n <= b * Js.scale)%Z ->
  Js.new_Date (Js.of_int now + Js.Finite n)%num = Some te ->
  (te <= b)%Z.
Proof.
  intros Hnow Hb Hle. rewrite (of_int_exact now Hnow).
  unfold Js.new_Date, Js.TimeClip, Js.add.
  destruct (Js.round (now * Js.scale + n) 0) as [|neg|r] eqn:R;
    try discriminate.
  destruct (Z.abs r >? 8640000000000000 * Js.scale)%Z; [discriminate|].
  intros [= <-].
  pose proof (round_le_int _ b r Hb Hle R) as Hr.
  assert (Sc : (0 < Js.scale)%Z) by (apply Z.pow_pos_nonneg; lia).
  rewrite <- (Z.quot_mul b Js.scale) by lia.
  apply Z.quot_le_mono; lia.
Qed.

(** The session of [signUp] and [signIn] under a negative time to live:
    when its [expiresAt] is a valid date, it is at or before the reading of
    the clock taken as [Date.now()], and a millisecond or more before it
    when the time to live is [-1] or less. *)
Lemma minted_session_negative_ttl (n : Js.Number) (uid : string) (rt : Runtime)
  (te : Z) :
  in_date_range rt ->
  Js.ltb n (Js.of_int 0) = true ->
  Session.expiresAt (minted_session n uid rt) = Some te ->
  (te <= clock rt 0)%Z
  /\ (Js.leb n (Js.of_int (-1)) = true -> (te < clock rt 0)%Z).
Proof.
  intros Hrange Hneg Hte. pose proof (Hrange 0) as H0.
  assert (Hnow : (Z.abs (clock rt 0) < 2 ^ 53)%Z).
  { change (2 ^ 53)%Z with 9007199254740992%Z. lia. }
  assert (Hprev : (Z.abs (clock rt 0 - 1) < 2 ^ 53)%Z).
  { change (2 ^ 53)%Z with 9007199254740992%Z. lia. }
  cbn [minted_session Session.expiresAt] in Hte.
  destruct n as [|neg|u].
  - discriminate Hneg.
  - rewrite (of_int_exact _ Hnow) in Hte. discriminate Hte.
  - assert (Hu : (u < 0)%Z).
    { change (Js.of_int 0) with (Js.Finite 0) in Hneg. cbn in Hneg. lia. }
    split.
    + apply (new_Date_add_le (clock rt 0) u); [exact Hnow | exact Hnow | lia |].
      exact Hte.
    + intros Hle1.
      assert (E1 : Js.of_int (-1) = Js.Finite (-1 * Js.scale)).
      { apply of_int_exact. reflexivity. }
      rewrite E1 in Hle1. cbn [Js.leb] in Hle1. apply Z.leb_le in Hle1.
      assert ((te <= clock rt 0 - 1)%Z); [|lia].
      apply (new_Date_add_le (clock rt 0) u); [exact Hnow | exact Hprev | lia |].
      exact Hte.
Qed.

(** [scrypt] answers with a key of the length asked for. *)
Hypothesis scrypt_length :
  forall password salt keylen key,
    scrypt password salt keylen = Ok key -> List.length key = keylen.

(** C8: [signUp] and [signIn] both trim and lower-case the email they are
    given and make the lookup of that canonical form their first call to
    the adapter, whatever the email.  The canonical form of
    [" User@Example.COM "] and of ["user@example.com"] is
    ["user@example.com"], and after a successful [signUp] with
    [" User@Example.COM "] the [signIn] with ["user@example.com"], or with
    any other spelling of that canonical form, and the same password
    succeeds and answers with the user that the [signUp] created. *)
Theorem signUp_then_signIn_same_user
  (this : FineAuth) (password : string) (w w1 : World) (r1 : AuthResult) :
  Js.ascii_conforming prototype ->
  run (signUp scrypt this " User@Example.COM " password) w = (Ok r1, w1) ->
  Js.toLowerCase (Js.trim " User@Example.COM ") = "user@example.com"
  /\ Js.toLowerCase (Js.trim "user@example.com") = "user@example.com"
  /\ (forall this' email pw,
        exists k, signUp scrypt this' email pw
                  = Vis (Db (GetUserByEmail (Js.toLowerCase (Js.trim email))))
                      k)
  /\ (forall this' email pw,
        exists k, signIn scrypt this' email pw
                  = Vis (Db (GetUserByEmail (Js.toLowerCase (Js.trim email))))
                      k)
  /\ (forall this' email,
        Js.toLowerCase (Js.trim email) = "user@example.com" ->
        exists r2 w2,
          run (signIn scrypt this' email password) w1 = (Ok r2, w2)
          /\ AuthResult.user r2 = AuthResult.user r1
          /\ Session.userId (AuthResult.session r2)
             = SafeUser.id (AuthResult.user r1))
  /\ exists r2 w2,
       run (signIn scrypt this "user@example.com" password) w1 = (Ok r2, w2)
       /\ AuthResult.user r2 = AuthResult.user r1
       /\ SafeUser.id (AuthResult.user r2) = SafeUser.id (AuthResult.user r1)
       /\ Session.userId (AuthResult.session r2)
          = SafeUser.id (AuthResult.user r1).
Proof.
  intros Hascii H.
  assert (C1 : canonical " User@Example.COM " = "user@example.com").
  { unfold canonical.
    destruct (Hascii " User@Example.COM " eq_refl) as [-> _].
    destruct (Hascii (Js.trim_ascii " User@Example.COM ") eq_refl) as [_ ->].
    reflexivity. }
  assert (C2 : canonical "user@example.com" = "user@example.com").
  { unfold canonical.
    destruct (Hascii "user@example.com" eq_refl) as [-> _].
    destruct (Hascii (Js.trim_ascii "user@example.com") eq_refl) as [_ ->].
    reflexivity. }
  apply run_signUp_inv in H as (key & Hf & Hk & -> & ->).
  set (user := created_user " User@Example.COM " key (runtime w)).
  set (w1 := {| store :=
                  add_session (add_user (store w) user)
                    (minted_session (sessionExpiresIn this) (User.id user)
                       (after_create (runtime w)));
                runtime := after_mint (after_create (runtime w)) |}).
  assert (G : forall this' email,
             canonical email = "user@example.com" ->
             exists r2 w2,
               run (signIn scrypt this' email password) w1 = (Ok r2, w2)
               /\ AuthResult.user r2 = toSafeUser user
               /\ Session.userId (AuthResult.session r2) = User.id user).
  { intros this' email He. eexists _, _. split.
    - apply (run_signIn_ok scrypt this' email password w1 user).
      + unfold w1. cbn [store]. rewrite find_add_session, He, <- C1.
        apply find_created; reflexivity.
      + apply verify_hash_roundtrip.
        * discriminate.
        * intros E. apply scrypt_length in Hk. rewrite E in Hk. discriminate.
        * exact Hk.
    - split; reflexivity. }
  split; [exact C1|]. split; [exact C2|].
  split; [intros; eexists; reflexivity|].
  split; [intros; eexists; reflexivity|]. split.
  - intros this' email He. exact (G this' email He).
  - destruct (G this "user@example.com" C2) as (r2 & w2 & Hrun & Hu & Hid).
    exists r2, w2. split; [exact Hrun|]. split; [exact Hu|].
    split; [rewrite Hu; reflexivity | exact Hid].
Qed.

(** C10, as amended: a raw number that is truthy, which is every number
    but [0] and [NaN], is taken as the time to live as it is: negative,
    fractional or infinite; [0] and [NaN] are falsy and give the default of
    seven days.  With a negative time to live, a clock that reads time
    values and does not go backwards, a session created by [signUp] or by
    [signIn] whose [expiresAt] is a valid date expires at or before its
    creation, and before it when the time to live is [-1] or less; every
    validation of it at a later reading of the clock, and from its creation
    on when the time to live is [-1] or less, answers [null] and deletes
    it. *)
Theorem raw_number_ttl (c : FineAuthConfig) (n : Js.Number) :
  Js.falsy (secret c) = false ->
  db c = true ->
  method c = Some {| Method.email := Some true |} ->
  session c = Some {| expiresIn := Some (DurationNumber n) |} ->
  (Js.falsy_number n = false ->
   new_FineAuth c = Ok {| config := c; sessionExpiresIn := n |})
  /\ (Js.falsy_number n = true ->
      new_FineAuth c
      = Ok {| config := c; sessionExpiresIn := Js.of_int 604800000 |})
  /\ (Js.ltb n (Js.of_int 0) = true ->
      forall email password w r w1,
        monotone (runtime w) ->
        in_date_range (runtime w) ->
        run (signUp scrypt {| config := c; sessionExpiresIn := n |}
               email password) w = (Ok r, w1)
        \/ run (signIn scrypt {| config := c; sessionExpiresIn := n |}
                  email password) w = (Ok r, w1) ->
        let s := AuthResult.session r in
        forall te tc,
          Session.expiresAt s = Some te ->
          Session.createdAt s = Some tc ->
          (te <= tc)%Z
          /\ (Js.leb n (Js.of_int (-1)) = true -> (te < tc)%Z)
          /\ sessions (store w1) !! Session.id s = Some s
          /\ forall w2,
               sessions (store w2) !! Session.id s = Some s ->
               (tc < clock (runtime w2) 0)%Z
               \/ (Js.leb n (Js.of_int (-1)) = true
                   /\ (tc <= clock (runtime w2) 0)%Z) ->
               exists w3,
                 run (validateSession {| config := c; sessionExpiresIn := n |}
                        (Session.id s)) w2 = (Ok None, w3)
                 /\ sessions (store w3) !! Session.id s = None).
Proof.
  intros Hsec Hdb Hm Hs.
  assert (Hnew : new_FineAuth c
                 = Ok {| config := c;
                         sessionExpiresIn :=
                           if Js.falsy_number n then Js.of_int 604800000
                           else n |}).
  { unfold new_FineAuth, truthy_expiresIn.
    rewrite Hsec, Hdb, Hm, Hs. cbn [negb default Method.email expiresIn].
    destruct (Js.falsy_number n); [vm_compute; reflexivity | reflexivity]. }
  split; [|split].
  - intros Hn. rewrite Hnew, Hn. reflexivity.
  - intros Hn. rewrite Hnew, Hn. reflexivity.
  - intros Hneg email password w r w1 Hmono Hrange Hrun s te tc Hte Htc.
    assert (K : exists uid rt,
               (exists i, forall j, clock rt j = clock (runtime w) (i + j))
               /\ AuthResult.session r = minted_session n uid rt
               /\ sessions (store w1) !! Session.id (minted_session n uid rt)
                  = Some (minted_session n uid rt)).
    { destruct Hrun as [Hrun|Hrun].
      - apply run_signUp_inv in Hrun as (key & Hf & Hk & -> & ->).
        exists (User.id (created_user email key (runtime w))),
               (after_create (runtime w)).
        split; [exists 1; intros j; reflexivity|].
        split; [reflexivity|].
        cbn [store add_session sessions]. apply lookup_insert_eq.
      - apply run_signIn_inv in Hrun as (u & Hf & Hv & -> & ->).
        exists (User.id u), (runtime w).
        split; [exists 0; intros j; reflexivity|].
        split; [reflexivity|].
        cbn [store add_session sessions]. apply lookup_insert_eq. }
    destruct K as (uid & rt & [i Hi] & Es & Hstored).
    subst s. rewrite Es in *. clear Es.
    assert (Hrt : in_date_range rt).
    { intros j. rewrite Hi. apply Hrange. }
    destruct (minted_session_negative_ttl n uid rt te Hrt Hneg Hte)
      as [Hle Hlt].
    assert (Etc : tc = clock rt 1).
    { cbn in Htc. congruence. }
    assert (H01 : (clock rt 0 <= clock rt 1)%Z).
    { rewrite !Hi. apply Hmono. lia. }
    split; [lia|]. split; [intros L; specialize (Hlt L); lia|].
    split; [exact Hstored|].
    intros w2 Hin Hlater.
    eexists. split.
    + apply (run_validate_expired _ _ (minted_session n uid rt) te w2 Hin Hte).
      destruct Hlater as [Hl|[L Hl]]; [lia | specialize (Hlt L); lia].
    + cbn [store remove_session sessions]. apply lookup_delete_eq.
Qed.

End Lifecycle.

(** ** Runs on concrete inputs

    The samples are ASCII; they are run with [Js.ascii_prototype]. *)

Section OnSamples.

#[local] Existing Instance Js.ascii_prototype.

(** C6, as stated, fails on its second half: a session that has not
    expired is deleted by validation when its user is not in the store. *)
Lemma unexpired_orphan_is_deleted :
  sessions (store world_with_orphan) !! "abc" = Some sample_session
  /\ Js.Date_gt (Some (clock (runtime world_with_orphan) 0))
                (Session.expiresAt sample_session) = false
  /\ fst (run (validateSession sample_auth "abc") world_with_orphan) = Ok None
  /\ sessions (store (snd (run (validateSession sample_auth "abc")
                                world_with_orphan))) !! "abc" = None.
Proof. repeat split; vm_compute; reflexivity. Qed.

(** C1: [validateSession] does not run the token codec.  Whatever the
    argument, its first step is [getSession] on that argument, and the
    program does not depend on the instance, hence not on its secret.  The
    string ["abc"], which [verifySessionId] rejects under every secret, is
    looked up in the store and, being the id of a stored session, is
    accepted. *)
Theorem validateSession_skips_token_check :
  (forall this token,
     exists k, validateSession this token = Vis (Db (GetSession token)) k)
  /\ (forall this1 this2 token,
       validateSession this1 token = validateSession this2 token)
  /\ (forall hmac_sha256 secret,
       verifySessionId hmac_sha256 "abc" secret = Ok None)
  /\ fst (run (validateSession sample_auth "abc") world_with_session)
     = Ok (Some {| Validated.user := toSafeUser sample_user;
                   Validated.session := sample_session |}).
Proof.
  split; [|split; [|split]].
  - intros this token. eexists. reflexivity.
  - intros this1 this2 token. reflexivity.
  - intros hmac_sha256 secret. reflexivity.
  - vm_compute. reflexivity.
Qed.

(** C2: the value returned by [signUp] and [signIn] is a user and a session
    and nothing else.  The two programs do not depend on the configured
    secret, and the sign-up of ["a@b.com"] in the empty store returns the
    record shown. *)
Theorem signUp_returns_no_token :
  (forall prototype scrypt c1 c2 ttl email password,
     @signUp prototype scrypt {| config := c1; sessionExpiresIn := ttl |}
       email password
     = @signUp prototype scrypt {| config := c2; sessionExpiresIn := ttl |}
         email password)
  /\ (forall prototype scrypt c1 c2 ttl email password,
       @signIn prototype scrypt {| config := c1; sessionExpiresIn := ttl |}
         email password
       = @signIn prototype scrypt {| config := c2; sessionExpiresIn := ttl |}
           email password)
  /\ (forall r : AuthResult,
       r = {| AuthResult.user := AuthResult.user r;
              AuthResult.session := AuthResult.session r |})
  /\ fst (run (signUp sample_scrypt sample_auth "a@b.com" "pw123456")
              sample_world)
     = Ok {| AuthResult.user :=
               {| SafeUser.id := "101112131415161718191a1b1c1d1e1f";
                  SafeUser.email := "a@b.com";
                  SafeUser.createdAt := Some 1000%Z |};
             AuthResult.session :=
               {| Session.id :=
                    "202122232425262728292a2b2c2d2e2f303132333435363738393a3b3c3d3e3f";
                  Session.userId := "101112131415161718191a1b1c1d1e1f";
                  Session.expiresAt := Some 604801001%Z;
                  Session.createdAt := Some 1002%Z |} |}.
Proof.
  split; [|split; [|split]].
  - reflexivity.
  - reflexivity.
  - intros [u s0]. reflexivity.
  - vm_compute. reflexivity.
Qed.

(** C10, as stated, fails.  With [expiresIn: 0] the constructor falls back
    to seven days: the session of a sign-up expires long after it was
    created and a later validation accepts it.  With a time to live below
    the range of dates, [expiresAt] is an Invalid Date, which no instant is
    after: a later validation accepts the session too. *)
Lemma zero_ttl_is_seven_days :
  new_FineAuth (sample_config (Some (DurationNumber (Js.of_int 0))))
  = Ok zero_ttl_auth
  /\ (exists r w1,
        run (signUp sample_scrypt zero_ttl_auth "a@b.com" "pw123456")
            sample_world = (Ok r, w1)
        /\ Session.createdAt (AuthResult.session r) = Some 1002%Z
        /\ Session.expiresAt (AuthResult.session r) = Some 604801001%Z
        /\ fst (run (validateSession zero_ttl_auth
                       (Session.id (AuthResult.session r))) w1)
           = Ok (Some {| Validated.user := AuthResult.user r;
                         Validated.session := AuthResult.session r |}))
  /\ (exists r w1,
        run (signUp sample_scrypt far_negative_ttl_auth "a@b.com" "pw123456")
            sample_world = (Ok r, w1)
        /\ Session.expiresAt (AuthResult.session r) = None
        /\ fst (run (validateSession far_negative_ttl_auth
                       (Session.id (AuthResult.session r))) w1)
           = Ok (Some {| Validated.user := AuthResult.user r;
                         Validated.session := AuthResult.session r |})).
Proof.
  split; [vm_compute; reflexivity|]. split.
  - eexists _, _. split.
    + apply (run_signUp_ok sample_scrypt zero_ttl_auth "a@b.com" "pw123456"
               sample_world); reflexivity.
    + repeat split; vm_compute; reflexivity.
  - eexists _, _. split.
    + apply (run_signUp_ok sample_scrypt far_negative_ttl_auth "a@b.com"
               "pw123456" sample_world); reflexivity.
    + repeat split; vm_compute; reflexivity.
Qed.

(** ** The statements at concrete inputs *)

Lemma sample_scrypt_length password salt keylen key :
  sample_scrypt password salt keylen = Ok key -> List.length key = keylen.
Proof.
  unfold sample_scrypt. intros [= <-].
  rewrite length_take, !length_app, repeat_length. lia.
Qed.

Lemma sample_runtime_monotone : monotone sample_runtime.
Proof. intros i j Hij. cbn. lia. Qed.

Lemma signIn_failures_indistinguishable_witness :
  (exists found t',
     unknown_email_path
     = mkStep (Db (GetUserByEmail (canonical "nobody@example.com"))) found :: t')
  /\ run (signIn sample_scrypt sample_auth "nobody@example.com" "pw") sample_world
     = (Thrown (Lib InvalidCredentialsError), sample_world)
  /\ run (signIn sample_scrypt sample_auth "A@B.com" "wrong") world_with_session
     = (Thrown (Lib InvalidCredentialsError), world_with_session).
Proof.
  split; [|split].
  - destruct (proj1 (signIn_failures_indistinguishable sample_scrypt sample_auth
                       "nobody@example.com" "pw")
                unknown_email_path (Thrown (Lib InvalidCredentialsError)))
      as (found & t' & E & _).
    + apply (@path_vis AppCall AppResp _ (Db (GetUserByEmail _)) _ None).
      apply path_throw.
    + exists found, t'. exact E.
  - apply (proj1 (proj2 (signIn_failures_indistinguishable sample_scrypt
                           sample_auth "nobody@example.com" "pw"))).
    reflexivity.
  - apply (proj2 (proj2 (signIn_failures_indistinguishable sample_scrypt
                           sample_auth "A@B.com" "wrong"))
             world_with_session sample_user); reflexivity.
Defined.

Lemma failed_auth_writes_nothing_witness :
  Forall (fun s => is_write (step_call s) = false) taken_email_path
  /\ Forall (fun s => is_write (step_call s) = false) unknown_email_path
  /\ store (snd (run (signUp sample_scrypt sample_auth "a@b.com" "pw")
                     world_with_session))
     = store world_with_session
  /\ store (snd (run (signIn sample_scrypt sample_auth "nobody@example.com" "pw")
                     sample_world))
     = store sample_world.
Proof.
  split; [|split; [|split]].
  - apply (proj1 (failed_auth_writes_nothing sample_scrypt sample_auth
                    "a@b.com" "pw")
             taken_email_path (Thrown (Lib UserAlreadyExistsError))).
    + apply (@path_vis AppCall AppResp _ (Db (GetUserByEmail _)) _
               (Some sample_user)).
      apply path_throw.
    + reflexivity.
  - apply (proj1 (proj2 (failed_auth_writes_nothing sample_scrypt sample_auth
                           "nobody@example.com" "pw"))
             unknown_email_path (Thrown (Lib InvalidCredentialsError))).
    + apply (@path_vis AppCall AppResp _ (Db (GetUserByEmail _)) _ None).
      apply path_throw.
    + reflexivity.
  - apply (proj1 (proj2 (proj2 (failed_auth_writes_nothing sample_scrypt
                                  sample_auth "a@b.com" "pw")))
             world_with_session).
    vm_compute. reflexivity.
  - apply (proj2 (proj2 (proj2 (failed_auth_writes_nothing sample_scrypt
                                  sample_auth "nobody@example.com" "pw")))
             sample_world).
    vm_compute. reflexivity.
Defined.

Lemma returned_user_has_no_hash_witness :
  exists uid (u : User),
    In (mkStep (Db (GetUserById uid)) (Some u)) sample_validate_path
    /\ toSafeUser sample_user = toSafeUser u.
Proof.
  apply (proj1 (proj2 (proj2 (returned_user_has_no_hash sample_scrypt
                                sample_auth "a@b.com" "pw" "abc")))
           sample_validate_path
           {| Validated.user := toSafeUser sample_user;
              Validated.session := sample_session |}).
  apply (@path_vis AppCall AppResp _ (Db (GetSession _)) _
           (Some sample_session)).
  apply (@path_vis AppCall AppResp _ (Sys DateNow) _ 1000%Z).
  apply (@path_vis AppCall AppResp _ (Db (GetUserById _)) _ (Some sample_user)).
  apply path_ret.
Defined.

Lemma validateSession_lazy_expiry_witness :
  (exists found t1,
     sample_validate_path = mkStep (Db (GetSession "abc")) found :: t1)
  /\ run (validateSession sample_auth "old") world_with_expired
     = (Ok None,
        {| store := remove_session (store world_with_expired) "old";
           runtime := after_tick sample_runtime |})
  /\ run (validateSession sample_auth "abc") world_with_session
     = (Ok (Some {| Validated.user := toSafeUser sample_user;
                    Validated.session := sample_session |}),
        {| store := store world_with_session;
           runtime := after_tick sample_runtime |})
  /\ run (validateSession sample_auth "abc") world_with_orphan
     = (Ok None,
        {| store := remove_session (store world_with_orphan) "abc";
           runtime := after_tick sample_runtime |}).
Proof.
  split; [|split; [|split]].
  - destruct (proj1 (validateSession_lazy_expiry sample_auth "abc")
                sample_validate_path
                (Ok (Some {| Validated.user := toSafeUser sample_user;
                             Validated.session := sample_session |})))
      as (found & t1 & E & _).
    + apply (@path_vis AppCall AppResp _ (Db (GetSession _)) _
               (Some sample_session)).
      apply (@path_vis AppCall AppResp _ (Sys DateNow) _ 1000%Z).
      apply (@path_vis AppCall AppResp _ (Db (GetUserById _)) _
               (Some sample_user)).
      apply path_ret.
    + exists found, t1. exact E.
  - apply (proj1 (proj2 (validateSession_lazy_expiry sample_auth "old")
                    expired_session 500%Z world_with_expired eq_refl eq_refl)).
    simpl. lia.
  - apply (proj1 (proj2 (proj2 (validateSession_lazy_expiry sample_auth "abc")
                           sample_session 5000%Z world_with_session
                           eq_refl eq_refl))).
    + simpl. lia.
    + reflexivity.
  - apply (proj2 (proj2 (proj2 (validateSession_lazy_expiry sample_auth "abc")
                           sample_session 5000%Z world_with_orphan
                           eq_refl eq_refl))).
    + simpl. lia.
    + reflexivity.
Defined.

Lemma ascii_prototype_conforming : Js.ascii_conforming Js.ascii_prototype.
Proof. intros s _. split; reflexivity. Qed.

Lemma signUp_then_signIn_same_user_witness :
  (exists r2 w2,
     run (signIn sample_scrypt sample_auth "user@example.com" "password123")
         (snd (run (signUp sample_scrypt sample_auth " User@Example.COM "
                      "password123") sample_world))
     = (Ok r2, w2)
     /\ SafeUser.id (AuthResult.user r2) = "101112131415161718191a1b1c1d1e1f")
  /\ (exists r2 w2,
        run (signIn sample_scrypt sample_auth "USER@EXAMPLE.COM  "
               "password123")
            (snd (run (signUp sample_scrypt sample_auth " User@Example.COM "
                         "password123") sample_world))
        = (Ok r2, w2)
        /\ SafeUser.id (AuthResult.user r2)
           = "101112131415161718191a1b1c1d1e1f").
Proof.
  pose proof (run_signUp_ok sample_scrypt sample_auth " User@Example.COM "
                "password123" sample_world _ eq_refl eq_refl) as E.
  cbv zeta in E. rewrite E. cbn [snd].
  destruct (signUp_then_signIn_same_user sample_scrypt sample_scrypt_length
              sample_auth "password123" sample_world _ _
              ascii_prototype_conforming E)
    as (_ & _ & _ & _ & Hany & r2 & w2 & Hrun & _ & Hid & _).
  split.
  - exists r2, w2. split; [exact Hrun|]. rewrite Hid. reflexivity.
  - destruct (Hany sample_auth "USER@EXAMPLE.COM  " eq_refl)
      as (r3 & w3 & Hrun3 & Hu3 & _).
    exists r3, w3. split; [exact Hrun3|]. rewrite Hu3. reflexivity.
Defined.

Lemma capped_runtime_monotone : monotone capped_runtime.
Proof. intros i j Hij. cbn. lia. Qed.

Lemma capped_runtime_in_date_range : in_date_range capped_runtime.
Proof. intros i. cbn. lia. Qed.

Lemma raw_number_ttl_witness :
  new_FineAuth (sample_config (Some (DurationNumber (Js.of_int (-5)))))
  = Ok negative_ttl_auth
  /\ new_FineAuth (sample_config (Some (DurationNumber one_and_a_half)))
     = Ok fractional_ttl_auth
  /\ new_FineAuth (sample_config (Some (DurationNumber (Js.of_int 0))))
     = Ok zero_ttl_auth
  /\ new_FineAuth (sample_config (Some (DurationNumber Js.NaN)))
     = Ok nan_ttl_auth
  /\ exists r w1 w3,
       run (signUp sample_scrypt negative_ttl_auth "a@b.com" "pw123456")
           capped_world = (Ok r, w1)
       /\ run (validateSession negative_ttl_auth (Session.id (AuthResult.session r)))
              w1 = (Ok None, w3)
       /\ sessions (store w3) !! Session.id (AuthResult.session r) = None.
Proof.
  split; [|split; [|split; [|split]]].
  - apply (proj1 (raw_number_ttl sample_scrypt
                    (sample_config (Some (DurationNumber (Js.of_int (-5)))))
                    (Js.of_int (-5)) eq_refl eq_refl eq_refl eq_refl)).
    vm_compute. reflexivity.
  - apply (proj1 (raw_number_ttl sample_scrypt
                    (sample_config (Some (DurationNumber one_and_a_half)))
                    one_and_a_half eq_refl eq_refl eq_refl eq_refl)).
    reflexivity.
  - apply (proj1 (proj2 (raw_number_ttl sample_scrypt
                           (sample_config (Some (DurationNumber (Js.of_int 0))))
                           (Js.of_int 0) eq_refl eq_refl eq_refl eq_refl))).
    vm_compute. reflexivity.
  - apply (proj1 (proj2 (raw_number_ttl sample_scrypt
                           (sample_config (Some (DurationNumber Js.NaN)))
                           Js.NaN eq_refl eq_refl eq_refl eq_refl))).
    reflexivity.
  - pose proof (run_signUp_ok sample_scrypt negative_ttl_auth "a@b.com"
                  "pw123456" capped_world _ eq_refl eq_refl) as E.
    cbv zeta in E.
    assert (Hneg : Js.ltb (Js.of_int (-5)) (Js.of_int 0) = true)
      by (vm_compute; reflexivity).
    assert (Hle : Js.leb (Js.of_int (-5)) (Js.of_int (-1)) = true)
      by (vm_compute; reflexivity).
    destruct (proj2 (proj2 (raw_number_ttl sample_scrypt
                              (sample_config
                                 (Some (DurationNumber (Js.of_int (-5)))))
                              (Js.of_int (-5)) eq_refl eq_refl eq_refl eq_refl))
                Hneg "a@b.com" "pw123456" capped_world _ _
                capped_runtime_monotone capped_runtime_in_date_range
                (or_introl E) 996%Z 1002%Z ltac:(vm_compute; reflexivity)
                eq_refl)
      as (_ & _ & Hstored & Hlater).
    destruct (Hlater _ Hstored) as (w3 & Hrun & Hgone).
    + right. split; [exact Hle|]. cbn. lia.
    + eexists _, _, w3. split; [exact E|]. split; [exact Hrun | exact Hgone].
Defined.

End OnSamples.

(** * Further properties of the code *)

(** ** The token codec, continued *)

Lemma split_one (c : ascii) (s b : string) :
  Js.split c s = [b] -> s = b /\ Js.occurs c s = false.
Proof.
  revert b. induction s as [|d s IH]; simpl; intros b H.
  - injection H as <-. split; reflexivity.
  - destruct (Ascii.eqb d c) eqn:Hd.
    + injection H as _ H. exfalso. exact (split_not_nil c s H).
    + destruct (Js.split c s) as [|p ps] eqn:Hs.
      * exfalso. exact (split_not_nil c s Hs).
      * injection H as <- ->. destruct (IH p eq_refl) as [-> Ho].
        split; [reflexivity | exact Ho].
Qed.

Lemma split_two (c : ascii) (t a b : string) :
  Js.split c t = [a; b] ->
  t = a +:+ String c b /\ Js.occurs c a = false /\ Js.occurs c b = false.
Proof.
  revert a. induction t as [|d t IH]; simpl; intros a H; [discriminate|].
  destruct (Ascii.eqb d c) eqn:Hd.
  - injection H as <- H. apply Ascii.eqb_eq in Hd. subst d.
    destruct (split_one c t b H) as [-> Ho].
    split; [reflexivity|]. split; [reflexivity | exact Ho].
  - destruct (Js.split c t) as [|p ps] eqn:Hs; [discriminate|].
    injection H as <- ->. destruct (IH p eq_refl) as (-> & Hp & Hb).
    split; [reflexivity|]. split; [|exact Hb].
    simpl. rewrite Hd. exact Hp.
Qed.

Lemma two_parts (parts : list string) :
  Nat.eqb (List.length parts) 2 = true ->
  parts = [nth 0 parts EmptyString; nth 1 parts EmptyString].
Proof.
  destruct parts as [|a [|b [|c rest]]]; simpl; try discriminate.
  reflexivity.
Qed.

Lemma Buffer_from_length (s : string) :
  List.length (Js.Buffer_from s) = String.length s.
Proof.
  unfold Js.Buffer_from, list_byte_of_string.
  rewrite length_map. induction s as [|c s IH]; simpl; [reflexivity|].
  rewrite IH. reflexivity.
Qed.

Lemma Buffer_from_inj (s t : string) :
  Js.Buffer_from s = Js.Buffer_from t -> s = t.
Proof.
  unfold Js.Buffer_from. intros H.
  rewrite <- (string_of_list_byte_of_string s),
          <- (string_of_list_byte_of_string t), H.
  reflexivity.
Qed.

Lemma string_length_app (a b : string) :
  String.length (a +:+ b) = String.length a + String.length b.
Proof. induction a as [|c a IH]; simpl; [reflexivity | rewrite IH; reflexivity]. Qed.

Lemma append_cons (d : ascii) (a b : string) :
  String d a +:+ b = String d (a +:+ b).
Proof. reflexivity. Qed.

Lemma string_app_assoc (a b c : string) :
  (a +:+ b) +:+ c = a +:+ (b +:+ c).
Proof.
  induction a as [|d a IH]; [reflexivity|].
  rewrite !append_cons, IH. reflexivity.
Qed.

Section CodecMore.

Variable hmac_sha256 : string -> string -> list byte.

(** X1: [verifySessionId] is not inside a [try] block and calls
    [timingSafeEqual], which throws on buffers of different lengths; the
    length test before the call makes that impossible: for every token and
    secret the function returns, with a session id or with [null]. *)
Theorem verifySessionId_never_throws (token secret : string) :
  exists r, verifySessionId hmac_sha256 token secret = Ok r.
Proof.
  unfold verifySessionId. cbv zeta.
  destruct (negb (Nat.eqb (List.length (Js.split "." token)) 2));
    [eexists; reflexivity|].
  destruct (_ || _); [eexists; reflexivity|].
  destruct (negb (Nat.eqb _ _)) eqn:Hlen; [eexists; reflexivity|].
  apply negb_false_iff in Hlen.
  unfold timingSafeEqual. rewrite Hlen. cbn [rbind].
  destruct (bool_decide _); eexists; reflexivity.
Qed.

(** X2: [verifySessionId] accepts nothing but what [signSessionId] writes:
    when it answers with a session id, the token is exactly the signed token
    of that id under the secret, and the id is not empty and holds no ".". *)
Theorem verifySessionId_accepts_only_signed (token secret s : string) :
  verifySessionId hmac_sha256 token secret = Ok (Some s) ->
  token = signSessionId hmac_sha256 s secret
  /\ s <> EmptyString
  /\ Js.occurs "." s = false.
Proof.
  unfold verifySessionId, signSessionId. cbv zeta.
  destruct (Nat.eqb (List.length (Js.split "." token)) 2) eqn:Hlen;
    cbn [negb]; [|discriminate].
  pose proof (two_parts _ Hlen) as Hparts.
  set (sid := nth 0 (Js.split "." token) EmptyString) in *.
  set (sig := nth 1 (Js.split "." token) EmptyString) in *.
  destruct (Js.falsy sid) eqn:Hsid; cbn [orb]; [discriminate|].
  destruct (Js.falsy sig) eqn:Hsig; [discriminate|].
  unfold timingSafeEqual.
  destruct (Nat.eqb (List.length (Js.Buffer_from sig)) _);
    cbn [negb rbind]; [|discriminate].
  destruct (bool_decide _) eqn:Heq; cbv iota; [|discriminate].
  intros [= <-]. apply bool_decide_eq_true_1, Buffer_from_inj in Heq.
  destruct (split_two "." token sid sig Hparts) as (Ht & Hdot & _).
  rewrite <- Heq. split; [exact Ht|]. split.
  - apply falsy_false. exact Hsid.
  - exact Hdot.
Qed.

(** X3: A signed token with anything appended is rejected, whatever the
    session id, the secret and the appended text: the token no longer splits
    in two, or the id is empty, or the signature part is longer than the
    expected signature. *)
Theorem appended_token_rejected (s k x : string) :
  x <> EmptyString ->
  verifySessionId hmac_sha256 (signSessionId hmac_sha256 s k +:+ x) k = Ok None.
Proof.
  intros Hx. unfold verifySessionId, signSessionId. cbv zeta.
  set (sig := Js.toString_base64url (hmac_sha256 k s)).
  assert (Et : (s +:+ "." +:+ sig) +:+ x = s +:+ String "." (sig +:+ x)).
  { apply string_app_assoc. }
  rewrite Et.
  destruct (Nat.eqb (List.length (Js.split "." (s +:+ String "." (sig +:+ x)))) 2)
    eqn:Hlen; cbn [negb]; [|reflexivity].
  apply Nat.eqb_eq in Hlen. rewrite split_length_app in Hlen.
  destruct (Js.occurs "." s) eqn:Hdot.
  { apply split_length_occurs in Hdot.
    pose proof (split_not_nil "." (sig +:+ x)) as N.
    destruct (Js.split "." (sig +:+ x)); [contradiction | simpl in Hlen; lia]. }
  rewrite (split_no_sep "." s Hdot) in Hlen. cbn [List.length] in Hlen.
  rewrite (split_app_sep "." s (sig +:+ x) Hdot).
  destruct (Js.split "." (sig +:+ x)) as [|b [|b' rest]] eqn:Hs;
    simpl in Hlen; try lia.
  apply split_one in Hs as [<- _]. cbn [nth].
  destruct (Js.falsy s || Js.falsy (sig +:+ x)); [reflexivity|].
  fold sig. rewrite !Buffer_from_length, string_length_app.
  destruct (Nat.eqb_spec (String.length sig + String.length x) (String.length sig))
    as [E|_]; [|reflexivity].
  exfalso. destruct x; [congruence | simpl in E; lia].
Qed.

End CodecMore.

(** *** base64url is injective *)

Lemma b64url_code (n : N) :
  (n < 64)%N ->
  N_of_ascii (Js.b64url_char n)
  = (if n <? 26 then 65 + n
     else if n <? 52 then 71 + n
     else if n <? 62 then n - 4
     else if n =? 62 then 45 else 95)%N.
Proof.
  intros Hn. unfold Js.b64url_char.
  destruct (N.ltb_spec n 26); [rewrite N_ascii_embedding; lia|].
  destruct (N.ltb_spec n 52); [rewrite N_ascii_embedding; lia|].
  destruct (N.ltb_spec n 62); [rewrite N_ascii_embedding; lia|].
  destruct (n =? 62)%N; reflexivity.
Qed.

Lemma b64url_char_inj (n m : N) :
  (n < 64)%N -> (m < 64)%N ->
  Js.b64url_char n = Js.b64url_char m -> n = m.
Proof.
  intros Hn Hm H. apply (f_equal N_of_ascii) in H.
  rewrite !b64url_code in H by assumption.
  destruct (N.ltb_spec n 26), (N.ltb_spec m 26); try lia;
  destruct (N.ltb_spec n 52), (N.ltb_spec m 52); try lia;
  destruct (N.ltb_spec n 62), (N.ltb_spec m 62); try lia;
  destruct (N.eqb_spec n 62), (N.eqb_spec m 62); lia.
Qed.

Lemma to_N_inj (a b : byte) : Byte.to_N a = Byte.to_N b -> a = b.
Proof.
  intros H. pose proof (Byte.of_to_N a) as Ha.
  rewrite H, Byte.of_to_N in Ha. congruence.
Qed.

Lemma to_N_lt (a : byte) : (Byte.to_N a < 256)%N.
Proof. destruct a; reflexivity. Qed.

Lemma sextets_inj (x y z x' y' z' : N) :
  (x < 256)%N -> (y < 256)%N -> (z < 256)%N ->
  (x' < 256)%N -> (y' < 256)%N -> (z' < 256)%N ->
  (x / 4 = x' / 4)%N ->
  (x mod 4 * 16 + y / 16 = x' mod 4 * 16 + y' / 16)%N ->
  (y mod 16 * 4 + z / 64 = y' mod 16 * 4 + z' / 64)%N ->
  (z mod 64 = z' mod 64)%N ->
  x = x' /\ y = y' /\ z = z'.
Proof.
  intros Hx Hy Hz Hx' Hy' Hz'.
  pose proof (N.div_mod x 4 ltac:(lia)).
  pose proof (N.div_mod x' 4 ltac:(lia)).
  pose proof (N.div_mod y 16 ltac:(lia)).
  pose proof (N.div_mod y' 16 ltac:(lia)).
  pose proof (N.div_mod z 64 ltac:(lia)).
  pose proof (N.div_mod z' 64 ltac:(lia)).
  pose proof (N.mod_lt x 4 ltac:(lia)).
  pose proof (N.mod_lt x' 4 ltac:(lia)).
  pose proof (N.mod_lt y 16 ltac:(lia)).
  pose proof (N.mod_lt y' 16 ltac:(lia)).
  pose proof (N.mod_lt z 64 ltac:(lia)).
  pose proof (N.mod_lt z' 64 ltac:(lia)).
  generalize dependent (x / 4)%N. generalize dependent (x mod 4)%N.
  generalize dependent (x' / 4)%N. generalize dependent (x' mod 4)%N.
  generalize dependent (y / 16)%N. generalize dependent (y mod 16)%N.
  generalize dependent (y' / 16)%N. generalize dependent (y' mod 16)%N.
  generalize dependent (z / 64)%N. generalize dependent (z mod 64)%N.
  generalize dependent (z' / 64)%N. generalize dependent (z' mod 64)%N.
  intros. lia.
Qed.

Lemma sextet_bounds (x y z : N) :
  (x < 256)%N -> (y < 256)%N -> (z < 256)%N ->
  (x / 4 < 64)%N /\ (x mod 4 * 16 + y / 16 < 64)%N
  /\ (y mod 16 * 4 + z / 64 < 64)%N /\ (z mod 64 < 64)%N.
Proof.
  intros Hx Hy Hz.
  pose proof (N.div_mod x 4 ltac:(lia)).
  pose proof (N.div_mod y 16 ltac:(lia)).
  pose proof (N.div_mod z 64 ltac:(lia)).
  pose proof (N.mod_lt x 4 ltac:(lia)).
  pose proof (N.mod_lt y 16 ltac:(lia)).
  pose proof (N.mod_lt z 64 ltac:(lia)).
  generalize dependent (x / 4)%N. generalize dependent (x mod 4)%N.
  generalize dependent (y / 16)%N. generalize dependent (y mod 16)%N.
  generalize dependent (z / 64)%N. generalize dependent (z mod 64)%N.
  intros. lia.
Qed.

(** The characters written for up to three bytes determine the bytes. *)
Lemma sextet_chars_inj (a b c a' b' c' : byte) :
  let x := Byte.to_N a in let y := Byte.to_N b in let z := Byte.to_N c in
  let x' := Byte.to_N a' in let y' := Byte.to_N b' in let z' := Byte.to_N c' in
  Js.b64url_char (x / 4) = Js.b64url_char (x' / 4) ->
  Js.b64url_char (x mod 4 * 16 + y / 16)
  = Js.b64url_char (x' mod 4 * 16 + y' / 16) ->
  Js.b64url_char (y mod 16 * 4 + z / 64)
  = Js.b64url_char (y' mod 16 * 4 + z' / 64) ->
  Js.b64url_char (z mod 64) = Js.b64url_char (z' mod 64) ->
  a = a' /\ b = b' /\ c = c'.
Proof.
  intros x y z x' y' z' H1 H2 H3 H4.
  pose proof (to_N_lt a). pose proof (to_N_lt b). pose proof (to_N_lt c).
  pose proof (to_N_lt a'). pose proof (to_N_lt b'). pose proof (to_N_lt c').
  destruct (sextet_bounds x y z) as (B1 & B2 & B3 & B4); try assumption.
  destruct (sextet_bounds x' y' z') as (B1' & B2' & B3' & B4'); try assumption.
  apply b64url_char_inj in H1, H2, H3, H4; try assumption.
  destruct (sextets_inj x y z x' y' z') as (Ex & Ey & Ez); try assumption.
  split; [|split]; apply to_N_inj; assumption.
Qed.

Lemma base64url_inj_upto (n : nat) (b1 b2 : list byte) :
  List.length b1 <= n ->
  Js.toString_base64url b1 = Js.toString_base64url b2 -> b1 = b2.
Proof.
  revert b1 b2. induction n as [n IH] using lt_wf_ind. intros b1 b2 Hn H.
  destruct b1 as [|a1 [|a2 [|a3 r1]]], b2 as [|c1 [|c2 [|c3 r2]]];
    cbn [Js.toString_base64url] in H;
    try discriminate H;
    try (injection H; intros; discriminate).
  - reflexivity.
  - injection H as H1 H2.
    destruct (sextet_chars_inj a1 x00 x00 c1 x00 x00) as (-> & _);
      try reflexivity; try assumption.
    change (Byte.to_N x00 / 16)%N with 0%N. rewrite !N.add_0_r. exact H2.
  - injection H as H1 H2 H3.
    destruct (sextet_chars_inj a1 a2 x00 c1 c2 x00) as (-> & -> & _);
      try reflexivity; try assumption.
    change (Byte.to_N x00 / 64)%N with 0%N. rewrite !N.add_0_r. exact H3.
  - injection H as H1 H2 H3 H4 H5.
    destruct (sextet_chars_inj a1 a2 a3 c1 c2 c3) as (-> & -> & ->);
      try assumption.
    f_equal. f_equal. f_equal.
    apply (IH (List.length r1)); [simpl in Hn; lia | lia | exact H5].
Qed.

Lemma base64url_inj (b1 b2 : list byte) :
  Js.toString_base64url b1 = Js.toString_base64url b2 -> b1 = b2.
Proof. apply (base64url_inj_upto (List.length b1)). lia. Qed.

(** *** Hexadecimal ids *)

Lemma hex_of_byte_lower (b : byte) :
  all_chars is_lower_hex (Js.hex_of_byte b) = true.
Proof. destruct b; reflexivity. Qed.

Lemma all_chars_app (p : ascii -> bool) (a b : string) :
  all_chars p (a +:+ b) = all_chars p a && all_chars p b.
Proof.
  induction a as [|c a IH]; [reflexivity|].
  rewrite append_cons. simpl. rewrite IH. apply andb_assoc.
Qed.

Lemma toString_hex_lower (buf : list byte) :
  all_chars is_lower_hex (Js.toString_hex buf) = true.
Proof.
  induction buf as [|b buf IH]; [reflexivity|].
  cbn [Js.toString_hex]. rewrite all_chars_app, hex_of_byte_lower, IH.
  reflexivity.
Qed.

Lemma toString_hex_length (buf : list byte) :
  String.length (Js.toString_hex buf) = 2 * List.length buf.
Proof.
  induction buf as [|b buf IH]; [reflexivity|].
  cbn [Js.toString_hex]. rewrite string_length_app, IH. simpl. lia.
Qed.

Lemma lower_hex_no_dot (s : string) :
  all_chars is_lower_hex s = true -> Js.occurs "." s = false.
Proof.
  induction s as [|c s IH]; [reflexivity|]. simpl.
  intros H. apply andb_prop in H as [Hc Hs]. rewrite (IH Hs), orb_false_r.
  apply Ascii.eqb_neq. intros ->. discriminate Hc.
Qed.

Lemma draw_length (n : nat) (rt : Runtime) : List.length (draw n rt) = n.
Proof. unfold draw. rewrite length_map. apply length_seq. Qed.

(** X4: [generateSessionId] answers with 64 lower-case hexadecimal
    characters and [generateUserId] with 32, whatever the random source
    gives, and they take 32 and 16 bytes from it. *)
Theorem generated_ids_are_hex (w : World) :
  (exists id,
     run_sys generateSessionId w
     = (Ok id, with_runtime w (after_draw 32 (runtime w)))
     /\ String.length id = 64
     /\ all_chars is_lower_hex id = true)
  /\ (exists id,
        run_sys generateUserId w
        = (Ok id, with_runtime w (after_draw 16 (runtime w)))
        /\ String.length id = 32
        /\ all_chars is_lower_hex id = true).
Proof.
  split.
  - exists (Js.toString_hex (draw 32 (runtime w))).
    split; [reflexivity|]. split.
    + rewrite toString_hex_length, draw_length. reflexivity.
    + apply toString_hex_lower.
  - exists (Js.toString_hex (draw 16 (runtime w))).
    split; [reflexivity|]. split.
    + rewrite toString_hex_length, draw_length. reflexivity.
    + apply toString_hex_lower.
Qed.

Section CodecKeys.

Variable hmac_sha256 : string -> string -> list byte.

Hypothesis digest_length :
  forall key data, List.length (hmac_sha256 key data) = 32.

(** The token of a well-formed id signed under [k1], verified under [k2]:
    accepted exactly when the two keys give the id the same digest. *)
Lemma verify_signed_under (s k1 k2 : string) :
  s <> EmptyString -> Js.occurs "." s = false ->
  verifySessionId hmac_sha256 (signSessionId hmac_sha256 s k1) k2
  = if bool_decide (hmac_sha256 k1 s = hmac_sha256 k2 s)
    then Ok (Some s) else Ok None.
Proof.
  intros Hs Hdot. unfold verifySessionId, signSessionId. cbv zeta.
  set (sig1 := Js.toString_base64url (hmac_sha256 k1 s)).
  change (s +:+ "." +:+ sig1) with (s +:+ String "." sig1).
  rewrite (split_app_sep "." s sig1 Hdot).
  rewrite (split_no_sep "." sig1) by apply base64url_no_dot.
  cbn [List.length nth Nat.eqb negb].
  assert (Hsig : Js.falsy sig1 = false).
  { apply base64url_nonempty. intros E.
    pose proof (digest_length k1 s) as L. rewrite E in L. discriminate. }
  apply falsy_false in Hs. rewrite Hs, Hsig. cbn [orb].
  set (sig2 := Js.toString_base64url (hmac_sha256 k2 s)).
  unfold timingSafeEqual.
  destruct (Nat.eqb_spec (List.length (Js.Buffer_from sig1))
                         (List.length (Js.Buffer_from sig2))) as [El|Nl];
    cbn [negb rbind].
  - destruct (bool_decide_reflect (Js.Buffer_from sig1 = Js.Buffer_from sig2))
      as [E|N].
    + apply Buffer_from_inj, base64url_inj in E.
      rewrite bool_decide_eq_true_2 by exact E. reflexivity.
    + rewrite bool_decide_eq_false_2; [reflexivity|].
      intros E. apply N. subst sig1 sig2. rewrite E. reflexivity.
  - rewrite bool_decide_eq_false_2; [reflexivity|].
    intros E. apply Nl. subst sig1 sig2. rewrite E. reflexivity.
Qed.

(** X5: A token signed under one secret verifies under another secret
    exactly when the two secrets give the session id the same HMAC;
    otherwise the answer is [null]. *)
Theorem other_key_accepts_iff_same_digest (s k1 k2 : string) :
  s <> EmptyString -> Js.occurs "." s = false ->
  (verifySessionId hmac_sha256 (signSessionId hmac_sha256 s k1) k2
   = Ok (Some s)
   <-> hmac_sha256 k1 s = hmac_sha256 k2 s)
  /\ (hmac_sha256 k1 s <> hmac_sha256 k2 s ->
      verifySessionId hmac_sha256 (signSessionId hmac_sha256 s k1) k2
      = Ok None).
Proof.
  intros Hs Hdot. rewrite (verify_signed_under s k1 k2 Hs Hdot).
  destruct (bool_decide_reflect (hmac_sha256 k1 s = hmac_sha256 k2 s))
    as [E|N].
  - split; [split; [intros _; exact E | reflexivity] | contradiction].
  - split; [split; [discriminate | contradiction] | reflexivity].
Qed.

(** X6: The token of a freshly generated session id always verifies under
    the secret that signed it: generated ids are never empty and never hold
    the delimiter. *)
Theorem generated_id_token_verifies (w : World) (k : string) :
  exists id w',
    run_sys generateSessionId w = (Ok id, w')
    /\ verifySessionId hmac_sha256 (signSessionId hmac_sha256 id k) k
       = Ok (Some id).
Proof.
  exists (Js.toString_hex (draw 32 (runtime w))). eexists.
  split; [reflexivity|].
  rewrite verify_signed_under.
  - rewrite bool_decide_eq_true_2 by reflexivity. reflexivity.
  - apply falsy_false. apply toString_hex_nonempty. discriminate.
  - apply lower_hex_no_dot, toString_hex_lower.
Qed.

End CodecKeys.

(** ** The credential hasher, continued *)

Lemma Buffer_from_hex_app (buf : list byte) (rest : string) :
  Js.Buffer_from_hex (Js.toString_hex buf +:+ rest)
  = buf ++ Js.Buffer_from_hex rest.
Proof.
  induction buf as [|b buf IH]; [reflexivity|].
  cbn [Js.toString_hex]. rewrite string_app_assoc, Buffer_from_hex_cons, IH.
  reflexivity.
Qed.

Section HasherMore.

Variable scrypt : string -> list byte -> nat -> Result (list byte).

#[local] Arguments draw : simpl never.

Lemma run_sys_hashPassword (password : string) (w : World) :
  run_sys (hashPassword scrypt password) w
  = let salt := draw 16 (runtime w) in
    let w1 := with_runtime w (after_draw 16 (runtime w)) in
    match scrypt password salt 64 with
    | Ok key =>
        (Ok (Js.toString_hex salt +:+ ":" +:+ Js.toString_hex key), w1)
    | Thrown x => (Thrown x, w1)
    end.
Proof.
  unfold hashPassword. cbn. unfold mbind, st_bind. cbn.
  destruct (scrypt password (draw 16 (runtime w)) 64); reflexivity.
Qed.

(** X7: [verifyPassword] answers [true] in exactly one situation: the stored
    hash splits on ":" into two non-empty parts, and [scrypt] of the
    password under the decoded salt succeeds with the decoded key. *)
Theorem verifyPassword_true_iff (password storedHash : string) :
  verifyPassword scrypt password storedHash = true
  <-> exists saltHex hashHex,
        Js.split ":" storedHash = [saltHex; hashHex]
        /\ saltHex <> EmptyString /\ hashHex <> EmptyString
        /\ scrypt password (Js.Buffer_from_hex saltHex) 64
           = Ok (Js.Buffer_from_hex hashHex).
Proof.
  unfold verifyPassword, verifyPassword_try. cbv zeta. split.
  - destruct (Nat.eqb (List.length (Js.split ":" storedHash)) 2) eqn:Hlen;
      cbn [negb orb]; [|discriminate].
    pose proof (two_parts _ Hlen) as Hparts.
    set (a := nth 0 (Js.split ":" storedHash) EmptyString) in *.
    set (b := nth 1 (Js.split ":" storedHash) EmptyString) in *.
    destruct (Js.falsy a) eqn:Ha; cbn [orb]; [discriminate|].
    destruct (Js.falsy b) eqn:Hb; [discriminate|].
    destruct (scrypt password (Js.Buffer_from_hex a) 64) as [key|x] eqn:Hk;
      cbn [rbind try_catch]; [|discriminate].
    unfold timingSafeEqual.
    destruct (Nat.eqb (List.length (Js.Buffer_from_hex b)) (List.length key));
      cbn [try_catch]; [|discriminate].
    intros E. apply bool_decide_eq_true_1 in E. subst key.
    exists a, b. split; [exact Hparts|].
    split; [apply falsy_false; exact Ha|].
    split; [apply falsy_false; exact Hb | exact Hk].
  - intros (a & b & Hs & Ha & Hb & Hk). rewrite Hs.
    cbn [List.length nth Nat.eqb negb orb].
    apply falsy_false in Ha, Hb. rewrite Ha, Hb, Hk. cbn [orb rbind].
    unfold timingSafeEqual. rewrite Nat.eqb_refl. cbn [try_catch].
    apply bool_decide_eq_true_2. reflexivity.
Qed.

(** Against a hash written from a salt and a key, another password passes
    exactly when [scrypt] derives the same key from it: a wrong password is
    rejected unless the key derivation collides. *)
Theorem other_password_passes_iff_same_key
  (password : string) (salt key : list byte) :
  salt <> [] -> key <> [] ->
  (verifyPassword scrypt password
     (Js.toString_hex salt +:+ ":" +:+ Js.toString_hex key) = true
   <-> scrypt password salt 64 = Ok key).
Proof.
  intros Hsalt Hkey. unfold verifyPassword, verifyPassword_try.
  change (Js.toString_hex salt +:+ ":" +:+ Js.toString_hex key)
    with (Js.toString_hex salt +:+ String ":" (Js.toString_hex key)).
  rewrite split_app_sep by apply toString_hex_no_colon.
  rewrite split_no_sep by apply toString_hex_no_colon.
  cbn [List.length nth Nat.eqb negb orb].
  rewrite !toString_hex_nonempty by assumption. cbn [orb].
  rewrite !Buffer_from_hex_toString.
  destruct (scrypt password salt 64) as [key'|x]; cbn [rbind try_catch].
  - unfold timingSafeEqual.
    destruct (Nat.eqb_spec (List.length key) (List.length key')) as [El|Nl];
      cbn [try_catch].
    + rewrite bool_decide_eq_true. split; congruence.
    + split; [discriminate|]. intros [= ->]. contradiction.
  - split; discriminate.
Qed.

(** The parser of the stored hash is lenient: one more character after the
    key, other than ":", is dropped by the hexadecimal decoder, and the
    password still verifies. *)
Theorem verifyPassword_ignores_trailing_character
  (password : string) (salt key : list byte) (c : ascii) :
  salt <> [] -> key <> [] -> c <> ":"%char ->
  scrypt password salt 64 = Ok key ->
  verifyPassword scrypt password
    (Js.toString_hex salt +:+ ":" +:+ Js.toString_hex key
       +:+ String c EmptyString) = true.
Proof.
  intros Hsalt Hkey Hc Hk. unfold verifyPassword, verifyPassword_try.
  set (tail := Js.toString_hex key +:+ String c EmptyString).
  change (Js.toString_hex salt +:+ ":" +:+ tail)
    with (Js.toString_hex salt +:+ String ":" tail).
  assert (Ht : Js.occurs ":" tail = false).
  { unfold tail. rewrite occurs_app, toString_hex_no_colon. simpl.
    apply Ascii.eqb_neq in Hc. rewrite Hc. reflexivity. }
  assert (Hne : Js.falsy tail = false).
  { unfold tail. destruct key as [|b key]; [congruence | reflexivity]. }
  rewrite split_app_sep by apply toString_hex_no_colon.
  rewrite (split_no_sep ":" tail Ht).
  cbn [List.length nth Nat.eqb negb orb].
  rewrite toString_hex_nonempty by assumption. rewrite Hne. cbn [orb].
  rewrite Buffer_from_hex_toString. unfold tail.
  rewrite Buffer_from_hex_app. cbn [Js.Buffer_from_hex]. rewrite app_nil_r.
  rewrite Hk. cbn [rbind]. unfold timingSafeEqual. rewrite Nat.eqb_refl.
  cbn [try_catch]. apply bool_decide_eq_true_2. reflexivity.
Qed.

End HasherMore.

Section HasherHash.

Variable scrypt : string -> list byte -> nat -> Result (list byte).

Hypothesis scrypt_length :
  forall password salt keylen key,
    scrypt password salt keylen = Ok key -> List.length key = keylen.

#[local] Arguments draw : simpl never.

(** X8: A hash returned by [hashPassword] is 32 lower-case hexadecimal
    characters, ":", and 128 more: the salt and the key, 161 characters in
    all and a single delimiter. *)
Theorem hashPassword_format (password h : string) (w w' : World) :
  run_sys (hashPassword scrypt password) w = (Ok h, w') ->
  exists saltHex keyHex,
    h = saltHex +:+ ":" +:+ keyHex
    /\ Js.split ":" h = [saltHex; keyHex]
    /\ String.length saltHex = 32 /\ String.length keyHex = 128
    /\ all_chars is_lower_hex saltHex = true
    /\ all_chars is_lower_hex keyHex = true
    /\ String.length h = 161.
Proof.
  rewrite run_sys_hashPassword. cbv zeta.
  destruct (scrypt password (draw 16 (runtime w)) 64) as [key|x] eqn:Hk;
    [|discriminate].
  intros H.
  assert (Eh : h = Js.toString_hex (draw 16 (runtime w))
                   +:+ ":" +:+ Js.toString_hex key) by congruence.
  clear H. subst h. apply scrypt_length in Hk.
  exists (Js.toString_hex (draw 16 (runtime w))), (Js.toString_hex key).
  split; [reflexivity|]. split.
  { change (Js.toString_hex (draw 16 (runtime w)) +:+ ":" +:+ Js.toString_hex key)
      with (Js.toString_hex (draw 16 (runtime w))
              +:+ String ":" (Js.toString_hex key)).
    rewrite split_app_sep by apply toString_hex_no_colon.
    rewrite split_no_sep by apply toString_hex_no_colon. reflexivity. }
  split; [rewrite toString_hex_length, draw_length; reflexivity|].
  split; [rewrite toString_hex_length, Hk; reflexivity|].
  split; [apply toString_hex_lower|].
  split; [apply toString_hex_lower|].
  rewrite !string_length_app, !toString_hex_length, draw_length, Hk.
  reflexivity.
Qed.

(** X9: A hash returned by [hashPassword] verifies against the password it
    was made from. *)
Theorem hashPassword_then_verifyPassword (password h : string) (w w' : World) :
  run_sys (hashPassword scrypt password) w = (Ok h, w') ->
  verifyPassword scrypt password h = true.
Proof.
  rewrite run_sys_hashPassword. cbv zeta.
  destruct (scrypt password (draw 16 (runtime w)) 64) as [key|x] eqn:Hk;
    [|discriminate].
  intros H.
  assert (Eh : h = Js.toString_hex (draw 16 (runtime w))
                   +:+ ":" +:+ Js.toString_hex key) by congruence.
  clear H. subst h. apply verify_hash_roundtrip.
  - intros E. pose proof (draw_length 16 (runtime w)) as L.
    rewrite E in L. discriminate.
  - intros E. apply scrypt_length in Hk. rewrite E in Hk. discriminate.
  - exact Hk.
Qed.

End HasherHash.

(** ** Durations and the constructor *)

Lemma is_unit_cases (u : string) :
  is_unit u = true ->
  u = "ms" \/ u = "s" \/ u = "m" \/ u = "h" \/ u = "d".
Proof.
  unfold is_unit. intros H.
  repeat (apply orb_prop in H as [H|H]);
    apply String.eqb_eq in H; auto 6.
Qed.

Lemma span_digits_unit (u : string) :
  is_unit u = true -> span_digits u = (EmptyString, u).
Proof.
  intros H. apply is_unit_cases in H as [->|[->|[->|[->| ->]]]]; reflexivity.
Qed.

Lemma span_digits_app (ds u : string) :
  all_chars Js.is_digit ds = true -> is_unit u = true ->
  span_digits (ds +:+ u) = (ds, u).
Proof.
  intros Hd Hu. induction ds as [|c ds IH].
  - apply span_digits_unit. exact Hu.
  - simpl in Hd. apply andb_prop in Hd as [Hc Hd].
    rewrite append_cons. simpl. rewrite Hc, (IH Hd). reflexivity.
Qed.

Lemma span_digits_spec (s d r : string) :
  span_digits s = (d, r) ->
  s = d +:+ r /\ all_chars Js.is_digit d = true.
Proof.
  revert d r. induction s as [|c s IH]; simpl; intros d r H.
  - injection H as <- <-. split; reflexivity.
  - destruct (Js.is_digit c) eqn:Hc.
    + destruct (span_digits s) as [d' r'] eqn:Hs. injection H as <- <-.
      destruct (IH d' r' eq_refl) as [-> Hd].
      split; [reflexivity|]. simpl. rewrite Hc. exact Hd.
    + injection H as <- <-. split; reflexivity.
Qed.

Lemma decimal_acc_nonneg (s : string) (acc : Z) :
  (0 <= acc)%Z -> (0 <= Js.decimal_acc acc s)%Z.
Proof.
  revert acc. induction s as [|c s IH]; simpl; intros acc H; [exact H|].
  apply IH. lia.
Qed.

Lemma decimal_nonneg (s : string) : (0 <= Js.decimal s)%Z.
Proof. apply decimal_acc_nonneg. lia. Qed.

Lemma round_nonneg (m f : Z) :
  (0 <= m)%Z -> (0 <= f)%Z -> Js.leb (Js.Finite 0) (Js.round m f) = true.
Proof.
  intros Hm Hf. unfold Js.round. cbv zeta.
  destruct (2 ^ 2098 <=? _)%Z.
  - cbn [Js.leb]. apply negb_true_iff. apply Z.ltb_ge. exact Hm.
  - cbn [Js.leb]. apply Z.leb_le. rewrite (Z.abs_eq m Hm).
    pose proof (round_magnitude_nonneg m f Hm Hf).
    pose proof (Z.sgn_nonneg m) as [_ S]. specialize (S Hm).
    apply Z.mul_nonneg_nonneg; assumption.
Qed.

Lemma of_int_nonneg (z : Z) :
  (0 <= z)%Z -> Js.leb (Js.Finite 0) (Js.of_int z) = true.
Proof.
  intros Hz. apply round_nonneg; [|lia].
  apply Z.mul_nonneg_nonneg; [exact Hz|]. apply Z.pow_nonneg. lia.
Qed.

Lemma two_53 : (2 ^ 53 = 9007199254740992)%Z.
Proof. reflexivity. Qed.

(** A number that is not negative, times a positive integer below 2^53, is
    not negative, and not [NaN]. *)
Lemma mul_nonneg (a : Js.Number) (k : Z) :
  (0 < k < 2 ^ 53)%Z ->
  Js.leb (Js.Finite 0) a = true ->
  Js.leb (Js.Finite 0) (a * Js.of_int k)%num = true.
Proof.
  intros Hk Ha. rewrite (of_int_exact k) by lia.
  assert (Sc : (0 < Js.scale)%Z) by (apply Z.pow_pos_nonneg; lia).
  assert (Pk : (0 < k * Js.scale)%Z) by (apply Z.mul_pos_pos; lia).
  destruct a as [|neg|x]; [discriminate Ha | |].
  - cbn [Js.leb] in Ha. apply negb_true_iff in Ha. subst neg. unfold Js.mul.
    destruct (Z.eqb_spec (k * Js.scale) 0) as [E|_]; [lia|].
    destruct (Z.ltb_spec (k * Js.scale) 0) as [L|_]; [lia | reflexivity].
  - cbn [Js.leb] in Ha. apply Z.leb_le in Ha. unfold Js.mul.
    apply round_nonneg; [|lia]. apply Z.mul_nonneg_nonneg; lia.
Qed.

(** The product of an integer and an integer literal, when it stays below
    2^53. *)
Lemma mul_literal_exact (a k : Z) :
  (0 <= a)%Z -> (0 < k < 2 ^ 53)%Z -> (a * k < 2 ^ 53)%Z ->
  (Js.Finite (a * Js.scale) * Js.of_int k)%num = Js.Finite (a * k * Js.scale).
Proof.
  intros Ha Hk Hak. rewrite (of_int_exact k) by lia.
  apply mul_int_exact. rewrite Z.abs_eq; [exact Hak | nia].
Qed.

Lemma in_milliseconds_unit (value : Js.Number) :
  in_milliseconds value "ms" = value
  /\ in_milliseconds value "s" = (value * 1000)%num
  /\ in_milliseconds value "m" = (value * 60 * 1000)%num
  /\ in_milliseconds value "h" = (value * 60 * 60 * 1000)%num
  /\ in_milliseconds value "d" = (value * 24 * 60 * 60 * 1000)%num.
Proof. repeat split. Qed.

(** Below 2^53 milliseconds the products of [parseDuration] are exact. *)
Lemma in_milliseconds_exact (digits u : string) :
  is_unit u = true ->
  (Js.decimal digits * duration_factor u < 2 ^ 53)%Z ->
  in_milliseconds (Js.parseInt digits) u
  = Js.of_int (Js.decimal digits * duration_factor u).
Proof.
  intros Hu Hlt. pose proof (decimal_nonneg digits) as Hv.
  unfold Js.parseInt. set (v := Js.decimal digits) in *.
  pose proof two_53 as T.
  destruct (in_milliseconds_unit (Js.of_int v)) as (E1 & E2 & E3 & E4 & E5).
  apply is_unit_cases in Hu as [->|[->|[->|[->| ->]]]].
  - rewrite E1. change (duration_factor "ms") with 1%Z.
    rewrite Z.mul_1_r. reflexivity.
  - rewrite E2. change (duration_factor "s") with 1000%Z in *.
    rewrite (of_int_exact v), (of_int_exact (v * 1000)) by lia.
    apply mul_literal_exact; lia.
  - rewrite E3. change (duration_factor "m") with 60000%Z in *.
    rewrite (of_int_exact v), (of_int_exact (v * 60000)) by lia.
    rewrite !mul_literal_exact by lia. f_equal. ring.
  - rewrite E4. change (duration_factor "h") with 3600000%Z in *.
    rewrite (of_int_exact v), (of_int_exact (v * 3600000)) by lia.
    rewrite !mul_literal_exact by lia. f_equal. ring.
  - rewrite E5. change (duration_factor "d") with 86400000%Z in *.
    rewrite (of_int_exact v), (of_int_exact (v * 86400000)) by lia.
    rewrite !mul_literal_exact by lia. f_equal. ring.
Qed.

(** What [parseDuration] computes is a number, and not a negative one. *)
Lemma in_milliseconds_nonneg (digits u : string) :
  is_unit u = true ->
  Js.leb (Js.Finite 0) (in_milliseconds (Js.parseInt digits) u) = true.
Proof.
  intros Hu. pose proof (of_int_nonneg _ (decimal_nonneg digits)) as Hv.
  fold (Js.parseInt digits) in Hv. pose proof two_53 as T.
  destruct (in_milliseconds_unit (Js.parseInt digits))
    as (E1 & E2 & E3 & E4 & E5).
  apply is_unit_cases in Hu as [->|[->|[->|[->| ->]]]].
  - rewrite E1. exact Hv.
  - rewrite E2. apply mul_nonneg; [lia | exact Hv].
  - rewrite E3. repeat (apply mul_nonneg; [lia|]). exact Hv.
  - rewrite E4. repeat (apply mul_nonneg; [lia|]). exact Hv.
  - rewrite E5. repeat (apply mul_nonneg; [lia|]). exact Hv.
Qed.

Lemma parseDuration_unit (digits u : string) :
  is_unit u = true ->
  parseDuration (DurationString (digits +:+ u))
  = match match_duration (digits +:+ u) with
    | Some (d, u') => Ok (in_milliseconds (Js.parseInt d) u')
    | None =>
        Thrown (Lib (ConfigurationError
                       ("Invalid duration format: " +:+ (digits +:+ u))))
    end.
Proof.
  intros Hu. unfold parseDuration.
  destruct (match_duration (digits +:+ u)) as [[d u']|] eqn:Hm;
    [|reflexivity].
  unfold match_duration in Hm.
  destruct (span_digits (digits +:+ u)) as [d0 u0].
  destruct (Js.falsy d0); [discriminate|].
  destruct (is_unit u0) eqn:Hu0; [|discriminate].
  injection Hm as <- <-.
  apply is_unit_cases in Hu0 as [->|[->|[->|[->| ->]]]]; reflexivity.
Qed.

Lemma parseDuration_literal_aux (digits u : string) :
  digits <> EmptyString ->
  all_chars Js.is_digit digits = true ->
  is_unit u = true ->
  parseDuration (DurationString (digits +:+ u))
  = Ok (in_milliseconds (Js.parseInt digits) u).
Proof.
  intros Hne Hd Hu. rewrite (parseDuration_unit digits u Hu).
  unfold match_duration. rewrite (span_digits_app digits u Hd Hu).
  apply falsy_false in Hne. rewrite Hne, Hu. reflexivity.
Qed.

(** A duration literal made of decimal digits and one of the units [ms],
    [s], [m], [h], [d] parses to the number written times the factors of
    the unit, in doubles. *)
Theorem parseDuration_literal (digits u : string) :
  digits <> EmptyString ->
  all_chars Js.is_digit digits = true ->
  is_unit u = true ->
  parseDuration (DurationString (digits +:+ u))
  = Ok (in_milliseconds (Js.parseInt digits) u).
Proof. apply parseDuration_literal_aux. Qed.

(** X10: When [parseDuration] accepts a string, the string is decimal
    digits followed by a unit.  The result is the double nearest to the
    number written, multiplied in doubles by the factors of the unit: it is
    a number and not a negative one, and it is exactly the number of
    milliseconds written when that is below 2^53. *)
Theorem parseDuration_string_accepted (s : string) (v : Js.Number) :
  parseDuration (DurationString s) = Ok v ->
  exists digits u,
    s = digits +:+ u
    /\ digits <> EmptyString
    /\ all_chars Js.is_digit digits = true
    /\ is_unit u = true
    /\ v = in_milliseconds (Js.parseInt digits) u
    /\ Js.leb (Js.of_int 0) v = true
    /\ ((Js.decimal digits * duration_factor u < 2 ^ 53)%Z ->
        v = Js.of_int (Js.decimal digits * duration_factor u)).
Proof.
  intros H.
  destruct (span_digits s) as [d u] eqn:Hs.
  destruct (span_digits_spec s d u Hs) as [-> Hd].
  assert (Hm : match_duration (d +:+ u)
               = if Js.falsy d then None
                 else if is_unit u then Some (d, u) else None).
  { unfold match_duration. rewrite Hs. reflexivity. }
  destruct (Js.falsy d) eqn:Hf.
  { unfold parseDuration in H. rewrite Hm in H. discriminate. }
  destruct (is_unit u) eqn:Hu.
  2:{ unfold parseDuration in H. rewrite Hm in H. discriminate. }
  rewrite (parseDuration_unit d u Hu), Hm in H.
  assert (E : v = in_milliseconds (Js.parseInt d) u) by congruence.
  exists d, u. split; [reflexivity|].
  split; [apply falsy_false; exact Hf|].
  split; [exact Hd|]. split; [exact Hu|]. split; [exact E|].
  subst v. split.
  - apply (in_milliseconds_nonneg d u Hu).
  - intros Hlt. apply in_milliseconds_exact; [exact Hu | exact Hlt].
Qed.

Lemma parseDuration_throws (d : Duration) (x : Exn) :
  parseDuration d = Thrown x ->
  exists s,
    d = DurationString s
    /\ x = Lib (ConfigurationError ("Invalid duration format: " +:+ s)).
Proof.
  destruct d as [s|n]; [|discriminate]. intros H. exists s.
  split; [reflexivity|].
  unfold parseDuration, match_duration in H.
  destruct (span_digits s) as [ds u].
  destruct (Js.falsy ds); [congruence|].
  destruct (is_unit u) eqn:Hu; [|congruence].
  apply is_unit_cases in Hu as [->|[->|[->|[->| ->]]]]; discriminate H.
Qed.

(** X11: [parseDuration] never throws on a number, and on a string the only
    error is [ConfigurationError] with the message "Invalid duration format:
    " followed by the string: the "Unknown duration unit" branch of the
    [switch] is never reached. *)
Theorem parseDuration_only_error (d : Duration) (x : Exn) :
  parseDuration d = Thrown x ->
  (exists s,
     d = DurationString s
     /\ x = Lib (ConfigurationError ("Invalid duration format: " +:+ s)))
  /\ (forall u, x <> Lib (ConfigurationError ("Unknown duration unit: " +:+ u))).
Proof.
  intros H. destruct (parseDuration_throws d x H) as (s & -> & ->).
  split; [exists s; split; reflexivity|].
  intros u E. discriminate E.
Qed.

(** X12: The constructor throws nothing but [ConfigurationError]: for a
    missing secret, a missing [db], no enabled method, or a duration literal
    that does not parse. *)
Theorem constructor_throws_only_ConfigurationError
  (c : FineAuthConfig) (x : Exn) :
  new_FineAuth c = Thrown x ->
  exists message, x = Lib (ConfigurationError message).
Proof.
  unfold new_FineAuth.
  destruct (Js.falsy (secret c)); [intros [= <-]; eexists; reflexivity|].
  destruct (negb (db c)); [intros [= <-]; eexists; reflexivity|].
  destruct (match method c with
            | Some m => negb (default false (Method.email m))
            | None => true
            end); [intros [= <-]; eexists; reflexivity|].
  destruct (truthy_expiresIn c) as [d|].
  - destruct (parseDuration d) as [ms|y] eqn:Hd; cbn [rbind]; [discriminate|].
    intros [= <-]. destruct (parseDuration_throws d y Hd) as (s & _ & ->).
    eexists. reflexivity.
  - cbn. discriminate.
Qed.

(** The default of the constructor: seven days. *)
Lemma parseDuration_7d :
  parseDuration (DurationString "7d") = Ok (Js.of_int 604800000).
Proof. vm_compute. reflexivity. Qed.

(** X13: When the constructor returns, the configuration was complete: the
    secret is not empty, [db] was supplied and the email method is enabled.
    The instance keeps the configuration, and its time to live is what
    [parseDuration] returns for [expiresIn] when that is truthy, and seven
    days otherwise. *)
Theorem constructor_success (c : FineAuthConfig) (this : FineAuth) :
  new_FineAuth c = Ok this ->
  config this = c
  /\ secret c <> EmptyString
  /\ db c = true
  /\ (exists m, method c = Some m /\ Method.email m = Some true)
  /\ match truthy_expiresIn c with
     | Some d => parseDuration d = Ok (sessionExpiresIn this)
     | None => sessionExpiresIn this = Js.of_int 604800000
     end.
Proof.
  unfold new_FineAuth.
  destruct (Js.falsy (secret c)) eqn:Hs; [discriminate|].
  destruct (db c) eqn:Hdb; cbn [negb]; [|discriminate].
  destruct (method c) as [m|] eqn:Hm; [|discriminate].
  destruct (Method.email m) as [[|]|] eqn:He; cbn [default negb];
    try discriminate.
  intros H.
  assert (G : config this = c
              /\ match truthy_expiresIn c with
                 | Some d => parseDuration d = Ok (sessionExpiresIn this)
                 | None => sessionExpiresIn this = Js.of_int 604800000
                 end).
  { destruct (truthy_expiresIn c) as [d|].
    - destruct (parseDuration d) as [ms|y]; cbn [rbind] in H; [|discriminate].
      injection H as <-. split; reflexivity.
    - rewrite parseDuration_7d in H. cbn [rbind] in H.
      injection H as <-. split; reflexivity. }
  destruct G as [G1 G2].
  split; [exact G1|]. split; [apply falsy_false; exact Hs|].
  split; [reflexivity|]. split; [|exact G2].
  exists m. split; [reflexivity | exact He].
Qed.

(** X14: A string given as [expiresIn] is read when the instance is built:
    the empty string is falsy and gives the default of seven days; digits
    and a unit give the number written times the factors of the unit, in
    doubles, which is exactly that number of milliseconds when it is below
    2^53; any other string makes the constructor throw
    [ConfigurationError]. *)
Theorem constructor_duration_literal (c : FineAuthConfig) (s : string) :
  secret c <> EmptyString ->
  db c = true ->
  method c = Some {| Method.email := Some true |} ->
  session c = Some {| expiresIn := Some (DurationString s) |} ->
  (s = EmptyString ->
   new_FineAuth c
   = Ok {| config := c; sessionExpiresIn := Js.of_int 604800000 |})
  /\ (forall digits u,
        s = digits +:+ u -> digits <> EmptyString ->
        all_chars Js.is_digit digits = true -> is_unit u = true ->
        new_FineAuth c
        = Ok {| config := c;
                sessionExpiresIn := in_milliseconds (Js.parseInt digits) u |}
        /\ ((Js.decimal digits * duration_factor u < 2 ^ 53)%Z ->
            new_FineAuth c
            = Ok {| config := c;
                    sessionExpiresIn :=
                      Js.of_int (Js.decimal digits * duration_factor u) |}))
  /\ (s <> EmptyString -> match_duration s = None ->
      new_FineAuth c
      = Thrown (Lib (ConfigurationError
                       ("Invalid duration format: " +:+ s)))).
Proof.
  intros Hsec Hdb Hm Hs.
  assert (Hnew : new_FineAuth c
                 = rbind (if Js.falsy s
                          then parseDuration (DurationString "7d")
                          else parseDuration (DurationString s))
                     (fun ms => Ok {| config := c; sessionExpiresIn := ms |})).
  { unfold new_FineAuth, truthy_expiresIn.
    apply falsy_false in Hsec. rewrite Hsec, Hdb, Hm, Hs.
    cbn [negb default Method.email expiresIn].
    destruct (Js.falsy s); reflexivity. }
  split; [|split].
  - intros ->. rewrite Hnew. cbn [Js.falsy]. rewrite parseDuration_7d.
    reflexivity.
  - intros digits u -> Hne Hd Hu.
    assert (F : Js.falsy (digits +:+ u) = false).
    { destruct digits; [congruence | reflexivity]. }
    assert (E : new_FineAuth c
                = Ok {| config := c;
                        sessionExpiresIn :=
                          in_milliseconds (Js.parseInt digits) u |}).
    { rewrite Hnew, F, (parseDuration_literal_aux digits u Hne Hd Hu).
      reflexivity. }
    split; [exact E|]. intros Hlt.
    rewrite E, (in_milliseconds_exact digits u Hu Hlt). reflexivity.
  - intros Hne Hmd. rewrite Hnew. apply falsy_false in Hne. rewrite Hne.
    unfold parseDuration. rewrite Hmd. reflexivity.
Qed.

(** ** The in-memory adapter, continued *)

Section AdapterMore.

Context {prototype : Js.StringPrototype}.

Lemma run_DeleteUserSessions {A} uid (k : unit -> AppProg A) w :
  run (Vis (Db (DeleteUserSessions uid)) k) w
  = run (k tt) (with_store w (remove_user_sessions (store w) uid)).
Proof. reflexivity. Qed.

Lemma run_Vis {A} (c : AppCall) (k : AppResp c -> AppProg A) w r w1 :
  app_handle c w = (Ok r, w1) -> run (Vis c k) w = run (k r) w1.
Proof. intros E. cbn. unfold mbind, st_bind. rewrite E. reflexivity. Qed.

Lemma createUser_eq (email hashed : string) (w : World) :
  Memory.createUser email hashed w
  = let user :=
      {| User.id := Js.toString_hex (draw 16 (runtime w));
         User.email := email; User.hashedPassword := hashed;
         User.createdAt := Some (clock (runtime w) 0) |} in
    (Ok user,
     {| store := add_user (store w) user;
        runtime := after_tick (after_draw 16 (runtime w)) |}).
Proof. reflexivity. Qed.

Lemma createSession_eq (id uid : string) (expires : Js.Date) (w : World) :
  Memory.createSession id uid expires w
  = let session :=
      {| Session.id := id; Session.userId := uid;
         Session.expiresAt := expires;
         Session.createdAt := Some (clock (runtime w) 0) |} in
    (Ok session,
     {| store := add_session (store w) session;
        runtime := after_tick (runtime w) |}).
Proof. reflexivity. Qed.

Lemma getUserByEmail_eq (email : string) (w : World) :
  Memory.getUserByEmail email w = (Ok (find_by_email (store w) email), w).
Proof.
  unfold Memory.getUserByEmail, find_by_email, mbind, st_bind, get_store.
  destruct (emailIndex (store w) !! _) as [uid|]; [|reflexivity].
  destruct (Js.falsy uid); reflexivity.
Qed.

Lemma well_formed_empty : well_formed empty_db.
Proof.
  split; [|split]; intros ? ? H; cbn in H; rewrite lookup_empty in H;
    discriminate.
Qed.

Lemma well_formed_add_user (d : MemoryDb) (u : User) :
  well_formed d -> well_formed (add_user d u).
Proof.
  intros (Hu & Hs & He). split; [|split]; cbn.
  - intros k v H. apply lookup_insert_Some in H as [[<- <-]|[_ H]];
      [reflexivity | exact (Hu k v H)].
  - exact Hs.
  - intros e uid H. apply lookup_insert_is_Some'.
    apply lookup_insert_Some in H as [[_ <-]|[_ H]];
      [left; reflexivity | right; exact (He e uid H)].
Qed.

Lemma well_formed_add_session (d : MemoryDb) (s : Session) :
  well_formed d -> well_formed (add_session d s).
Proof.
  intros (Hu & Hs & He). split; [|split]; cbn; [exact Hu | | exact He].
  intros k v H. apply lookup_insert_Some in H as [[<- <-]|[_ H]];
    [reflexivity | exact (Hs k v H)].
Qed.

Lemma well_formed_remove_session (d : MemoryDb) (id : string) :
  well_formed d -> well_formed (remove_session d id).
Proof.
  intros (Hu & Hs & He). split; [|split]; cbn; [exact Hu | | exact He].
  intros k v H. apply lookup_delete_Some in H as [_ H]. exact (Hs k v H).
Qed.

Lemma well_formed_remove_user_sessions (d : MemoryDb) (uid : string) :
  well_formed d -> well_formed (remove_user_sessions d uid).
Proof.
  intros (Hu & Hs & He). split; [|split]; cbn; [exact Hu | | exact He].
  intros k v H. apply map_lookup_filter_Some in H as [H _]. exact (Hs k v H).
Qed.

(** What each call does to the store of the in-memory adapter. *)
Lemma app_handle_store (c : AppCall) (w : World) :
  exists r w1,
    app_handle c w = (Ok r, w1)
    /\ match c with
       | Db (CreateUser _ _) => exists u, store w1 = add_user (store w) u
       | Db (CreateSession _ _ _) =>
           exists s, store w1 = add_session (store w) s
       | Db (DeleteSession id) => store w1 = remove_session (store w) id
       | Db (DeleteUserSessions uid) =>
           store w1 = remove_user_sessions (store w) uid
       | _ => store w1 = store w
       end.
Proof.
  destruct c as [[|n]|[e h|e|i|i u x|i|i|u]].
  - eexists _, _. split; reflexivity.
  - eexists _, _. split; reflexivity.
  - eexists _, _. split; [apply createUser_eq|]. eexists. reflexivity.
  - exists (find_by_email (store w) e), w.
    split; [apply getUserByEmail_eq | reflexivity].
  - eexists _, _. split; reflexivity.
  - eexists _, _. split; [apply createSession_eq|]. eexists. reflexivity.
  - eexists _, _. split; reflexivity.
  - eexists _, _. split; reflexivity.
  - eexists _, _. split; reflexivity.
Qed.

(** X15: Every operation keeps the store well formed: whatever program of
    calls is run against the in-memory adapter, users and sessions stay
    filed under their own ids and the email index keeps pointing at stored
    users. *)
Theorem well_formed_kept {A} (p : AppProg A) (w : World) :
  well_formed (store w) -> well_formed (store (snd (run p w))).
Proof.
  revert w. induction p as [a|x|c k IH]; intros w Hw; [exact Hw | exact Hw |].
  destruct (app_handle_store c w) as (r & w1 & E & Hst).
  rewrite (run_Vis c k w r w1 E). apply IH.
  destruct c as [[|n]|[e h|e|i|i u x|i|i|u]];
    try (rewrite Hst; assumption).
  - destruct Hst as [v ->]. apply well_formed_add_user, Hw.
  - destruct Hst as [v ->]. apply well_formed_add_session, Hw.
  - rewrite Hst. apply well_formed_remove_session, Hw.
  - rewrite Hst. apply well_formed_remove_user_sessions, Hw.
Qed.

(** X16: No operation removes a user or an entry of the email index: an id
    that has a user keeps one, and an indexed email stays indexed, whatever
    program of calls is run. *)
Theorem users_are_never_removed {A} (p : AppProg A) (w : World) :
  (forall k, is_Some (users (store w) !! k) ->
             is_Some (users (store (snd (run p w))) !! k))
  /\ (forall e, is_Some (emailIndex (store w) !! e) ->
                is_Some (emailIndex (store (snd (run p w))) !! e)).
Proof.
  revert w. induction p as [a|x|c k IH]; intros w;
    [split; intros; assumption | split; intros; assumption |].
  destruct (app_handle_store c w) as (r & w1 & E & Hst).
  rewrite (run_Vis c k w r w1 E). destruct (IH r w1) as [IHu IHe].
  assert (G : (forall j, is_Some (users (store w) !! j) ->
                         is_Some (users (store w1) !! j))
              /\ (forall e, is_Some (emailIndex (store w) !! e) ->
                            is_Some (emailIndex (store w1) !! e))).
  { destruct c as [[|n]|[e h|e|i|i u x|i|i|u]];
      try (rewrite Hst; split; intros; assumption).
    - destruct Hst as [v ->]. cbn. split; intros j Hj;
        apply lookup_insert_is_Some'; right; exact Hj.
    - destruct Hst as [v ->]. cbn. split; intros; assumption. }
  destruct G as [Gu Ge]. split.
  - intros j Hj. apply IHu, Gu, Hj.
  - intros e He. apply IHe, Ge, He.
Qed.

(** X17: [createUser] and the two lookups: the user it returns has a
    32-character id, the email and the hash it was given, and is then found
    by its id and by every email that [toLowerCase] maps to the same string
    as its own. *)
Theorem createUser_then_lookup
  (email hashed : string) (w w1 : World) (u : User) :
  Memory.createUser email hashed w = (Ok u, w1) ->
  User.email u = email
  /\ User.hashedPassword u = hashed
  /\ String.length (User.id u) = 32
  /\ Memory.getUserById (User.id u) w1 = (Ok (Some u), w1)
  /\ forall email',
       Js.toLowerCase email' = Js.toLowerCase email ->
       Memory.getUserByEmail email' w1 = (Ok (Some u), w1).
Proof.
  rewrite createUser_eq. cbv zeta. intros H.
  assert (Eu : u = {| User.id := Js.toString_hex (draw 16 (runtime w));
                      User.email := email; User.hashedPassword := hashed;
                      User.createdAt := Some (clock (runtime w) 0) |})
    by congruence.
  assert (Ew : w1 = {| store := add_user (store w) u;
                       runtime := after_tick (after_draw 16 (runtime w)) |})
    by congruence.
  clear H. split; [subst u; reflexivity|]. split; [subst u; reflexivity|].
  split.
  { subst u. cbn [User.id]. rewrite toString_hex_length, draw_length.
    reflexivity. }
  split.
  - rewrite Ew. unfold Memory.getUserById, mbind, st_bind, get_store. cbn.
    rewrite lookup_insert_eq. reflexivity.
  - intros email' He. rewrite getUserByEmail_eq, Ew. cbn [store].
    f_equal. unfold find_by_email. rewrite He. cbn.
    replace (User.email u) with email by (subst u; reflexivity).
    rewrite lookup_insert_eq.
    replace (Js.falsy (User.id u)) with false by (subst u; reflexivity).
    rewrite lookup_insert_eq. reflexivity.
Qed.

(** X18: The adapter does not keep emails unique: a second [createUser] with
    an email that [toLowerCase] maps to the same string takes the index
    entry over.  The first user is still found by id, and no longer by
    email. *)
Theorem createUser_same_email_takes_over
  (email email' h1 h2 : string) (w w1 w2 : World) (u1 u2 : User) :
  Memory.createUser email h1 w = (Ok u1, w1) ->
  Memory.createUser email' h2 w1 = (Ok u2, w2) ->
  Js.toLowerCase email' = Js.toLowerCase email ->
  User.id u1 <> User.id u2 ->
  Memory.getUserByEmail email w2 = (Ok (Some u2), w2)
  /\ Memory.getUserById (User.id u1) w2 = (Ok (Some u1), w2)
  /\ Memory.getUserById (User.id u2) w2 = (Ok (Some u2), w2).
Proof.
  rewrite !createUser_eq. cbv zeta. intros H1 H2 He Hne.
  assert (E1 : w1 = {| store := add_user (store w) u1;
                       runtime := after_tick (after_draw 16 (runtime w)) |})
    by congruence.
  assert (E2 : w2 = {| store := add_user (store w1) u2;
                       runtime := after_tick (after_draw 16 (runtime w1)) |})
    by congruence.
  assert (Em1 : User.email u1 = email) by (injection H1 as <- _; reflexivity).
  assert (Em2 : User.email u2 = email') by (injection H2 as <- _; reflexivity).
  assert (F2 : Js.falsy (User.id u2) = false)
    by (injection H2 as <- _; reflexivity).
  clear H1 H2. split; [|split].
  - rewrite getUserByEmail_eq. f_equal. rewrite E2. cbn [store].
    unfold find_by_email, add_user at 1. cbn.
    rewrite Em2, He, lookup_insert_eq, F2, lookup_insert_eq. reflexivity.
  - unfold Memory.getUserById, mbind, st_bind, get_store. cbn.
    rewrite E2, E1. cbn. rewrite lookup_insert_ne by congruence.
    rewrite lookup_insert_eq. reflexivity.
  - unfold Memory.getUserById, mbind, st_bind, get_store. cbn.
    rewrite E2. cbn. rewrite lookup_insert_eq. reflexivity.
Qed.

(** X19: [createSession], [getSession] and [deleteSession]: a created
    session is found under its id with the fields it was given, replacing
    whatever was filed there; the other sessions are not touched; once
    deleted it is no longer found. *)
Theorem session_store_round_trip
  (id uid : string) (expires : Js.Date) (w w1 : World) (s : Session) :
  Memory.createSession id uid expires w = (Ok s, w1) ->
  Session.id s = id /\ Session.userId s = uid /\ Session.expiresAt s = expires
  /\ Memory.getSession id w1 = (Ok (Some s), w1)
  /\ (forall id', id' <> id ->
        fst (Memory.getSession id' w1) = fst (Memory.getSession id' w))
  /\ (forall w2, Memory.deleteSession id w1 = (Ok tt, w2) ->
        Memory.getSession id w2 = (Ok None, w2)).
Proof.
  rewrite createSession_eq. cbv zeta. intros H.
  assert (Es : s = {| Session.id := id; Session.userId := uid;
                      Session.expiresAt := expires;
                      Session.createdAt := Some (clock (runtime w) 0) |})
    by congruence.
  assert (Ew : w1 = {| store := add_session (store w) s;
                       runtime := after_tick (runtime w) |}) by congruence.
  clear H.
  split; [subst s; reflexivity|]. split; [subst s; reflexivity|].
  split; [subst s; reflexivity|].
  assert (Ei : Session.id s = id) by (subst s; reflexivity).
  unfold Memory.getSession, Memory.deleteSession, mbind, st_bind, get_store,
    put_store.
  cbn. split; [|split].
  - rewrite Ew. cbn. rewrite Ei, lookup_insert_eq. reflexivity.
  - intros id' Hne. rewrite Ew. cbn. rewrite Ei.
    rewrite lookup_insert_ne by congruence. reflexivity.
  - intros w2 [= <-]. cbn. rewrite lookup_delete_eq. reflexivity.
Qed.

End AdapterMore.

(** ** The session lifecycle, continued *)

Section ValidateMore.

Context {prototype : Js.StringPrototype}.

#[local] Arguments run : simpl never.

(** [validateSession] against the in-memory adapter, case by case. *)
Lemma run_validateSession (this : FineAuth) (sessionId : string) (w : World) :
  run (validateSession this sessionId) w
  = match sessions (store w) !! sessionId with
    | None => (Ok None, w)
    | Some s =>
        let w1 := {| store := remove_session (store w) sessionId;
                     runtime := after_tick (runtime w) |} in
        if Js.Date_gt (Some (clock (runtime w) 0)) (Session.expiresAt s)
        then (Ok None, w1)
        else match users (store w) !! Session.userId s with
             | Some u =>
                 (Ok (Some {| Validated.user := toSafeUser u;
                              Validated.session := s |}),
                  {| store := store w; runtime := after_tick (runtime w) |})
             | None => (Ok None, w1)
             end
    end.
Proof.
  unfold validateSession. cbn. rewrite run_GetSession.
  destruct (sessions (store w) !! sessionId) as [s|]; [|reflexivity].
  cbn. rewrite run_DateNow.
  change (match Session.expiresAt s with
          | Some y => (y <? clock (runtime w) 0)%Z
          | None => false
          end)
    with (Js.Date_gt (Some (clock (runtime w) 0)) (Session.expiresAt s)).
  destruct (Js.Date_gt _ _).
  - rewrite run_DeleteSession. reflexivity.
  - rewrite run_GetUserById. cbn.
    destruct (users (store w) !! Session.userId s); [reflexivity|].
    rewrite run_DeleteSession. reflexivity.
Qed.

(** X20: When [validateSession] answers with a user and a session, that
    session was stored under the id given, the clock had not passed its
    [expiresAt], its user was stored, the user answered is that user without
    the hash, and the store is left as it was. *)
Theorem validateSession_accepts_only_live_sessions
  (this : FineAuth) (sessionId : string) (w w1 : World) (v : Validated) :
  run (validateSession this sessionId) w = (Ok (Some v), w1) ->
  sessions (store w) !! sessionId = Some (Validated.session v)
  /\ Js.Date_gt (Some (clock (runtime w) 0))
                (Session.expiresAt (Validated.session v)) = false
  /\ (exists u,
        users (store w) !! Session.userId (Validated.session v) = Some u
        /\ Validated.user v = toSafeUser u)
  /\ store w1 = store w.
Proof.
  rewrite run_validateSession.
  destruct (sessions (store w) !! sessionId) as [s|]; [|discriminate].
  cbv zeta. destruct (Js.Date_gt _ _) eqn:Hgt; [discriminate|].
  destruct (users (store w) !! Session.userId s) as [u|] eqn:Hu;
    [|discriminate].
  intros H. assert (Ev : v = {| Validated.user := toSafeUser u;
                                Validated.session := s |}) by congruence.
  assert (Ew : w1 = {| store := store w; runtime := after_tick (runtime w) |})
    by congruence.
  subst v w1. cbn. split; [reflexivity|]. split; [exact Hgt|].
  split; [|reflexivity]. exists u. split; [exact Hu | reflexivity].
Qed.

(** X21: [validateSession] never throws against the in-memory adapter and
    touches nothing but the session it was asked about: users, the email
    index and every other session are as before, and when the answer is not
    [null] the whole store is. *)
Theorem validateSession_touches_one_session
  (this : FineAuth) (sessionId : string) (w : World) :
  exists res w1,
    run (validateSession this sessionId) w = (Ok res, w1)
    /\ users (store w1) = users (store w)
    /\ emailIndex (store w1) = emailIndex (store w)
    /\ (forall k, k <> sessionId ->
          sessions (store w1) !! k = sessions (store w) !! k)
    /\ (sessions (store w1) !! sessionId = None
        \/ sessions (store w1) !! sessionId = sessions (store w) !! sessionId)
    /\ (res <> None -> store w1 = store w).
Proof.
  rewrite run_validateSession.
  assert (R : forall w0 : World,
             store w0 = remove_session (store w) sessionId ->
             users (store w0) = users (store w)
             /\ emailIndex (store w0) = emailIndex (store w)
             /\ (forall k, k <> sessionId ->
                   sessions (store w0) !! k = sessions (store w) !! k)
             /\ sessions (store w0) !! sessionId = None).
  { intros w0 ->. cbn. split; [reflexivity|]. split; [reflexivity|]. split.
    - intros k Hk. apply lookup_delete_ne. congruence.
    - apply lookup_delete_eq. }
  destruct (sessions (store w) !! sessionId) as [s|] eqn:Hs.
  - cbv zeta. destruct (Js.Date_gt _ _).
    + eexists _, _. split; [reflexivity|].
      destruct (R {| store := remove_session (store w) sessionId;
                     runtime := after_tick (runtime w) |} eq_refl)
        as (A1 & A2 & A3 & A4).
      split; [exact A1|]. split; [exact A2|]. split; [exact A3|].
      split; [left; exact A4|]. intros N. contradiction.
    + destruct (users (store w) !! Session.userId s).
      * eexists _, _. split; [reflexivity|]. cbn.
        split; [reflexivity|]. split; [reflexivity|].
        split; [reflexivity|]. split; [right; exact Hs | reflexivity].
      * eexists _, _. split; [reflexivity|].
        destruct (R {| store := remove_session (store w) sessionId;
                       runtime := after_tick (runtime w) |} eq_refl)
          as (A1 & A2 & A3 & A4).
        split; [exact A1|]. split; [exact A2|]. split; [exact A3|].
        split; [left; exact A4|]. intros N. contradiction.
  - eexists _, _. split; [reflexivity|].
    split; [reflexivity|]. split; [reflexivity|].
    split; [reflexivity|]. split; [right; exact Hs | reflexivity].
Qed.

(** X22: Whatever the adapter answers, the only write [validateSession]
    makes is [deleteSession] of the id it was given. *)
Theorem validateSession_only_deletes_its_session
  (this : FineAuth) (sessionId : string) (t : list (Step AppCall AppResp))
  (o : Result SessionValidationResult) (c : AppCall) :
  path (validateSession this sessionId) t o ->
  In c (calls t) -> is_write c = true ->
  c = Db (DeleteSession sessionId).
Proof.
  intros H Hin Hw. unfold validateSession in H. path_step H.
  destruct r as [s|].
  - path_step H.
    destruct (Session.expiresAt s) as [te|]; [destruct (te <? r)%Z|].
    + do 2 path_step H. cbn in Hin.
      destruct Hin as [<-|[<-|[<-|[]]]]; try discriminate Hw. reflexivity.
    + path_step H. destruct r0 as [u|].
      * path_step H. cbn in Hin.
        destruct Hin as [<-|[<-|[<-|[]]]]; discriminate Hw.
      * do 2 path_step H. cbn in Hin.
        destruct Hin as [<-|[<-|[<-|[<-|[]]]]]; try discriminate Hw.
        reflexivity.
    + path_step H. destruct r0 as [u|].
      * path_step H. cbn in Hin.
        destruct Hin as [<-|[<-|[<-|[]]]]; discriminate Hw.
      * do 2 path_step H. cbn in Hin.
        destruct Hin as [<-|[<-|[<-|[<-|[]]]]]; try discriminate Hw.
        reflexivity.
  - path_step H. cbn in Hin. destruct Hin as [<-|[]]. discriminate Hw.
Qed.

(** A session whose [expiresAt] is an Invalid Date never expires: at every
    reading of the clock, [validateSession] accepts it as long as its user
    is stored. *)
Theorem invalid_date_never_expires
  (this : FineAuth) (sessionId : string) (s : Session) (u : User) (w : World) :
  sessions (store w) !! sessionId = Some s ->
  Session.expiresAt s = None ->
  users (store w) !! Session.userId s = Some u ->
  run (validateSession this sessionId) w
  = (Ok (Some {| Validated.user := toSafeUser u; Validated.session := s |}),
     {| store := store w; runtime := after_tick (runtime w) |}).
Proof.
  intros Hs He Hu. rewrite run_validateSession, Hs. cbv zeta.
  rewrite He, Hu. reflexivity.
Qed.

(** X23: [signOut] revokes: the session is gone from the store, a validation
    of its id answers [null] and changes nothing, and users, the email index
    and the other sessions are as before. *)
Theorem signOut_revokes (this this' : FineAuth) (sessionId : string) (w : World) :
  exists w1,
    run (signOut this sessionId) w = (Ok tt, w1)
    /\ sessions (store w1) !! sessionId = None
    /\ run (validateSession this' sessionId) w1 = (Ok None, w1)
    /\ users (store w1) = users (store w)
    /\ emailIndex (store w1) = emailIndex (store w)
    /\ forall k, k <> sessionId ->
         sessions (store w1) !! k = sessions (store w) !! k.
Proof.
  exists (with_store w (remove_session (store w) sessionId)).
  split; [reflexivity|].
  assert (E : sessions (store (with_store w (remove_session (store w) sessionId)))
              !! sessionId = None) by apply lookup_delete_eq.
  split; [exact E|]. split.
  - rewrite run_validateSession, E. reflexivity.
  - cbn. split; [reflexivity|]. split; [reflexivity|].
    intros k Hk. apply lookup_delete_ne. congruence.
Qed.

(** [signOut] is idempotent, and signing out an id that has no session
    leaves the store exactly as it was. *)
Theorem signOut_idempotent (this : FineAuth) (sessionId : string) (w : World) :
  let w1 := snd (run (signOut this sessionId) w) in
  store (snd (run (signOut this sessionId) w1)) = store w1
  /\ (sessions (store w) !! sessionId = None -> store w1 = store w).
Proof.
  cbv zeta. unfold signOut, adapter.
  rewrite !run_DeleteSession, !run_Ret. cbn. split.
  - unfold remove_session. cbn. rewrite delete_delete_eq. reflexivity.
  - intros H. unfold remove_session. rewrite (delete_id _ _ H).
    destruct (store w). reflexivity.
Qed.

(** X24: [signOutAll] removes exactly the sessions of the user: afterwards a
    session id is found if and only if it was found before and belongs to
    another user; users and the email index are as before; validating a
    removed session answers [null]. *)
Theorem signOutAll_removes_exactly_the_users_sessions
  (this this' : FineAuth) (uid : string) (w : World) :
  exists w1,
    run (signOutAll this uid) w = (Ok tt, w1)
    /\ users (store w1) = users (store w)
    /\ emailIndex (store w1) = emailIndex (store w)
    /\ (forall k s,
          sessions (store w1) !! k = Some s
          <-> sessions (store w) !! k = Some s /\ Session.userId s <> uid)
    /\ (forall k s,
          sessions (store w) !! k = Some s -> Session.userId s = uid ->
          run (validateSession this' k) w1 = (Ok None, w1)).
Proof.
  exists (with_store w (remove_user_sessions (store w) uid)).
  split; [reflexivity|]. split; [reflexivity|]. split; [reflexivity|].
  assert (L : forall k s,
             sessions (store (with_store w (remove_user_sessions (store w) uid)))
               !! k = Some s
             <-> sessions (store w) !! k = Some s /\ Session.userId s <> uid).
  { intros k s. cbn. apply map_lookup_filter_Some. }
  split; [exact L|].
  intros k s Hs Hu. rewrite run_validateSession.
  destruct (sessions (store (with_store w (remove_user_sessions (store w) uid)))
              !! k) as [s'|] eqn:Hf; [|reflexivity].
  apply L in Hf as [Hs' Hne]. congruence.
Qed.

End ValidateMore.

(** ** Signing up and signing in, continued *)

Section SignMore.

Context {prototype : Js.StringPrototype}.

Variable scrypt : string -> list byte -> nat -> Result (list byte).

#[local] Arguments run : simpl never.
#[local] Arguments draw : simpl never.

(** X25: After a successful [signUp], a second [signUp] with an email that
    [trim] and [toLowerCase] bring to the same canonical form (whatever its
    spelling, whatever the password) is refused with
    [UserAlreadyExistsError] and leaves the world as it was. *)
Theorem second_signUp_is_refused
  (this this' : FineAuth) (email email' password password' : string)
  (w w1 : World) (r : AuthResult) :
  run (signUp scrypt this email password) w = (Ok r, w1) ->
  canonical email' = canonical email ->
  run (signUp scrypt this' email' password') w1
  = (Thrown (Lib UserAlreadyExistsError), w1).
Proof.
  intros H Hc. apply run_signUp_inv in H as (key & Hf & Hk & -> & ->).
  apply (run_signUp_exists scrypt this' email' password' _
           (created_user email key (runtime w))).
  cbn [store]. rewrite find_add_session, Hc. apply find_created; reflexivity.
Qed.

(** X26: What a successful [signUp] answers is what it has stored: the
    session is filed under its id, belongs to the user answered and expires
    at [new Date(Date.now() + ttl)], where [Date.now()] is the second
    reading of the clock; the user is filed under its id and under the
    canonical form of the email, its id has 32 characters and the session's
    64; every other user and session is as before. *)
Theorem signUp_stores_what_it_answers
  (this : FineAuth) (email password : string) (w w1 : World) (r : AuthResult) :
  run (signUp scrypt this email password) w = (Ok r, w1) ->
  let u := AuthResult.user r in
  let s := AuthResult.session r in
  SafeUser.email u = canonical email
  /\ String.length (SafeUser.id u) = 32
  /\ String.length (Session.id s) = 64
  /\ Session.userId s = SafeUser.id u
  /\ Session.expiresAt s
     = Js.new_Date
         (Js.of_int (clock (runtime w) 1) + sessionExpiresIn this)%num
  /\ sessions (store w1) !! Session.id s = Some s
  /\ (exists stored,
        users (store w1) !! SafeUser.id u = Some stored
        /\ find_by_email (store w1) (canonical email) = Some stored
        /\ toSafeUser stored = u)
  /\ (forall k, k <> SafeUser.id u ->
        users (store w1) !! k = users (store w) !! k)
  /\ (forall k, k <> Session.id s ->
        sessions (store w1) !! k = sessions (store w) !! k).
Proof.
  intros H. apply run_signUp_inv in H as (key & Hf & Hk & -> & ->).
  cbv zeta. cbn [AuthResult.user AuthResult.session store].
  split; [reflexivity|].
  split; [cbn; rewrite toString_hex_length, draw_length; reflexivity|].
  split; [cbn; rewrite toString_hex_length, draw_length; reflexivity|].
  split; [reflexivity|]. split; [reflexivity|].
  split; [apply lookup_insert_eq|]. split.
  - exists (created_user email key (runtime w)).
    split; [apply lookup_insert_eq|]. split; [|reflexivity].
    rewrite find_add_session. apply find_created; reflexivity.
  - split.
    + intros k Hk'. cbn [users add_session add_user].
      apply lookup_insert_ne. intros E. apply Hk'. symmetry. exact E.
    + intros k Hk'. cbn [sessions add_session].
      apply lookup_insert_ne. intros E. apply Hk'. symmetry. exact E.
Qed.

(** X27: The session answered by a successful [signUp] validates in the
    world that the [signUp] left, for the user answered and from any
    [FineAuth] instance over the same store, provided the clock has not
    passed the expiry; the validation leaves the store as it was. *)
Theorem signUp_then_validateSession
  (this this' : FineAuth) (email password : string) (w w1 : World)
  (r : AuthResult) :
  run (signUp scrypt this email password) w = (Ok r, w1) ->
  Js.Date_gt (Some (clock (runtime w1) 0))
             (Session.expiresAt (AuthResult.session r)) = false ->
  run (validateSession this' (Session.id (AuthResult.session r))) w1
  = (Ok (Some {| Validated.user := AuthResult.user r;
                 Validated.session := AuthResult.session r |}),
     {| store := store w1; runtime := after_tick (runtime w1) |}).
Proof.
  intros H. apply run_signUp_inv in H as (key & Hf & Hk & -> & ->).
  cbn [AuthResult.user AuthResult.session store runtime]. intros Hgt.
  rewrite run_validateSession. cbn [store runtime].
  set (u := created_user email key (runtime w)) in *.
  set (s := minted_session (sessionExpiresIn this) (User.id u)
              (after_create (runtime w))) in *.
  replace (sessions (add_session (add_user (store w) u) s) !! Session.id s)
    with (Some s) by (symmetry; apply lookup_insert_eq).
  cbv zeta. rewrite Hgt.
  replace (users (add_session (add_user (store w) u) s) !! Session.userId s)
    with (Some u) by (symmetry; apply lookup_insert_eq).
  reflexivity.
Qed.

(** X28: A successful [signIn] found a user under the canonical form of the
    email whose stored hash verifies the password; it answers with that user
    without the hash and with a session of theirs that expires at
    [new Date(Date.now() + ttl)]; and storing that session is all it has
    done to the store. *)
Theorem signIn_success_only_adds_a_session
  (this : FineAuth) (email password : string) (w w1 : World) (r : AuthResult) :
  run (signIn scrypt this email password) w = (Ok r, w1) ->
  exists u,
    find_by_email (store w) (canonical email) = Some u
    /\ verifyPassword scrypt password (User.hashedPassword u) = true
    /\ AuthResult.user r = toSafeUser u
    /\ Session.userId (AuthResult.session r) = User.id u
    /\ String.length (Session.id (AuthResult.session r)) = 64
    /\ Session.expiresAt (AuthResult.session r)
       = Js.new_Date
           (Js.of_int (clock (runtime w) 0) + sessionExpiresIn this)%num
    /\ store w1 = add_session (store w) (AuthResult.session r).
Proof.
  intros H. apply run_signIn_inv in H as (u & Hf & Hv & -> & ->).
  exists u. split; [exact Hf|]. split; [exact Hv|].
  split; [reflexivity|]. split; [reflexivity|].
  split; [cbn; rewrite toString_hex_length, draw_length; reflexivity|].
  split; reflexivity.
Qed.

(** X29: Whatever the adapter answers, [signIn] asks it to create a session
    only after it has answered the lookup of the canonical email with a user
    whose stored hash verifies the password, and the session is created for
    that user. *)
Theorem signIn_creates_session_only_after_verification
  (this : FineAuth) (email password : string)
  (t : list (Step AppCall AppResp)) (o : Result AuthResult)
  (id uid : string) (expires : Js.Date) :
  path (signIn scrypt this email password) t o ->
  In (Db (CreateSession id uid expires)) (calls t) ->
  exists u rest,
    t = @mkStep AppCall AppResp (Db (GetUserByEmail (canonical email))) (Some u)
        :: rest
    /\ verifyPassword scrypt password (User.hashedPassword u) = true
    /\ uid = User.id u.
Proof.
  intros H Hin. unfold signIn in H. path_step H.
  destruct r as [u|].
  - destruct (verifyPassword scrypt password (User.hashedPassword u)) eqn:Hv.
    + do 3 path_step H. path_step H. cbn in Hin.
      destruct Hin as [E|[E|[E|[E|[]]]]]; try discriminate E.
      injection E as _ Eu _. exists u. eexists.
      split; [reflexivity|]. split; [exact Hv | congruence].
    + path_step H. cbn in Hin. destruct Hin as [E|[]]. discriminate E.
  - path_step H. cbn in Hin. destruct Hin as [E|[]]. discriminate E.
Qed.

(** Whatever the adapter answers, what [signUp] asks it to store is never
    the password but its hash: the email of the [createUser] call is the
    canonical one, and the hash is the salt drawn and the key that [scrypt]
    derived from the password and that salt, both in hexadecimal and joined
    by a colon; the lookup of the email was answered with no user. *)
Theorem signUp_stores_the_hash
  (this : FineAuth) (email password : string)
  (t : list (Step AppCall AppResp)) (o : Result AuthResult)
  (e h : string) :
  path (signUp scrypt this email password) t o ->
  In (Db (CreateUser e h)) (calls t) ->
  e = canonical email
  /\ (exists salt key,
        scrypt password salt 64 = Ok key
        /\ h = Js.toString_hex salt +:+ ":" +:+ Js.toString_hex key)
  /\ exists rest,
       t = @mkStep AppCall AppResp (Db (GetUserByEmail (canonical email))) None
           :: rest.
Proof.
  intros H Hin. unfold signUp in H. path_step H.
  destruct r as [u|].
  - path_step H. cbn in Hin. destruct Hin as [E|[]]. discriminate E.
  - unfold hashPassword in H. path_step H.
    destruct (scrypt password r 64) as [key|x] eqn:Hk.
    + do 4 path_step H. path_step H. cbn in Hin.
      destruct Hin as [E|[E|[E|[E|[E|[E|[]]]]]]]; try discriminate E.
      injection E as Ee Eh. split; [unfold canonical; congruence|]. split.
      * exists r, key. split; [exact Hk | congruence].
      * eexists. reflexivity.
    + path_step H. cbn in Hin.
      destruct Hin as [E|[E|[]]]; discriminate E.
Qed.

End SignMore.

Section SignCompose.

Context {prototype : Js.StringPrototype}.

Variable scrypt : string -> list byte -> nat -> Result (list byte).

Hypothesis scrypt_length :
  forall password salt keylen key,
    scrypt password salt keylen = Ok key -> List.length key = keylen.

#[local] Arguments run : simpl never.
#[local] Arguments draw : simpl never.

(** X30: After a successful [signUp], a [signIn] with the same password and
    any spelling of the email that has the same canonical form succeeds: it
    answers with the user that the [signUp] answered and a session of
    theirs, and adds that session to the store. *)
Theorem signUp_then_signIn
  (this this' : FineAuth) (email email' password : string) (w w1 : World)
  (r1 : AuthResult) :
  run (signUp scrypt this email password) w = (Ok r1, w1) ->
  canonical email' = canonical email ->
  exists r2 w2,
    run (signIn scrypt this' email' password) w1 = (Ok r2, w2)
    /\ AuthResult.user r2 = AuthResult.user r1
    /\ Session.userId (AuthResult.session r2) = SafeUser.id (AuthResult.user r1)
    /\ store w2 = add_session (store w1) (AuthResult.session r2).
Proof.
  intros H Hc. apply run_signUp_inv in H as (key & Hf & Hk & -> & ->).
  set (user := created_user email key (runtime w)).
  eexists _, _. split.
  - apply (run_signIn_ok scrypt this' email' password _ user).
    + cbn [store]. rewrite find_add_session, Hc.
      apply find_created; reflexivity.
    + apply verify_hash_roundtrip.
      * discriminate.
      * intros E. apply scrypt_length in Hk. rewrite E in Hk. discriminate.
      * exact Hk.
  - split; [reflexivity|]. split; reflexivity.
Qed.

End SignCompose.

(** ** The further properties on the samples *)

Section OnSamplesMore.

#[local] Existing Instance Js.ascii_prototype.

Lemma sample_hmac_length key data : List.length (sample_hmac key data) = 32.
Proof.
  unfold sample_hmac. rewrite length_take, !length_app, repeat_length. lia.
Qed.

Lemma verifySessionId_accepts_only_signed_witness :
  "abc.a2FiYwAAAAAAAAAAAAAAAAAAAAAAAAAAAAAAAAAAAAA"
  = signSessionId sample_hmac "abc" "k"
  /\ "abc" <> EmptyString
  /\ Js.occurs "." "abc" = false.
Proof.
  apply (verifySessionId_accepts_only_signed sample_hmac
           "abc.a2FiYwAAAAAAAAAAAAAAAAAAAAAAAAAAAAAAAAAAAAA" "k" "abc").
  vm_compute. reflexivity.
Defined.

Lemma appended_token_rejected_witness :
  verifySessionId sample_hmac (signSessionId sample_hmac "abc" "k" +:+ "A") "k"
  = Ok None.
Proof.
  apply (appended_token_rejected sample_hmac "abc" "k" "A"). discriminate.
Defined.

Lemma other_key_accepts_iff_same_digest_witness :
  verifySessionId sample_hmac (signSessionId sample_hmac "abc" "k") "j"
  = Ok None.
Proof.
  apply (proj2 (other_key_accepts_iff_same_digest sample_hmac sample_hmac_length
                  "abc" "k" "j" ltac:(discriminate) eq_refl)).
  vm_compute. discriminate.
Defined.

Lemma generated_id_token_verifies_witness :
  exists id w',
    run_sys generateSessionId sample_world = (Ok id, w')
    /\ verifySessionId sample_hmac (signSessionId sample_hmac id "k") "k"
       = Ok (Some id).
Proof.
  apply (generated_id_token_verifies sample_hmac sample_hmac_length
           sample_world "k").
Defined.

Lemma hashPassword_format_witness :
  exists h w',
    run_sys (hashPassword sample_scrypt "pw123456") sample_world = (Ok h, w')
    /\ String.length h = 161
    /\ List.length (Js.split ":" h) = 2.
Proof.
  eassert (E : run_sys (hashPassword sample_scrypt "pw123456") sample_world
               = (Ok _, _)).
  { rewrite run_sys_hashPassword. reflexivity. }
  destruct (hashPassword_format sample_scrypt sample_scrypt_length
              "pw123456" _ sample_world _ E)
    as (saltHex & keyHex & _ & Hs & _ & _ & _ & _ & Hl).
  eexists _, _. split; [exact E|]. split; [exact Hl|].
  rewrite Hs. reflexivity.
Defined.

Lemma hashPassword_then_verifyPassword_witness :
  exists h w',
    run_sys (hashPassword sample_scrypt "pw123456") sample_world = (Ok h, w')
    /\ verifyPassword sample_scrypt "pw123456" h = true.
Proof.
  eassert (E : run_sys (hashPassword sample_scrypt "pw123456") sample_world
               = (Ok _, _)).
  { rewrite run_sys_hashPassword. reflexivity. }
  eexists _, _. split; [exact E|].
  apply (hashPassword_then_verifyPassword sample_scrypt sample_scrypt_length
           "pw123456" _ sample_world _ E).
Defined.

Lemma parseDuration_string_accepted_witness :
  (exists digits u,
     "30m" = digits +:+ u
     /\ digits <> EmptyString
     /\ all_chars Js.is_digit digits = true
     /\ is_unit u = true
     /\ Js.of_int 1800000 = in_milliseconds (Js.parseInt digits) u
     /\ Js.leb (Js.of_int 0) (Js.of_int 1800000) = true
     /\ ((Js.decimal digits * duration_factor u < 2 ^ 53)%Z ->
         Js.of_int 1800000
         = Js.of_int (Js.decimal digits * duration_factor u)))
  /\ parseDuration (DurationString "9007199254740993ms")
     = Ok (Js.of_int 9007199254740992).
Proof.
  split.
  - apply (parseDuration_string_accepted "30m" (Js.of_int 1800000)).
    vm_compute. reflexivity.
  - vm_compute. reflexivity.
Defined.

Lemma parseDuration_only_error_witness :
  (exists s,
     DurationString "soon" = DurationString s
     /\ Lib (ConfigurationError "Invalid duration format: soon")
        = Lib (ConfigurationError ("Invalid duration format: " +:+ s)))
  /\ (forall u, Lib (ConfigurationError "Invalid duration format: soon")
                <> Lib (ConfigurationError ("Unknown duration unit: " +:+ u))).
Proof.
  apply (parseDuration_only_error (DurationString "soon")
           (Lib (ConfigurationError "Invalid duration format: soon"))).
  reflexivity.
Defined.

Lemma constructor_throws_only_ConfigurationError_witness :
  exists message,
    new_FineAuth (sample_config (Some (DurationString "soon")))
    = Thrown (Lib (ConfigurationError message)).
Proof.
  destruct (constructor_throws_only_ConfigurationError
              (sample_config (Some (DurationString "soon")))
              (Lib (ConfigurationError "Invalid duration format: soon"))
              eq_refl) as [message E].
  exists message. rewrite <- E. reflexivity.
Defined.

Lemma constructor_success_witness :
  secret (sample_config (Some (DurationString "30m"))) <> EmptyString
  /\ db (sample_config (Some (DurationString "30m"))) = true
  /\ parseDuration (DurationString "30m") = Ok (Js.of_int 1800000).
Proof.
  destruct (constructor_success
              (sample_config (Some (DurationString "30m")))
              {| config := sample_config (Some (DurationString "30m"));
                 sessionExpiresIn := Js.of_int 1800000 |}
              ltac:(vm_compute; reflexivity)) as (_ & Hs & Hd & _ & Hp).
  split; [exact Hs|]. split; [exact Hd | exact Hp].
Defined.

Lemma constructor_duration_literal_witness :
  new_FineAuth (sample_config (Some (DurationString "30m")))
  = Ok {| config := sample_config (Some (DurationString "30m"));
          sessionExpiresIn := Js.of_int 1800000 |}.
Proof.
  apply (proj2 (proj1 (proj2 (constructor_duration_literal
                                (sample_config (Some (DurationString "30m")))
                                "30m" ltac:(discriminate)
                                eq_refl eq_refl eq_refl))
                  "30" "m" eq_refl ltac:(discriminate) eq_refl eq_refl)).
  vm_compute. reflexivity.
Defined.

Lemma well_formed_kept_witness :
  well_formed
    (store (snd (run (signUp sample_scrypt sample_auth "a@b.com" "pw123456")
                   sample_world))).
Proof.
  apply (well_formed_kept (signUp sample_scrypt sample_auth "a@b.com" "pw123456")
           sample_world).
  exact well_formed_empty.
Defined.

Lemma createUser_then_lookup_witness :
  exists u w1,
    Memory.createUser "A@B.com" "00:00" sample_world = (Ok u, w1)
    /\ Memory.getUserByEmail "a@b.COM" w1 = (Ok (Some u), w1)
    /\ Memory.getUserById (User.id u) w1 = (Ok (Some u), w1).
Proof.
  pose proof (createUser_eq "A@B.com" "00:00" sample_world) as E.
  cbv zeta in E.
  destruct (createUser_then_lookup _ _ _ _ _ E) as (_ & _ & _ & Hid & Hem).
  eexists _, _. split; [exact E|]. split; [|exact Hid].
  apply Hem. reflexivity.
Defined.

Lemma createUser_same_email_takes_over_witness :
  exists u1 u2 w1 w2,
    Memory.createUser "A@B.com" "00:00" sample_world = (Ok u1, w1)
    /\ Memory.createUser "a@b.com" "11:11" w1 = (Ok u2, w2)
    /\ Memory.getUserByEmail "A@B.com" w2 = (Ok (Some u2), w2)
    /\ Memory.getUserById (User.id u1) w2 = (Ok (Some u1), w2).
Proof.
  pose proof (createUser_eq "A@B.com" "00:00" sample_world) as E1.
  cbv zeta in E1.
  match type of E1 with
  | _ = (_, ?w1) => pose proof (createUser_eq "a@b.com" "11:11" w1) as E2
  end.
  cbv zeta in E2.
  destruct (createUser_same_email_takes_over _ _ _ _ _ _ _ _ _ E1 E2 eq_refl)
    as (Hem & Hid & _).
  - vm_compute. discriminate.
  - eexists _, _, _, _. split; [exact E1|]. split; [exact E2|].
    split; [exact Hem | exact Hid].
Defined.

Lemma session_store_round_trip_witness :
  exists s w1,
    Memory.createSession "abc" "u1" (Some 5000%Z) sample_world = (Ok s, w1)
    /\ Session.userId s = "u1"
    /\ Memory.getSession "abc" w1 = (Ok (Some s), w1).
Proof.
  pose proof (createSession_eq "abc" "u1" (Some 5000%Z) sample_world) as E.
  cbv zeta in E.
  destruct (session_store_round_trip _ _ _ _ _ _ E) as (_ & Hu & _ & Hg & _).
  eexists _, _. split; [exact E|]. split; [exact Hu | exact Hg].
Defined.

Lemma validateSession_accepts_only_live_sessions_witness :
  sessions (store world_with_session) !! "abc" = Some sample_session
  /\ Js.Date_gt (Some 1000%Z) (Session.expiresAt sample_session) = false.
Proof.
  pose proof (run_validate_live sample_auth "abc" sample_session
                world_with_session sample_user eq_refl eq_refl eq_refl) as E.
  destruct (validateSession_accepts_only_live_sessions sample_auth "abc"
              world_with_session _ _ E) as (Hs & Hgt & _).
  split; [exact Hs | exact Hgt].
Defined.

Lemma validateSession_only_deletes_its_session_witness :
  path (validateSession sample_auth "old") sample_expired_path (Ok None)
  /\ In (Db (DeleteSession "old")) (calls sample_expired_path)
  /\ Db (DeleteSession "old") = Db (DeleteSession "old").
Proof.
  assert (P : path (validateSession sample_auth "old") sample_expired_path
                (Ok None)).
  { apply (@path_vis AppCall AppResp _ (Db (GetSession _)) _
             (Some expired_session)).
    apply (@path_vis AppCall AppResp _ (Sys DateNow) _ 1000%Z).
    apply (@path_vis AppCall AppResp _ (Db (DeleteSession _)) _ tt).
    apply path_ret. }
  assert (I : In (Db (DeleteSession "old")) (calls sample_expired_path)).
  { right. right. left. reflexivity. }
  split; [exact P|]. split; [exact I|].
  apply (validateSession_only_deletes_its_session sample_auth "old"
           sample_expired_path (Ok None) (Db (DeleteSession "old")) P I).
  reflexivity.
Defined.

Lemma second_signUp_is_refused_witness :
  run (signUp sample_scrypt sample_auth " A@B.COM " "another1")
      (snd (run (signUp sample_scrypt sample_auth "a@b.com" "pw123456")
              sample_world))
  = (Thrown (Lib UserAlreadyExistsError),
     snd (run (signUp sample_scrypt sample_auth "a@b.com" "pw123456")
            sample_world)).
Proof.
  pose proof (run_signUp_ok sample_scrypt sample_auth "a@b.com" "pw123456"
                sample_world _ eq_refl eq_refl) as E.
  cbv zeta in E. rewrite E. cbn [snd].
  apply (second_signUp_is_refused sample_scrypt sample_auth sample_auth
           "a@b.com" " A@B.COM " "pw123456" "another1" sample_world _ _ E).
  reflexivity.
Defined.

Lemma signUp_stores_what_it_answers_witness :
  exists r w1,
    run (signUp sample_scrypt sample_auth "A@b.com" "pw123456") sample_world
    = (Ok r, w1)
    /\ SafeUser.email (AuthResult.user r) = "a@b.com"
    /\ sessions (store w1) !! Session.id (AuthResult.session r)
       = Some (AuthResult.session r).
Proof.
  pose proof (run_signUp_ok sample_scrypt sample_auth "A@b.com" "pw123456"
                sample_world _ eq_refl eq_refl) as E.
  cbv zeta in E.
  destruct (signUp_stores_what_it_answers sample_scrypt sample_auth
              "A@b.com" "pw123456" sample_world _ _ E)
    as (He & _ & _ & _ & _ & Hs & _).
  eexists _, _. split; [exact E|]. split; [exact He | exact Hs].
Defined.

Lemma signUp_then_validateSession_witness :
  exists r w1 w2,
    run (signUp sample_scrypt sample_auth "a@b.com" "pw123456") sample_world
    = (Ok r, w1)
    /\ run (validateSession sample_auth (Session.id (AuthResult.session r))) w1
       = (Ok (Some {| Validated.user := AuthResult.user r;
                      Validated.session := AuthResult.session r |}), w2).
Proof.
  pose proof (run_signUp_ok sample_scrypt sample_auth "a@b.com" "pw123456"
                sample_world _ eq_refl eq_refl) as E.
  cbv zeta in E.
  eexists _, _, _. split; [exact E|].
  apply (signUp_then_validateSession sample_scrypt sample_auth sample_auth
           "a@b.com" "pw123456" sample_world _ _ E).
  reflexivity.
Defined.

Lemma signIn_success_only_adds_a_session_witness :
  exists r w1,
    run (signIn sample_scrypt sample_auth "A@B.com" "pw123456")
        world_with_member = (Ok r, w1)
    /\ String.length (Session.id (AuthResult.session r)) = 64
    /\ store w1 = add_session (store world_with_member) (AuthResult.session r).
Proof.
  pose proof (run_signIn_ok sample_scrypt sample_auth "A@B.com" "pw123456"
                world_with_member sample_member eq_refl eq_refl) as E.
  cbv zeta in E.
  destruct (signIn_success_only_adds_a_session sample_scrypt sample_auth
              "A@B.com" "pw123456" world_with_member _ _ E)
    as (u & _ & _ & _ & _ & Hl & _ & Hst).
  eexists _, _. split; [exact E|]. split; [exact Hl | exact Hst].
Defined.

Lemma signIn_creates_session_only_after_verification_witness :
  exists u rest,
    sample_signin_path
    = @mkStep AppCall AppResp (Db (GetUserByEmail (canonical "A@B.com")))
        (Some u) :: rest
    /\ verifyPassword sample_scrypt "pw123456" (User.hashedPassword u) = true
    /\ "u7" = User.id u.
Proof.
  apply (signIn_creates_session_only_after_verification sample_scrypt
           sample_auth "A@B.com" "pw123456" sample_signin_path
           (Ok {| AuthResult.user := toSafeUser sample_member;
                  AuthResult.session := sample_session |})
           "00" "u7" (Some 604801000%Z)).
  - apply (@path_vis AppCall AppResp _ (Db (GetUserByEmail _)) _
             (Some sample_member)).
    apply (@path_vis AppCall AppResp _ (Sys (RandomBytes 32)) _ [x00]).
    apply (@path_vis AppCall AppResp _ (Sys DateNow) _ 1000%Z).
    apply (@path_vis AppCall AppResp _ (Db (CreateSession _ _ _)) _
             sample_session).
    apply path_ret.
  - right. right. right. left. reflexivity.
Defined.

Lemma signUp_then_signIn_witness :
  exists r2 w2,
    run (signIn sample_scrypt sample_auth " ANN@example.COM " "pw123456")
        (snd (run (signUp sample_scrypt sample_auth "Ann@Example.com"
                     "pw123456") sample_world))
    = (Ok r2, w2)
    /\ SafeUser.email (AuthResult.user r2) = "ann@example.com".
Proof.
  pose proof (run_signUp_ok sample_scrypt sample_auth "Ann@Example.com"
                "pw123456" sample_world _ eq_refl eq_refl) as E.
  cbv zeta in E. rewrite E. cbn [snd].
  destruct (signUp_then_signIn sample_scrypt sample_scrypt_length
              sample_auth sample_auth "Ann@Example.com" " ANN@example.COM "
              "pw123456" sample_world _ _ E eq_refl)
    as (r2 & w2 & Hrun & Hu & _).
  exists r2, w2. split; [exact Hrun|]. rewrite Hu. reflexivity.
Defined.

End OnSamplesMore.
